(** * crimm: the incremental structure builder and the topology bond record

    A shallow embedding of [ChmStructureBuilder] (src/ChmStructureBuilder.py)
    and of [Bond.__new__] (src/crimm/StructEntities/TopoElements.py).

    The builder mutates a tree of shared Python objects: the chain holds a
    reference to every residue, the builder's cursor [self.residue] holds a
    second reference to one of them, and a DisorderedResidue holds references
    to the residues it wraps.  The embedding therefore keeps an explicit
    object store ([heap]); every reference is an address into it and every
    method is a state transformer that may raise.

    The hierarchy classes (Entity, Atom, DisorderedAtom, Residue,
    DisorderedResidue, Chain, Model, Structure) and the base StructureBuilder
    are Bio.PDB's, which the builder imports; their methods are embedded as
    that library defines them, restricted to the fields the builder reads or
    writes. *)

From Stdlib Require Import ZArith QArith String.
From stdpp Require Import base option list gmap strings.

Local Open Scope string_scope.
Local Open Scope Z_scope.
Local Open Scope list_scope.
Local Open Scope stdpp_scope.

(** ** Exceptions, warnings and the state-and-exception monad *)

Inductive message :=
| DefinedTwice
| AtomDefinedTwice (atom_id : string)
| BlankAltlocsInDuplicate (resname field : string) (resseq : Z) (icode : string)
| BlankAltlocForAtom (resname : string) (resseq : Z) (icode : string).

Inductive exn :=
| PDBConstructionException (m : message)
| AttributeError
| KeyError
| ValueError
| TypeError
| IndexError
| AssertionError.

Inductive warning :=
| ChainDiscontinuous (chain_id : string) (line : Z)
| ResidueRedefined (field : string) (resseq : Z) (icode : string) (line : Z)
| ResidueSameName (field : string) (resseq : Z) (icode resname : string) (line : Z)
| AtomNamesDifferInSpaces (duplicate_fullname fullname : string) (line : Z)
| DisorderedAtomBlankAltloc (line : Z).

Inductive outcome (A : Type) :=
| Ret (a : A)
| Raise (e : exn).
Arguments Ret {A} a.
Arguments Raise {A} e.

(** A method run on state [S]: its outcome and the state it leaves.  A raised
    exception keeps every mutation made before it, as in Python. *)
Definition ST (S A : Type) : Type := S -> outcome A * S.

Definition ret {S A} (a : A) : ST S A := fun s => (Ret a, s).
Definition raise {S A} (e : exn) : ST S A := fun s => (Raise e, s).
Definition bind {S A B} (m : ST S A) (f : A -> ST S B) : ST S B :=
  fun s => match m s with
           | (Ret a, s') => f a s'
           | (Raise e, s') => (Raise e, s')
           end.
Definition gets {S A} (f : S -> A) : ST S A := fun s => (Ret (f s), s).
Definition modify {S} (f : S -> S) : ST S unit := fun s => (Ret tt, f s).
Definition of_outcome {S A} (o : outcome A) : ST S A := fun s => (o, s).

Notation "'let*' x ':=' m 'in' k" := (bind m (fun x => k))
  (at level 10, x name, m at level 100, k at level 200).
Notation "m ;;; k" := (bind m (fun _ => k))
  (at level 100, k at level 200, right associativity).

(** [for x in l: body x] *)
Fixpoint for_each {S A} (l : list A) (body : A -> ST S unit) : ST S unit :=
  match l with
  | [] => ret tt
  | x :: l' => body x ;;; for_each l' body
  end.

(** ** Python dictionaries whose iteration order is observed

    [child_dict] of a DisorderedEntityWrapper is walked with [.items()], so it
    is kept as an association list in insertion order; assigning to a key
    that is present replaces the value in place. *)

Fixpoint dict_get {K V} `{EqDecision K} (d : list (K * V)) (k : K) : option V :=
  match d with
  | [] => None
  | (k', v) :: d' => if decide (k' = k) then Some v else dict_get d' k
  end.

Fixpoint dict_set {K V} `{EqDecision K} (d : list (K * V)) (k : K) (v : V)
  : list (K * V) :=
  match d with
  | [] => [(k, v)]
  | (k', v') :: d' =>
      if decide (k' = k) then (k', v) :: d' else (k', v') :: dict_set d' k v
  end.

Definition dict_has {K V} `{EqDecision K} (d : list (K * V)) (k : K) : bool :=
  bool_decide (is_Some (dict_get d k)).

(** ** The object store *)

Abbreviation addr := nat (only parsing).

(** Residue identifier: (hetero flag, sequence number, insertion code). *)
Abbreviation res_id := (string * Z * string)%type (only parsing).

(** Bio.PDB.Entity: the children in insertion order and by identifier.
    Parent back-references are left out: the builder never reads them. *)
Record Entity (K : Type) `{Countable K} := mkEntity {
  child_list : list addr;
  child_dict : gmap K addr
}.
Arguments mkEntity {K _ _} _ _.
Arguments child_list {K _ _} _.
Arguments child_dict {K _ _} _.

(** Bio.PDB.Entity.DisorderedEntityWrapper. *)
Record Wrapper (I K : Type) := mkWrapper {
  w_id : I;
  w_child_dict : list (K * addr);
  selected_child : option addr
}.
Arguments mkWrapper {I K} _ _ _.
Arguments w_id {I K} _.
Arguments w_child_dict {I K} _.
Arguments selected_child {I K} _.

(** Bio.PDB.Atom.  Floats are embedded as rationals; only their order is
    ever inspected.  [None] is Python's None.  The disorder flags of atoms
    and residues take the values 0 and 1 only and are kept as booleans. *)
Record Atom := mkAtom {
  atom_name : string;
  atom_coord : option (Q * Q * Q);
  atom_bfactor : option Q;
  atom_occupancy : option Q;
  atom_altloc : string;
  atom_fullname : string;
  atom_serial_number : option Z;
  atom_element : option string;
  atom_pqr_charge : option Q;
  atom_radius : option Q;
  atom_id : string;
  atom_disordered_flag : bool
}.

Record DisorderedAtom := mkDisorderedAtom {
  da_wrapper : Wrapper string string;
  last_occupancy : Q
}.

Record Residue := mkResidue {
  residue_id : res_id;
  resname : string;
  residue_segid : string;
  disordered : bool;
  residue_entity : Entity string
}.

Abbreviation DisorderedResidue := (Wrapper (string * Z * string) string) (only parsing).

Record Chain := mkChain {
  chain_id : string;
  chain_entity : Entity res_id
}.

Record Model := mkModel {
  model_id : Z;
  serial_num : option Z;
  model_entity : Entity string
}.

Record Structure := mkStructure {
  structure_id : string;
  structure_entity : Entity Z
}.

Inductive obj :=
| OAtom (a : Atom)
| ODisorderedAtom (d : DisorderedAtom)
| OResidue (r : Residue)
| ODisorderedResidue (d : DisorderedResidue)
| OChain (c : Chain)
| OModel (m : Model)
| OStructure (s : Structure).

Abbreviation heap := (list obj) (only parsing).

(** A constructor call: the new object gets the next free address. *)
Definition alloc (o : obj) : ST heap addr :=
  fun h => (Ret (List.length h), h ++ [o]).

(** Reading through a reference.  An address that does not hold an object of
    the class the caller needs stands for a missing attribute. *)
Definition load (a : addr) : ST heap obj :=
  fun h => match h !! a with
           | Some o => (Ret o, h)
           | None => (Raise AttributeError, h)
           end.

Definition store (a : addr) (o : obj) : ST heap unit :=
  fun h => (Ret tt, <[a:=o]> h).

Definition load_atom (a : addr) : ST heap Atom :=
  let* o := load a in
  match o with OAtom x => ret x | _ => raise AttributeError end.

Definition load_disordered_atom (a : addr) : ST heap DisorderedAtom :=
  let* o := load a in
  match o with ODisorderedAtom x => ret x | _ => raise AttributeError end.

Definition load_residue (a : addr) : ST heap Residue :=
  let* o := load a in
  match o with OResidue x => ret x | _ => raise AttributeError end.

Definition load_disordered_residue (a : addr) : ST heap DisorderedResidue :=
  let* o := load a in
  match o with ODisorderedResidue x => ret x | _ => raise AttributeError end.

Definition load_chain (a : addr) : ST heap Chain :=
  let* o := load a in
  match o with OChain x => ret x | _ => raise AttributeError end.

Definition load_model (a : addr) : ST heap Model :=
  let* o := load a in
  match o with OModel x => ret x | _ => raise AttributeError end.

Definition load_structure (a : addr) : ST heap Structure :=
  let* o := load a in
  match o with OStructure x => ret x | _ => raise AttributeError end.

(** ** Bio.PDB.Entity methods, on the entity's own fields *)

(** [list.remove(x)]: drops the first occurrence, [None] when there is none
    (Python raises ValueError). *)
Fixpoint list_remove (a : addr) (l : list addr) : option (list addr) :=
  match l with
  | [] => None
  | x :: l' => if decide (x = a) then Some l' else (x ::.) <$> list_remove a l'
  end.

Section entity.
Context {K : Type} `{Countable K}.

Definition Entity_has_id (e : Entity K) (k : K) : bool :=
  bool_decide (is_Some (child_dict e !! k)).

Definition Entity_getitem (e : Entity K) (k : K) : outcome addr :=
  match child_dict e !! k with
  | Some a => Ret a
  | None => Raise KeyError
  end.

(** [add]: refuses an identifier that is present, else appends. *)
Definition Entity_add (k : K) (child : addr) : ST (Entity K) unit :=
  fun e =>
    if Entity_has_id e k then (Raise (PDBConstructionException DefinedTwice), e)
    else (Ret tt, mkEntity (child_list e ++ [child]) (<[k:=child]> (child_dict e))).

(** [detach_child]: [del child_dict[id]] and then [child_list.remove(child)]. *)
Definition Entity_detach_child (k : K) : ST (Entity K) unit :=
  fun e =>
    match child_dict e !! k with
    | None => (Raise KeyError, e)
    | Some child =>
        match list_remove child (child_list e) with
        | Some l => (Ret tt, mkEntity l (delete k (child_dict e)))
        | None => (Raise ValueError, mkEntity (child_list e) (delete k (child_dict e)))
        end
    end.
End entity.

Definition empty_entity {K} `{Countable K} : Entity K := mkEntity [] ∅.

(** ** Methods of the hierarchy classes, on the store *)

(** Attribute access on a DisorderedEntityWrapper falls through to the
    selected child; with no child selected the attribute is missing. *)
Definition selected {I K} (w : Wrapper I K) : ST heap addr :=
  match selected_child w with
  | Some a => ret a
  | None => raise AttributeError
  end.

(** [get_id()] of a Residue or DisorderedResidue. *)
Definition residue_get_id (a : addr) : ST heap res_id :=
  let* o := load a in
  match o with
  | OResidue r => ret (residue_id r)
  | ODisorderedResidue d => ret (w_id d)
  | _ => raise AttributeError
  end.

(** [get_id()] of an Atom or DisorderedAtom. *)
Definition atom_get_id (a : addr) : ST heap string :=
  let* o := load a in
  match o with
  | OAtom x => ret (atom_id x)
  | ODisorderedAtom d => ret (w_id (da_wrapper d))
  | _ => raise AttributeError
  end.

(** The Residue object that serves a residue reference: the object itself,
    or the selected child of a DisorderedResidue. *)
Definition as_residue (a : addr) : ST heap addr :=
  let* o := load a in
  match o with
  | OResidue _ => ret a
  | ODisorderedResidue d => selected d
  | _ => raise AttributeError
  end.

Definition set_residue_entity (r : Residue) (e : Entity string) : Residue :=
  mkResidue (residue_id r) (resname r) (residue_segid r) (disordered r) e.

Definition Residue_has_id (a : addr) (name : string) : ST heap bool :=
  let* t := as_residue a in
  let* r := load_residue t in
  ret (Entity_has_id (residue_entity r) name).

Definition Residue_getitem (a : addr) (name : string) : ST heap addr :=
  let* t := as_residue a in
  let* r := load_residue t in
  of_outcome (Entity_getitem (residue_entity r) name).

Definition Residue_detach_child (a : addr) (name : string) : ST heap unit :=
  let* t := as_residue a in
  let* r := load_residue t in
  let '(o, e) := Entity_detach_child name (residue_entity r) in
  store t (OResidue (set_residue_entity r e)) ;;;
  of_outcome o.

(** [Residue.flag_disordered]: [self.disordered = 1]. *)
Definition flag_disordered (r : Residue) : Residue :=
  mkResidue (residue_id r) (resname r) (residue_segid r) true (residue_entity r).

Definition Residue_flag_disordered (a : addr) : ST heap unit :=
  let* t := as_residue a in
  let* r := load_residue t in
  store t (OResidue (flag_disordered r)).

(** [is_disordered()]: an Atom answers its flag, a DisorderedAtom 2. *)
Definition atom_is_disordered (a : addr) : ST heap Z :=
  let* o := load a in
  match o with
  | OAtom x => ret (Z.b2z (atom_disordered_flag x))
  | ODisorderedAtom _ => ret 2
  | _ => raise AttributeError
  end.

Definition atom_get_fullname (a : addr) : ST heap string :=
  let* o := load a in
  match o with
  | OAtom x => ret (atom_fullname x)
  | ODisorderedAtom d =>
      let* s := selected (da_wrapper d) in
      let* x := load_atom s in
      ret (atom_fullname x)
  | _ => raise AttributeError
  end.

(** [Residue.add]: its own duplicate test, then [Entity.add]. *)
Definition plain_Residue_add (t : addr) (child : addr) : ST heap unit :=
  let* k := atom_get_id child in
  let* r := load_residue t in
  if Entity_has_id (residue_entity r) k then
    raise (PDBConstructionException (AtomDefinedTwice k))
  else
    let '(o, e) := Entity_add k child (residue_entity r) in
    store t (OResidue (set_residue_entity r e)) ;;;
    of_outcome o.

(** [DisorderedResidue.add]: the atom goes to the selected child; an atom
    that is not a DisorderedAtom is added all the same and then reported. *)
Definition DisorderedResidue_add (g : addr) (child : addr) : ST heap unit :=
  let* d := load_disordered_residue g in
  let* t := selected d in
  let* flag := atom_is_disordered child in
  if negb (flag =? 2) then
    let* r := load_residue t in
    plain_Residue_add t child ;;;
    let '(_, resseq, icode) := residue_id r in
    raise (PDBConstructionException (BlankAltlocForAtom (resname r) resseq icode))
  else plain_Residue_add t child.

Definition Residue_add (a : addr) (child : addr) : ST heap unit :=
  let* o := load a in
  match o with
  | OResidue _ => plain_Residue_add a child
  | ODisorderedResidue _ => DisorderedResidue_add a child
  | _ => raise AttributeError
  end.

(** [Atom.flag_disorder]: [self.disordered_flag = 1]. *)
Definition flag_disorder (x : Atom) : Atom :=
  mkAtom (atom_name x) (atom_coord x) (atom_bfactor x) (atom_occupancy x)
    (atom_altloc x) (atom_fullname x) (atom_serial_number x) (atom_element x)
    (atom_pqr_charge x) (atom_radius x) (atom_id x) true.

(** [-sys.maxsize], the initial [last_occupancy] of a DisorderedAtom. *)
Definition minus_maxsize : Q := inject_Z (- (2 ^ 63 - 1)).

Definition new_DisorderedAtom (id : string) : ST heap addr :=
  alloc (ODisorderedAtom (mkDisorderedAtom (mkWrapper id [] None) minus_maxsize)).

(** [DisorderedAtom.disordered_add]: flags the atom, files it under its
    altloc, and selects it when its occupancy exceeds every earlier one.
    Comparing None with a number is a TypeError. *)
Definition DisorderedAtom_disordered_add (g : addr) (child : addr) : ST heap unit :=
  let* x := load_atom child in
  store child (OAtom (flag_disorder x)) ;;;
  let* d := load_disordered_atom g in
  let w := da_wrapper d in
  let dict := dict_set (w_child_dict w) (atom_altloc x) child in
  store g (ODisorderedAtom
             (mkDisorderedAtom (mkWrapper (w_id w) dict (selected_child w))
                (last_occupancy d))) ;;;
  match atom_occupancy x with
  | None => raise TypeError
  | Some occupancy =>
      if negb (Qle_bool occupancy (last_occupancy d)) then
        store g (ODisorderedAtom
                   (mkDisorderedAtom (mkWrapper (w_id w) dict (dict_get dict (atom_altloc x)))
                      occupancy))
      else ret tt
  end.

(** [disordered_has_id] and [disordered_select] of a DisorderedResidue. *)
Definition disordered_has_id (g : addr) (name : string) : ST heap bool :=
  let* d := load_disordered_residue g in
  ret (dict_has (w_child_dict d) name).

Definition disordered_select (g : addr) (name : string) : ST heap unit :=
  let* d := load_disordered_residue g in
  match dict_get (w_child_dict d) name with
  | Some child =>
      store g (ODisorderedResidue (mkWrapper (w_id d) (w_child_dict d) (Some child)))
  | None => raise KeyError
  end.

(** [DisorderedResidue.disordered_add]: asserts the name is new, files the
    residue under its name and selects it. *)
Definition DisorderedResidue_disordered_add (g : addr) (child : addr) : ST heap unit :=
  let* r := load_residue child in
  let* d := load_disordered_residue g in
  if dict_has (w_child_dict d) (resname r) then raise AssertionError
  else
    store g (ODisorderedResidue
               (mkWrapper (w_id d) (dict_set (w_child_dict d) (resname r) child)
                  (selected_child d))) ;;;
    disordered_select g (resname r).

(** [is_disordered()] of a Residue (its flag) or DisorderedResidue (2). *)
Definition residue_is_disordered (a : addr) : ST heap Z :=
  let* o := load a in
  match o with
  | OResidue r => ret (Z.b2z (disordered r))
  | ODisorderedResidue _ => ret 2
  | _ => raise AttributeError
  end.

(** [Residue.get_unpacked_list]: the atoms, DisorderedAtoms opened up.  The
    alternates of one DisorderedAtom are listed in the order of its
    [child_dict]; the only caller, [_is_completely_disordered], asks whether
    some atom has a blank tag and so does not depend on that order. *)
Fixpoint unpack (atom_list : list addr) : ST heap (list addr) :=
  match atom_list with
  | [] => ret []
  | x :: l' =>
      let* flag := atom_is_disordered x in
      let* here :=
        (if negb (flag =? 0) then
           let* d := load_disordered_atom x in
           ret (snd <$> w_child_dict (da_wrapper d))
         else ret [x]) in
      let* rest := unpack l' in
      ret (here ++ rest)
  end.

Definition get_unpacked_list (a : addr) : ST heap (list addr) :=
  let* t := as_residue a in
  let* r := load_residue t in
  unpack (child_list (residue_entity r)).

Definition set_chain_entity (c : Chain) (e : Entity res_id) : Chain :=
  mkChain (chain_id c) e.

Definition Chain_has_id (c : addr) (k : res_id) : ST heap bool :=
  let* ch := load_chain c in
  ret (Entity_has_id (chain_entity ch) k).

Definition Chain_getitem (c : addr) (k : res_id) : ST heap addr :=
  let* ch := load_chain c in
  of_outcome (Entity_getitem (chain_entity ch) k).

Definition Chain_add (c : addr) (child : addr) : ST heap unit :=
  let* k := residue_get_id child in
  let* ch := load_chain c in
  let '(o, e) := Entity_add k child (chain_entity ch) in
  store c (OChain (set_chain_entity ch e)) ;;;
  of_outcome o.

Definition Chain_detach_child (c : addr) (k : res_id) : ST heap unit :=
  let* ch := load_chain c in
  let '(o, e) := Entity_detach_child k (chain_entity ch) in
  store c (OChain (set_chain_entity ch e)) ;;;
  of_outcome o.

Definition Model_has_id (m : addr) (k : string) : ST heap bool :=
  let* x := load_model m in
  ret (Entity_has_id (model_entity x) k).

Definition Model_getitem (m : addr) (k : string) : ST heap addr :=
  let* x := load_model m in
  of_outcome (Entity_getitem (model_entity x) k).

Definition Model_add (m : addr) (child : addr) : ST heap unit :=
  let* ch := load_chain child in
  let* x := load_model m in
  let '(o, e) := Entity_add (chain_id ch) child (model_entity x) in
  store m (OModel (mkModel (model_id x) (serial_num x) e)) ;;;
  of_outcome o.

Definition Structure_add (s : addr) (child : addr) : ST heap unit :=
  let* x := load_model child in
  let* st := load_structure s in
  let '(o, e) := Entity_add (model_id x) child (structure_entity st) in
  store s (OStructure (mkStructure (structure_id st) e)) ;;;
  of_outcome o.

Definition new_Residue (id : res_id) (name segid : string) : ST heap addr :=
  alloc (OResidue (mkResidue id name segid false empty_entity)).

Definition new_DisorderedResidue (id : res_id) : ST heap addr :=
  alloc (ODisorderedResidue (mkWrapper id [] None)).

(** Modelled from the spec: the class PeptideChain is not under src/.  A new
    chain is a Chain Node with the given id and no residues (spec 2). *)
Definition new_PeptideChain (id : string) : ST heap addr :=
  alloc (OChain (mkChain id empty_entity)).

(** Modelled from the spec: PeptideChain.update is not under src/.  The
    finishing pass of spec 4.3 changes selections only, so [update] leaves
    the identifier and the residues of the chain as they are. *)
Definition PeptideChain_update (c : addr) : ST heap unit :=
  let* ch := load_chain c in
  ret tt.

(** ** The builder *)

(** The cursor [self.residue]: not yet assigned, None, or a reference. *)
Inductive cursor :=
| Unset
| IsNone
| Ref (a : addr).

(** The builder instance.  [StructureBuilder.__init__] sets only
    [line_counter]; every other attribute exists once it has been assigned
    ([None] below is "no such attribute").  [warnings] collects what
    [warnings.warn] was given, oldest first. *)
Record Builder := mkBuilder {
  mem : heap;
  line_counter : Z;
  structure : option addr;
  model : option addr;
  chain : option addr;
  segid : option string;
  residue : cursor;
  atom : option addr;
  warnings : list warning
}.

Definition new_Builder : Builder :=
  mkBuilder [] 0 None None None None Unset None [].

Definition set_mem (h : heap) (b : Builder) : Builder :=
  mkBuilder h (line_counter b) (structure b) (model b) (chain b) (segid b)
    (residue b) (atom b) (warnings b).
Definition set_structure (a : addr) (b : Builder) : Builder :=
  mkBuilder (mem b) (line_counter b) (Some a) (model b) (chain b) (segid b)
    (residue b) (atom b) (warnings b).
Definition set_model (a : addr) (b : Builder) : Builder :=
  mkBuilder (mem b) (line_counter b) (structure b) (Some a) (chain b) (segid b)
    (residue b) (atom b) (warnings b).
Definition set_chain (a : addr) (b : Builder) : Builder :=
  mkBuilder (mem b) (line_counter b) (structure b) (model b) (Some a) (segid b)
    (residue b) (atom b) (warnings b).
Definition set_segid (s : string) (b : Builder) : Builder :=
  mkBuilder (mem b) (line_counter b) (structure b) (model b) (chain b) (Some s)
    (residue b) (atom b) (warnings b).
Definition set_residue (r : cursor) (b : Builder) : Builder :=
  mkBuilder (mem b) (line_counter b) (structure b) (model b) (chain b) (segid b)
    r (atom b) (warnings b).
Definition set_atom (a : addr) (b : Builder) : Builder :=
  mkBuilder (mem b) (line_counter b) (structure b) (model b) (chain b) (segid b)
    (residue b) (Some a) (warnings b).
Definition set_line (n : Z) (b : Builder) : Builder :=
  mkBuilder (mem b) n (structure b) (model b) (chain b) (segid b)
    (residue b) (atom b) (warnings b).
Definition add_warning (w : warning) (b : Builder) : Builder :=
  mkBuilder (mem b) (line_counter b) (structure b) (model b) (chain b) (segid b)
    (residue b) (atom b) (warnings b ++ [w]).

(** A method of a hierarchy object called from the builder. *)
Definition on_heap {A} (m : ST heap A) : ST Builder A :=
  fun b => let '(o, h) := m (mem b) in (o, set_mem h b).

(** Reading an attribute of [self]. *)
Definition attr {A} (f : Builder -> option A) : ST Builder A :=
  fun b => match f b with
           | Some a => (Ret a, b)
           | None => (Raise AttributeError, b)
           end.

(** [warnings.warn(...)] with the current line number. *)
Definition warn (w : Z -> warning) : ST Builder unit :=
  fun b => (Ret tt, add_warning (w (line_counter b)) b).

Definition init_structure (structure_id : string) : ST Builder unit :=
  let* s := on_heap (alloc (OStructure (mkStructure structure_id empty_entity))) in
  modify (set_structure s).

(** Inherited from Bio.PDB's StructureBuilder. *)
Definition init_model (model_id : Z) (serial_num : option Z) : ST Builder unit :=
  let* m := on_heap (alloc (OModel (mkModel model_id serial_num empty_entity))) in
  modify (set_model m) ;;;
  let* s := attr structure in
  on_heap (Structure_add s m).

(** Inherited from Bio.PDB's StructureBuilder. *)
Definition set_line_counter (n : Z) : ST Builder unit := modify (set_line n).

Definition init_seg (segid : string) : ST Builder unit := modify (set_segid segid).

Definition init_chain (chain_id : string) : ST Builder unit :=
  let* m := attr model in
  let* present := on_heap (Model_has_id m chain_id) in
  if (present : bool) then
    let* c := on_heap (Model_getitem m chain_id) in
    modify (set_chain c) ;;;
    warn (ChainDiscontinuous chain_id)
  else
    let* c := on_heap (new_PeptideChain chain_id) in
    modify (set_chain c) ;;;
    on_heap (Model_add m c).

Section schain.
(** The class StandardChain is not under src/: its constructor, given the
    chain id and the fields of [chain_info], is a parameter. *)
Variable chain_info : Type.
Variable new_StandardChain : string -> chain_info -> ST heap addr.

Definition init_schain (chain_id : string) (info : chain_info) : ST Builder unit :=
  let* m := attr model in
  let* present := on_heap (Model_has_id m chain_id) in
  if (present : bool) then
    let* c := on_heap (Model_getitem m chain_id) in
    modify (set_chain c) ;;;
    warn (ChainDiscontinuous chain_id)
  else
    let* c := on_heap (new_StandardChain chain_id info) in
    modify (set_chain c) ;;;
    on_heap (Model_add m c).
End schain.

Definition reset_disordered_res (disordered_residue : addr) : ST heap unit :=
  let* d := load_disordered_residue disordered_residue in
  for_each (w_child_dict d) (fun item =>
    let* child_residue := load_residue (snd item) in
    if decide (residue_id child_residue = w_id d) then
      disordered_select disordered_residue (fst item)
    else ret tt).

Definition finish_chain_construction : ST Builder unit :=
  fun b =>
    match chain b with
    | None => (Ret tt, b)
    | Some c =>
        (on_heap
           (let* ch := load_chain c in
            for_each (child_list (chain_entity ch)) (fun res =>
              let* o := load res in
              match o with
              | ODisorderedResidue _ => reset_disordered_res res
              | _ => ret tt
              end) ;;;
            PeptideChain_update c)) b
    end.

(** [_is_completely_disordered], inherited from Bio.PDB's StructureBuilder:
    no atom of the residue, DisorderedAtoms opened up, has a blank altloc. *)
Fixpoint no_blank_altloc (atom_list : list addr) : ST heap bool :=
  match atom_list with
  | [] => ret true
  | x :: l' =>
      let* a := load_atom x in
      if decide (atom_altloc a = " ") then ret false else no_blank_altloc l'
  end.

Definition _is_completely_disordered (r : addr) : ST heap bool :=
  let* atom_list := get_unpacked_list r in
  no_blank_altloc atom_list.

Definition process_disordered_res (duplicate_residue : addr) (id : res_id)
    (name : string) : ST Builder unit :=
  let '(field, resseq, icode) := id in
  let* flag := on_heap (residue_is_disordered duplicate_residue) in
  if flag =? 2 then
    let* known := on_heap (disordered_has_id duplicate_residue name) in
    if (known : bool) then
      modify (set_residue (Ref duplicate_residue)) ;;;
      on_heap (disordered_select duplicate_residue name)
    else
      let* sg := attr segid in
      let* new_residue := on_heap (new_Residue id name sg) in
      on_heap (DisorderedResidue_disordered_add duplicate_residue new_residue) ;;;
      modify (set_residue (Ref duplicate_residue))
  else
    let* dup := on_heap (load_residue duplicate_residue) in
    if decide (name = resname dup) then
      warn (ResidueSameName field resseq icode name) ;;;
      modify (set_residue (Ref duplicate_residue))
    else
      let* complete := on_heap (_is_completely_disordered duplicate_residue) in
      if negb complete then
        modify (set_residue IsNone) ;;;
        raise (PDBConstructionException
                 (BlankAltlocsInDuplicate name field resseq icode))
      else
        let* c := attr chain in
        on_heap (Chain_detach_child c (residue_id dup)) ;;;
        let* sg := attr segid in
        let* new_residue := on_heap (new_Residue id name sg) in
        let* disordered_residue := on_heap (new_DisorderedResidue (residue_id dup)) in
        on_heap (Chain_add c disordered_residue) ;;;
        on_heap (DisorderedResidue_disordered_add disordered_residue duplicate_residue) ;;;
        on_heap (DisorderedResidue_disordered_add disordered_residue new_residue) ;;;
        modify (set_residue (Ref disordered_residue)).

Definition process_duplicate_res (id : res_id) (name : string) : ST Builder unit :=
  let '(field, resseq, icode) := id in
  warn (ResidueRedefined field resseq icode) ;;;
  let* c := attr chain in
  let* duplicate_residue := on_heap (Chain_getitem c id) in
  process_disordered_res duplicate_residue id name.

(** The hetero flag as it enters the residue identifier. *)
Definition hetero_field (field name : string) : string :=
  if decide (field ≠ " ") then
    if decide (field = "H") then String.append "H_" name else field
  else field.

Section builder.
(** [PeptideChain.find_het_by_seq] is not under src/: the identifiers of
    the chain's heteroatom residues with the given sequence number.  The
    builder is stated for any such lookup. *)
Variable find_het_by_seq : heap -> addr -> Z -> list res_id.

Definition process_duplicate_het (id : res_id) (name : string) : ST Builder unit :=
  let* c := attr chain in
  let* found := gets (fun b => find_het_by_seq (mem b) c (snd (fst id))) in
  match found with
  | [] => raise IndexError
  | het_res_id :: _ =>
      let* duplicate_residue := on_heap (Chain_getitem c het_res_id) in
      process_disordered_res duplicate_residue id name
  end.

Definition init_residue (name field : string) (resseq : Z) (icode : string)
  : ST Builder unit :=
  let id : res_id := (hetero_field field name, resseq, icode) in
  let* c := attr chain in
  let* present := on_heap (Chain_has_id c id) in
  if (present : bool) then process_duplicate_res id name
  else
    let* found := gets (fun b => find_het_by_seq (mem b) c resseq) in
    if (0 <? Z.of_nat (List.length found)) then process_duplicate_het id name
    else
      let* sg := attr segid in
      let* r := on_heap (new_Residue id name sg) in
      modify (set_residue (Ref r)) ;;;
      on_heap (Chain_add c r).
End builder.

(** [Atom(...)]: the identifier is the name, the disorder flag starts at 0. *)
Definition new_Atom (name : string) (coord : option (Q * Q * Q))
    (bfactor occupancy : option Q) (altloc fullname : string)
    (serial_number : option Z) (element : option string)
    (pqr_charge radius : option Q) : ST heap addr :=
  alloc (OAtom (mkAtom name coord bfactor occupancy altloc fullname serial_number
                  element pqr_charge radius name false)).

(** First block of [init_atom]: an atom whose name is taken by an atom of
    another full spelling goes by its own full spelling. *)
Definition disambiguate (residue : addr) (name fullname : string) : ST Builder string :=
  let* present := on_heap (Residue_has_id residue name) in
  if (present : bool) then
    let* duplicate_atom := on_heap (Residue_getitem residue name) in
    let* duplicate_fullname := on_heap (atom_get_fullname duplicate_atom) in
    if decide (duplicate_fullname ≠ fullname) then
      warn (AtomNamesDifferInSpaces duplicate_fullname fullname) ;;;
      ret fullname
    else ret name
  else ret name.

(** Last block of [init_atom]: the new atom [a] goes into the residue, by
    way of a DisorderedAtom when its altloc is not blank. *)
Definition place_atom (residue : addr) (name altloc : string) (a : addr)
  : ST Builder unit :=
  if decide (altloc ≠ " ") then
    let* present := on_heap (Residue_has_id residue name) in
    if (present : bool) then
      let* duplicate_atom := on_heap (Residue_getitem residue name) in
      let* flag := on_heap (atom_is_disordered duplicate_atom) in
      if flag =? 2 then
        on_heap (DisorderedAtom_disordered_add duplicate_atom a)
      else
        on_heap (Residue_detach_child residue name) ;;;
        let* disordered_atom := on_heap (new_DisorderedAtom name) in
        on_heap (Residue_add residue disordered_atom) ;;;
        on_heap (DisorderedAtom_disordered_add disordered_atom a) ;;;
        on_heap (DisorderedAtom_disordered_add disordered_atom duplicate_atom) ;;;
        on_heap (Residue_flag_disordered residue) ;;;
        warn DisorderedAtomBlankAltloc
    else
      let* disordered_atom := on_heap (new_DisorderedAtom name) in
      on_heap (Residue_add residue disordered_atom) ;;;
      on_heap (DisorderedAtom_disordered_add disordered_atom a) ;;;
      on_heap (Residue_flag_disordered residue)
  else
    on_heap (Residue_add residue a).

Definition init_atom (name : string) (coord : option (Q * Q * Q))
    (b_factor occupancy : Q) (altloc fullname : string)
    (serial_number : option Z) (element : option string)
    (pqr_charge radius : option Q) (is_pqr : bool) : ST Builder unit :=
  fun b =>
    match residue b with
    | Unset => (Raise AttributeError, b)
    | IsNone => (Ret tt, b)
    | Ref residue =>
        (let* name := disambiguate residue name fullname in
         let* a :=
           on_heap
             (if negb is_pqr then
                new_Atom name coord (Some b_factor) (Some occupancy) altloc
                  fullname serial_number element None None
              else
                new_Atom name coord None None altloc fullname serial_number
                  element pqr_charge radius) in
         modify (set_atom a) ;;;
         place_atom residue name altloc a) b
    end.

(** ** The event stream *)

(** One atom record, the arguments of [init_atom]. *)
Record atom_record := mkAtomRecord {
  rec_name : string;
  rec_coord : option (Q * Q * Q);
  rec_b_factor : Q;
  rec_occupancy : Q;
  rec_altloc : string;
  rec_fullname : string;
  rec_serial_number : option Z;
  rec_element : option string;
  rec_pqr_charge : option Q;
  rec_radius : option Q;
  rec_is_pqr : bool
}.

Definition add_atom (r : atom_record) : ST Builder unit :=
  init_atom (rec_name r) (rec_coord r) (rec_b_factor r) (rec_occupancy r)
    (rec_altloc r) (rec_fullname r) (rec_serial_number r) (rec_element r)
    (rec_pqr_charge r) (rec_radius r) (rec_is_pqr r).

Inductive event :=
| begin_structure (id : string)
| begin_model (id : Z) (serial : option Z)
| line (n : Z)
| begin_segment (segid : string)
| begin_chain (chain_id : string)
| begin_residue (name field : string) (resseq : Z) (icode : string)
| atom_event (r : atom_record)
| end_chain.

Section stream.
Variable find_het_by_seq : heap -> addr -> Z -> list res_id.

Definition handle (e : event) : ST Builder unit :=
  match e with
  | begin_structure id => init_structure id
  | begin_model id serial => init_model id serial
  | line n => set_line_counter n
  | begin_segment s => init_seg s
  | begin_chain id => init_chain id
  | begin_residue name field resseq icode =>
      init_residue find_het_by_seq name field resseq icode
  | atom_event r => add_atom r
  | end_chain => finish_chain_construction
  end.

(** The builder after a stream of events.  An event that raises leaves the
    state it reached; the stream goes on, as under a permissive parser. *)
Definition run (b : Builder) (evs : list event) : Builder :=
  foldl (fun b e => snd (handle e b)) b evs.
End stream.

(** Modelled from the spec: PeptideChain.find_het_by_seq is not under src/.
    Spec 2 gives the chain a lookup of heteroatom residues by bare sequence
    number, ignoring hetero flag and insertion code: the identifiers, in
    chain order, of the nodes whose flag starts with H_ and whose sequence
    number is the one asked for. *)
Definition find_het_by_seq_model (h : heap) (c : addr) (resseq : Z) : list res_id :=
  match h !! c with
  | Some (OChain ch) =>
      omap (fun a =>
              match fst (residue_get_id a h) with
              | Ret (field, n, icode) =>
                  if String.prefix "H_" field && (n =? resseq)
                  then Some (field, n, icode) else None
              | Raise _ => None
              end) (child_list (chain_entity ch))
  | _ => []
  end.

(** ** Topology bonds (src/crimm/StructEntities/TopoElements.py) *)

Module TopoElements.

(** What [dict.get] may be asked for here: a string, or the builtin
    [type], which is what the name [type] denotes inside [Bond.__new__]. *)
Inductive key :=
| Str (s : string)
| builtin_type.

Global Instance key_eq_dec : EqDecision key.
Proof. solve_decision. Defined.

Definition bond_order_dict : list (key * Z) :=
  [(Str "single", 1); (Str "double", 2); (Str "triple", 3); (Str "aromatic", 2)].

Section bond.
(** Topology atoms, their [full_id] and the order [>] on full ids. *)
Variables (atom_t id_t param_t : Type).
Variable full_id : atom_t -> id_t.
Variable id_gt : id_t -> id_t -> bool.

Record Bond := mkBond {
  atom1 : atom_t;
  atom2 : atom_t;
  bond_type : option string;
  order : option Z;
  param : option param_t;
  bond_full_id : list id_t
}.

Definition _create_full_id (atoms : list atom_t) : list id_t :=
  let atom_ids := full_id <$> atoms in
  match atom_ids, last atom_ids with
  | first :: _, Some final => if id_gt first final then rev atom_ids else atom_ids
  | _, _ => atom_ids
  end.

Definition Bond_new (a1 a2 : atom_t) (type_arg : option string)
    (p : option param_t) : Bond :=
  mkBond a1 a2 type_arg (dict_get bond_order_dict builtin_type) p
    (_create_full_id [a1; a2]).
End bond.

(** ** The other topology entities and the methods of [TopoEntity] *)

Section entities.
(** Topology atoms, their [full_id], the parameter objects, the order [>] on
    full ids, and the builtin [hash] on tuples of full ids. *)
Variables (atom_t id_t param_t : Type).
Context `{EqDecision id_t}.
Variable full_id : atom_t -> id_t.
Variable id_gt : id_t -> id_t -> bool.
Variable hash : list id_t -> Z.

Record Angle := mkAngle {
  angle_atom1 : atom_t;
  angle_atom2 : atom_t;
  angle_atom3 : atom_t;
  angle_param : option param_t;
  angle_full_id : list id_t
}.

Definition Angle_new (a1 a2 a3 : atom_t) (p : option param_t) : Angle :=
  mkAngle a1 a2 a3 p (_create_full_id atom_t id_t full_id id_gt [a1; a2; a3]).

Record Dihedral := mkDihedral {
  dihedral_i : atom_t;
  dihedral_j : atom_t;
  dihedral_k : atom_t;
  dihedral_l : atom_t;
  dihedral_param : option param_t;
  dihedral_full_id : list id_t
}.

Definition Dihedral_new (atom_i atom_j atom_k atom_l : atom_t) (p : option param_t)
  : Dihedral :=
  mkDihedral atom_i atom_j atom_k atom_l p
    (_create_full_id atom_t id_t full_id id_gt [atom_i; atom_j; atom_k; atom_l]).

Record Improper := mkImproper {
  improper_i : atom_t;
  improper_j : atom_t;
  improper_k : atom_t;
  improper_l : atom_t;
  improper_param : option param_t;
  improper_full_id : list id_t
}.

Definition Improper_new (atom_i atom_j atom_k atom_l : atom_t) (p : option param_t)
  : Improper :=
  mkImproper atom_i atom_j atom_k atom_l p
    (_create_full_id atom_t id_t full_id id_gt [atom_i; atom_j; atom_k; atom_l]).

(** An instance of one of the four subclasses of [TopoEntity]. *)
Inductive entity :=
| EBond (b : Bond atom_t id_t param_t)
| EAngle (a : Angle)
| EDihedral (d : Dihedral)
| EImproper (i : Improper).

Inductive class :=
| ClsBond
| ClsAngle
| ClsDihedral
| ClsImproper.

Global Instance class_eq_dec : EqDecision class.
Proof. solve_decision. Defined.

(** [type(self)] *)
Definition type_of (e : entity) : class :=
  match e with
  | EBond _ => ClsBond
  | EAngle _ => ClsAngle
  | EDihedral _ => ClsDihedral
  | EImproper _ => ClsImproper
  end.

(** The entity as the tuple it extends: what unpacking [self] yields. *)
Definition atoms_of (e : entity) : list atom_t :=
  match e with
  | EBond b => [atom1 _ _ _ b; atom2 _ _ _ b]
  | EAngle a => [angle_atom1 a; angle_atom2 a; angle_atom3 a]
  | EDihedral d => [dihedral_i d; dihedral_j d; dihedral_k d; dihedral_l d]
  | EImproper i => [improper_i i; improper_j i; improper_k i; improper_l i]
  end.

(** [self.full_id] *)
Definition entity_full_id (e : entity) : list id_t :=
  match e with
  | EBond b => bond_full_id _ _ _ b
  | EAngle a => angle_full_id a
  | EDihedral d => dihedral_full_id d
  | EImproper i => improper_full_id i
  end.

Definition __hash__ (self : entity) : Z := hash (entity_full_id self).

(** [isinstance(other, type(self))] among four classes none of which
    derives from another is equality of the classes. *)
Definition __eq__ (self other : entity) : bool :=
  if negb (bool_decide (type_of other = type_of self)) then false
  else bool_decide (entity_full_id self = entity_full_id other).

(** The values that are passed to [__new__] here. *)
Inductive value :=
| VNone
| VAtom (a : atom_t)
| VStr (s : string)
| VInt (z : Z)
| VParam (p : param_t)
| VTuple (l : list id_t).

Definition of_option {A} (f : A -> value) (o : option A) : value :=
  match o with
  | Some a => f a
  | None => VNone
  end.

(** [self.__dict__]: the instance attributes, in the order in which
    [__new__] assigns them. *)
Definition __dict__ (self : entity) : list (string * value) :=
  match self with
  | EBond b =>
      [("type", of_option VStr (bond_type _ _ _ b));
       ("order", of_option VInt (order _ _ _ b));
       ("param", of_option VParam (param _ _ _ b));
       ("full_id", VTuple (bond_full_id _ _ _ b))]
  | EAngle a =>
      [("param", of_option VParam (angle_param a));
       ("full_id", VTuple (angle_full_id a))]
  | EDihedral d =>
      [("param", of_option VParam (dihedral_param d));
       ("full_id", VTuple (dihedral_full_id d))]
  | EImproper i =>
      [("param", of_option VParam (improper_param i));
       ("full_id", VTuple (improper_full_id i))]
  end.

Definition __getnewargs__ (self : entity) : list value :=
  (VAtom <$> atoms_of self) ++ (snd <$> __dict__ self).

Definition __getstate__ (self : entity) : list (string * value) := __dict__ self.

(** The parameters of [__new__] after [cls], and the defaults of the
    trailing ones. *)
Definition new_params (c : class) : list string :=
  match c with
  | ClsBond => ["atom1"; "atom2"; "bond_type"; "param"]
  | ClsAngle => ["atom1"; "atom2"; "atom3"; "param"]
  | ClsDihedral => ["atom_i"; "atom_j"; "atom_k"; "atom_l"; "param"]
  | ClsImproper => ["atom_i"; "atom_j"; "atom_k"; "atom_l"; "param"]
  end.

Definition new_defaults (c : class) : list (string * value) :=
  match c with
  | ClsBond => [("bond_type", VNone); ("param", VNone)]
  | _ => [("param", VNone)]
  end.

(** Python's binding of the arguments of a call to the parameters of the
    function: positional arguments fill the parameters from the left, the
    others take their keyword argument or else their default.  A positional
    argument too many, a parameter given both ways, a parameter left without
    value and a keyword that names no parameter are each a TypeError. *)
Fixpoint bind_args (params : list string) (defaults : list (string * value))
    (args : list value) (kwargs : list (string * value))
  : outcome (list (string * value)) :=
  match params with
  | [] =>
      match args, kwargs with
      | [], [] => Ret []
      | _, _ => Raise TypeError
      end
  | p :: params' =>
      match args with
      | a :: args' =>
          if dict_has kwargs p then Raise TypeError
          else
            match bind_args params' defaults args' kwargs with
            | Ret bound => Ret ((p, a) :: bound)
            | Raise e => Raise e
            end
      | [] =>
          let rest := filter (fun item => fst item ≠ p) kwargs in
          match dict_get kwargs p, dict_get defaults p with
          | Some v, _ | None, Some v =>
              match bind_args params' defaults [] rest with
              | Ret bound => Ret ((p, v) :: bound)
              | Raise e => Raise e
              end
          | None, None => Raise TypeError
          end
      end
  end.

(** A call of one of the classes with positional arguments [args] and
    keyword arguments [kwargs], up to the point where the body of [__new__]
    starts: the parameters as they are bound. *)
Definition call (c : class) (args : list value) (kwargs : list (string * value))
  : outcome (list (string * value)) :=
  bind_args (new_params c) (new_defaults c) args kwargs.

(** [TopoEntity.__deepcopy__]: a call of [type(self)] with the atoms of the
    tuple as positional arguments and [self.__dict__] as keyword arguments. *)
Definition TopoEntity__deepcopy__ (self : entity) : outcome (list (string * value)) :=
  call (type_of self) (VAtom <$> atoms_of self) (__dict__ self).

(** [Bond.__deepcopy__]: a call of [Bond] with the two atoms, [self.type]
    and [self.param], all positional. *)
Definition Bond__deepcopy__ (self : Bond atom_t id_t param_t)
  : outcome (list (string * value)) :=
  call ClsBond
    ((VAtom <$> atoms_of (EBond self))
       ++ [of_option VStr (bond_type _ _ _ self); of_option VParam (param _ _ _ self)])
    [].

(** [copy.deepcopy(self)]: Bond overrides the method of TopoEntity. *)
Definition deepcopy (self : entity) : outcome (list (string * value)) :=
  match self with
  | EBond b => Bond__deepcopy__ b
  | _ => TopoEntity__deepcopy__ self
  end.
End entities.

Arguments Angle_new {atom_t id_t param_t} full_id id_gt a1 a2 a3 p.
Arguments Dihedral_new {atom_t id_t param_t} full_id id_gt atom_i atom_j atom_k atom_l p.
Arguments Improper_new {atom_t id_t param_t} full_id id_gt atom_i atom_j atom_k atom_l p.
Arguments EBond {atom_t id_t param_t} b.
Arguments EAngle {atom_t id_t param_t} a.
Arguments EDihedral {atom_t id_t param_t} d.
Arguments EImproper {atom_t id_t param_t} i.
Arguments VNone {atom_t id_t param_t}.
Arguments VAtom {atom_t id_t param_t} a.
Arguments VStr {atom_t id_t param_t} s.
Arguments VInt {atom_t id_t param_t} z.
Arguments VParam {atom_t id_t param_t} p.
Arguments VTuple {atom_t id_t param_t} l.
Arguments type_of {atom_t id_t param_t} e.
Arguments atoms_of {atom_t id_t param_t} e.
Arguments entity_full_id {atom_t id_t param_t} e.
Arguments __hash__ {atom_t id_t param_t} hash self.
Arguments __eq__ {atom_t id_t param_t _} self other.
Arguments __dict__ {atom_t id_t param_t} self.
Arguments __getnewargs__ {atom_t id_t param_t} self.
Arguments __getstate__ {atom_t id_t param_t} self.
Arguments bind_args {atom_t id_t param_t} params defaults args kwargs.
Arguments call {atom_t id_t param_t} c args kwargs.
Arguments TopoEntity__deepcopy__ {atom_t id_t param_t} self.
Arguments Bond__deepcopy__ {atom_t id_t param_t} self.
Arguments deepcopy {atom_t id_t param_t} self.
End TopoElements.

(** ** Vocabulary of the statements *)

(** The alternate-location tags of a residue's atoms, DisorderedAtoms opened
    up, in the order of [get_unpacked_list]. *)
Definition altlocs_of (h : heap) (r : addr) (l : list string) : Prop :=
  ∃ xs, get_unpacked_list r h = (Ret xs, h) ∧
        Forall2 (λ x s, ∃ a, h !! x = Some (OAtom a) ∧ atom_altloc a = s) xs l.

(** The residue-level node at an address, by its own identifier: the [id] of
    a Residue, the stored [id] of a DisorderedResidue. *)
Definition node_id (h : heap) (a : addr) : option res_id :=
  match h !! a with
  | Some (OResidue r) => Some (residue_id r)
  | Some (ODisorderedResidue d) => Some (w_id d)
  | _ => None
  end.

(** A chain whose list and dictionary name the same children: every child
    once in the list, filed in the dictionary under its own identifier. *)
Definition chain_ok (h : heap) (ch : Chain) : Prop :=
  NoDup (child_list (chain_entity ch)) ∧
  (∀ a, a ∈ child_list (chain_entity ch) →
        ∃ k, node_id h a = Some k ∧ child_dict (chain_entity ch) !! k = Some a) ∧
  (∀ k a, child_dict (chain_entity ch) !! k = Some a →
          a ∈ child_list (chain_entity ch) ∧ node_id h a = Some k).

(** ** Sample streams *)

Definition CA (altloc : string) : atom_record :=
  mkAtomRecord "CA" None (0#1) (1#1) altloc " CA " None None None None false.

Definition opening : list event :=
  [begin_structure "1abc"; begin_model 0 None; begin_segment "    ";
   begin_chain "A"].

(** Residue ALA at (blank, 1, blank) with one atom at a blank altloc. *)
Definition ala_blank : Builder :=
  run find_het_by_seq_model new_Builder
    (opening ++ [begin_residue "ALA" " " 1 " "; atom_event (CA " ")]).

(** Residue ALA at (blank, 1, blank) with one atom at altloc A. *)
Definition ala_A : Builder :=
  run find_het_by_seq_model new_Builder
    (opening ++ [begin_residue "ALA" " " 1 " "; atom_event (CA "A")]).

(** The Residue object that answers for a residue reference: the object
    itself, or the selected child of a DisorderedResidue. *)
Inductive serves (h : heap) : addr → addr → Prop :=
| serves_plain a r :
    h !! a = Some (OResidue r) → serves h a a
| serves_group a d t :
    h !! a = Some (ODisorderedResidue d) → selected_child d = Some t → serves h a t.

(** The group a DisorderedAtom is left as by [disordered_add] of an atom
    with a numeric occupancy. *)
Definition with_child (d : DisorderedAtom) (altloc : string) (a : addr)
    (occupancy : Q) : DisorderedAtom :=
  let w := da_wrapper d in
  let dict := dict_set (w_child_dict w) altloc a in
  if negb (Qle_bool occupancy (last_occupancy d))
  then mkDisorderedAtom (mkWrapper (w_id w) dict (Some a)) occupancy
  else mkDisorderedAtom (mkWrapper (w_id w) dict (selected_child w)) (last_occupancy d).

(** A run of atom events; it stops at the first one that raises. *)
Definition add_atoms (recs : list atom_record) : ST Builder unit :=
  for_each recs add_atom.

(** The Atom a record leaves in a DisorderedAtom outside PQR mode. *)
Definition disordered_atom_of (rec : atom_record) : Atom :=
  mkAtom (rec_name rec) (rec_coord rec) (Some (rec_b_factor rec))
    (Some (rec_occupancy rec)) (rec_altloc rec) (rec_fullname rec)
    (rec_serial_number rec) (rec_element rec) None None (rec_name rec) true.

(** Records of one disordered atom: one name, one full spelling, non-blank
    altlocs, and (outside PQR mode) occupancies above [-sys.maxsize], as any
    occupancy of a structure file is. *)
Definition alternates (name fullname : string) (rec : atom_record) : Prop :=
  rec_name rec = name ∧ rec_fullname rec = fullname ∧ rec_altloc rec ≠ " "
  ∧ rec_is_pqr rec = false ∧ (minus_maxsize < rec_occupancy rec)%Q.

(** The residue served through [ra] holds, under [name], one DisorderedAtom
    whose children are exactly the atoms of the records [recs], in order,
    each under its altloc; the selected child has the full spelling
    [fullname]. *)
Definition holds_alternates (b : Builder) (ra t : addr) (name fullname : string)
    (recs : list atom_record) : Prop :=
  residue b = Ref ra ∧ serves (mem b) ra t ∧
  ∃ r g d,
    mem b !! t = Some (OResidue r)
    ∧ child_dict (residue_entity r) !! name = Some g
    ∧ mem b !! g = Some (ODisorderedAtom d)
    ∧ (∃ s xs, selected_child (da_wrapper d) = Some s
               ∧ mem b !! s = Some (OAtom xs) ∧ atom_fullname xs = fullname)
    ∧ Forall2 (λ rec item,
                 fst item = rec_altloc rec
                 ∧ mem b !! snd item = Some (OAtom (disordered_atom_of rec)))
        recs (w_child_dict (da_wrapper d)).

(** Residue ALA at (blank, 1, blank), no atom yet. *)
Definition ala_empty : Builder :=
  run find_het_by_seq_model new_Builder (opening ++ [begin_residue "ALA" " " 1 " "]).

(** The children of a DisorderedResidue that carry the group's own
    identifier, in insertion order. *)
Definition own_id_children (h : heap) (d : DisorderedResidue) : list (string * addr) :=
  filter (λ item, node_id h (snd item) = Some (w_id d)) (w_child_dict d).

(** The child the finishing pass leaves selected: the last child with the
    group's identifier; the selection at hand when no child has it. *)
Definition default_child (h : heap) (d : DisorderedResidue) : option addr :=
  match last (own_id_children h d) with
  | Some item => Some (snd item)
  | None => selected_child d
  end.

(** A DisorderedResidue whose children are Residues under distinct names. *)
Definition group_ok (h : heap) (d : DisorderedResidue) : Prop :=
  NoDup (w_child_dict d).*1 ∧
  Forall (λ item, ∃ r, h !! snd item = Some (OResidue r)) (w_child_dict d).

(** ALA and SER at one key, each fully disordered, then ALA declared again:
    the third [begin_residue] selects ALA in the group. *)
Definition ala_ser_ala_stream : list event :=
  opening ++ [begin_residue "ALA" " " 1 " "; atom_event (CA "A");
              begin_residue "SER" " " 1 " "; atom_event (CA "A");
              begin_residue "ALA" " " 1 " "].

Definition ala_ser_ala : Builder :=
  run find_het_by_seq_model new_Builder ala_ser_ala_stream.

(** A DisorderedResidue after the finishing pass. *)
Definition finished (h : heap) (d : DisorderedResidue) : DisorderedResidue :=
  mkWrapper (w_id d) (w_child_dict d) (default_child h d).

(** The residue-level nodes a chain lists exist, and its groups are sound. *)
Definition children_ok (h : heap) (ch : Chain) : Prop :=
  Forall (λ a, is_Some (h !! a)
               ∧ ∀ d, h !! a = Some (ODisorderedResidue d) → group_ok h d)
    (child_list (chain_entity ch)).

(** The store in the middle of the pass: every object is as at the start,
    or is a group whose selection the pass has already reset. *)
Definition midway (h0 h : heap) : Prop :=
  ∀ a, h !! a = h0 !! a
       ∨ ∃ d, h0 !! a = Some (ODisorderedResidue d)
              ∧ h !! a = Some (ODisorderedResidue (finished h0 d)).

(** Every chain in the store is well formed. *)
Definition heap_ok (h : heap) : Prop :=
  ∀ c ch, h !! c = Some (OChain ch) → chain_ok h ch.

(** What the chains rely on in an object: the identifier of a residue-level
    node, the whole of a chain. *)
Definition footprint (o : obj) : option res_id * option Chain :=
  match o with
  | OResidue r => (Some (residue_id r), None)
  | ODisorderedResidue d => (Some (w_id d), None)
  | OChain c => (None, Some c)
  | _ => (None, None)
  end.

(** A later store in which the chains and the identifiers of the nodes are
    those of the earlier one; what is new in it is no chain. *)
Definition same_nodes (h h' : heap) : Prop :=
  (∀ a o, h !! a = Some o → ∃ o', h' !! a = Some o' ∧ footprint o' = footprint o) ∧
  (∀ a o', h' !! a = Some o' → h !! a = None → snd (footprint o') = None).

(** A method that leaves chains and node identifiers alone. *)
Definition quiet {A} (m : ST heap A) : Prop := ∀ h, same_nodes h (snd (m h)).

(** A method after which every chain is still well formed. *)
Definition keeps_chains {A} (m : ST heap A) : Prop :=
  ∀ h, heap_ok h → heap_ok (snd (m h)).

(** A state transformer that maintains a property of the state, whether it
    returns or raises. *)
Definition preserves {S A} (P : S → Prop) (m : ST S A) : Prop :=
  ∀ s, P s → P (snd (m s)).

(** The builder's invariant: every chain of its store is well formed. *)
Definition chains_ok (b : Builder) : Prop := heap_ok (mem b).

(** The builder has no [chain] attribute. *)
Definition no_chain (b : Builder) : Prop := chain b = None.

(** No event of the stream opens a chain. *)
Definition opens_no_chain (evs : list event) : Prop :=
  Forall (λ e, ∀ id, e ≠ begin_chain id) evs.

(** The full spelling an atom-level node answers [get_fullname] with: its
    own, or that of the selected alternate of a DisorderedAtom. *)
Inductive spelling (h : heap) : addr → string → Prop :=
| spelling_plain a x :
    h !! a = Some (OAtom x) → spelling h a (atom_fullname x)
| spelling_group g d s x :
    h !! g = Some (ODisorderedAtom d) → selected_child (da_wrapper d) = Some s →
    h !! s = Some (OAtom x) → spelling h g (atom_fullname x).

(** ALA and SER at one key, each fully disordered: a DisorderedResidue with
    SER selected. *)
Definition ala_ser : Builder :=
  run find_het_by_seq_model new_Builder
    (opening ++ [begin_residue "ALA" " " 1 " "; atom_event (CA "A");
                 begin_residue "SER" " " 1 " "; atom_event (CA "A")]).

(** Hetero residue FUC at (H_FUC, 5, blank) with one atom at altloc A. *)
Definition fuc_A : Builder :=
  run find_het_by_seq_model new_Builder
    (opening ++ [begin_residue "FUC" "H" 5 " "; atom_event (CA "A")]).

(** The Atom that [init_atom] constructs for a record under the name [name]:
    outside PQR mode without charge and radius, in PQR mode without B factor
    and occupancy. *)
Definition atom_of (name : string) (rec : atom_record) : Atom :=
  if negb (rec_is_pqr rec) then
    mkAtom name (rec_coord rec) (Some (rec_b_factor rec)) (Some (rec_occupancy rec))
      (rec_altloc rec) (rec_fullname rec) (rec_serial_number rec) (rec_element rec)
      None None name false
  else
    mkAtom name (rec_coord rec) None None (rec_altloc rec) (rec_fullname rec)
      (rec_serial_number rec) (rec_element rec) (rec_pqr_charge rec) (rec_radius rec)
      name false.

(** What the groups and the models rely on in an object: its class, the
    children of a DisorderedResidue, the chains of a Model. *)
Inductive shape :=
| SAtom
| SDisorderedAtom
| SResidue
| SDisorderedResidue (children : list (string * addr))
| SChain
| SModel (chains : gmap string addr)
| SStructure.

Definition shape_of (o : obj) : shape :=
  match o with
  | OAtom _ => SAtom
  | ODisorderedAtom _ => SDisorderedAtom
  | OResidue _ => SResidue
  | ODisorderedResidue d => SDisorderedResidue (w_child_dict d)
  | OChain _ => SChain
  | OModel m => SModel (child_dict (model_entity m))
  | OStructure _ => SStructure
  end.

(** A DisorderedResidue or a Model without children; any other object. *)
Definition bare (o : obj) : Prop :=
  match o with
  | ODisorderedResidue d => w_child_dict d = []
  | OModel m => child_dict (model_entity m) = ∅
  | _ => True
  end.

(** A later store in which every object has kept its shape; what is new in
    it is bare. *)
Definition same_shape (h h' : heap) : Prop :=
  (∀ a o, h !! a = Some o → ∃ o', h' !! a = Some o' ∧ shape_of o' = shape_of o) ∧
  (∀ a o', h' !! a = Some o' → h !! a = None → bare o').

(** A method that leaves every shape alone. *)
Definition still {A} (m : ST heap A) : Prop := ∀ h, same_shape h (snd (m h)).

(** The two objects are of one class. *)
Definition same_class (o o' : obj) : Prop :=
  match o, o' with
  | OAtom _, OAtom _ | ODisorderedAtom _, ODisorderedAtom _ | OResidue _, OResidue _
  | ODisorderedResidue _, ODisorderedResidue _ | OChain _, OChain _
  | OModel _, OModel _ | OStructure _, OStructure _ => True
  | _, _ => False
  end.

(** A later store in which every object is still of its class. *)
Definition same_classes (h h' : heap) : Prop :=
  ∀ a o, h !! a = Some o → ∃ o', h' !! a = Some o' ∧ same_class o o'.

(** Every DisorderedResidue of the store is sound. *)
Definition groups_ok (h : heap) : Prop :=
  ∀ g d, h !! g = Some (ODisorderedResidue d) → group_ok h d.

(** Every child of every Model of the store is a Chain. *)
Definition models_ok (h : heap) : Prop :=
  ∀ m x k c, h !! m = Some (OModel x) → child_dict (model_entity x) !! k = Some c →
             ∃ ch, h !! c = Some (OChain ch).

Definition tidy (h : heap) : Prop := groups_ok h ∧ models_ok h.

(** A method that keeps every object in its class and a tidy store tidy. *)
Definition orderly {A} (m : ST heap A) : Prop :=
  ∀ h, same_classes h (snd (m h)) ∧ (tidy h → tidy (snd (m h))).

(** The builder's store is tidy and [self.chain], once assigned, is a Chain. *)
Definition settled (b : Builder) : Prop :=
  tidy (mem b) ∧ ∀ c, chain b = Some c → ∃ ch, mem b !! c = Some (OChain ch).

(** ** Lines of a residue topology file (src/crimm/IO/RTFParser.py)

    A [str] is embedded as a [string] whose characters are the code points
    below 256; tuples and lists of fields are lists. *)

Module RTFParser.
Import (notations) Stdlib.Strings.Ascii.

(** [c.isspace()] on the code points below 256: TAB to CR, FS to US, the
    space, NEL and the no-break space. *)
Definition isspace (c : Ascii.ascii) : bool :=
  let n := Ascii.N_of_ascii c in
  ((9 <=? n) && (n <=? 13) || (28 <=? n) && (n <=? 32) || (n =? 133) || (n =? 160))%N.

(** [s.split()]: the maximal runs of characters that are not whitespace.
    [word] is the run at hand. *)
Fixpoint split_from (word : string) (s : string) : list string :=
  match s with
  | EmptyString => if decide (word = "") then [] else [word]
  | String c s' =>
      if isspace c then
        (if decide (word = "") then [] else [word]) ++ split_from "" s'
      else split_from (word +:+ String c "") s'
  end.

Definition split (s : string) : list string := split_from "" s.

Fixpoint lstrip (s : string) : string :=
  match s with
  | EmptyString => ""
  | String c s' => if isspace c then lstrip s' else s
  end.

Definition rstrip (s : string) : string := String.rev (lstrip (String.rev s)).

(** [s.strip()] *)
Definition strip (s : string) : string := rstrip (lstrip s).

(** [s.startswith(p)] *)
Definition startswith (s p : string) : bool := String.prefix p s.

(** [s.find(c)] for a single character: the first index, or -1. *)
Fixpoint find_from (i : Z) (s : string) (c : Ascii.ascii) : Z :=
  match s with
  | EmptyString => -1
  | String a s' => if Ascii.eqb a c then i else find_from (i + 1) s' c
  end.

Definition find (s : string) (c : Ascii.ascii) : Z := find_from 0 s c.

(** [s.split(c, maxsplit=1)] for a single character. *)
Fixpoint split_once (s : string) (c : Ascii.ascii) : list string :=
  match s with
  | EmptyString => [""]
  | String a s' =>
      if Ascii.eqb a c then [""; s']
      else
        match split_once s' c with
        | x :: rest => String a x :: rest
        | [] => []
        end
  end.

(** [l[::2]]: the elements at the even indices. *)
Fixpoint every_other {A} (l : list A) : list A :=
  match l with
  | x :: _ :: l' => x :: every_other l'
  | _ => l
  end.

(** [l.index(x)]: the first index of [x]; ValueError when there is none. *)
Definition index (l : list string) (x : string) : outcome nat :=
  match list_find (λ y, y = x) l with
  | Some (i, _) => Ret i
  | None => Raise ValueError
  end.

(** [l[i]] for an index that is not negative. *)
Definition getitem (l : list string) (i : nat) : outcome string :=
  match l !! i with
  | Some x => Ret x
  | None => Raise IndexError
  end.

Definition skip_line (x : string) : bool :=
  startswith x "!" || startswith x "*" || bool_decide (strip x = "").

Definition comment_parser (line : string) : outcome (string * option string) :=
  if find line "!"%char =? -1 then Ret (line, None)
  else
    match take 2 (split_once line "!"%char) with
    | [before; desc] => Ret (before, Some (strip desc))
    | _ => Raise ValueError
    end.

(** [comment_parser(line)[0]] *)
Definition fields_of (line : string) : outcome string :=
  match comment_parser line with
  | Ret (field_str, _) => Ret field_str
  | Raise e => Raise e
  end.

Definition mass_parser (line : string) : outcome (string * string * option string) :=
  match comment_parser line with
  | Raise e => Raise e
  | Ret (field_str, desc) =>
      match split field_str with
      | [key; _; atom_type; mass] => Ret (atom_type, mass, desc)
      | _ => Raise ValueError
      end
  end.

Definition decl_parser (line : string) : outcome string :=
  match fields_of line with
  | Raise e => Raise e
  | Ret field_str =>
      match last (split field_str) with
      | Some atom => Ret atom
      | None => Raise IndexError
      end
  end.

Definition defa_parser (line : string) : outcome (string * string) :=
  match fields_of line with
  | Raise e => Raise e
  | Ret field_str =>
      let fields := split field_str in
      match index fields "FIRS" with
      | Raise e => Raise e
      | Ret first_i =>
          match index fields "LAST" with
          | Raise e => Raise e
          | Ret last_i =>
              match getitem fields (first_i + 1) with
              | Raise e => Raise e
              | Ret first_patch =>
                  match getitem fields (last_i + 1) with
                  | Raise e => Raise e
                  | Ret last_patch => Ret (first_patch, last_patch)
                  end
              end
          end
      end
  end.

Definition auto_parser (line : string) : outcome (list string) :=
  match fields_of line with
  | Raise e => Raise e
  | Ret field_str => Ret (drop 1 (split field_str))
  end.

Definition resi_parser (line : string) : outcome (string * string * option string) :=
  match comment_parser line with
  | Raise e => Raise e
  | Ret (field_str, desc) =>
      match split field_str with
      | [key; res_name; total_charge] => Ret (res_name, total_charge, desc)
      | _ => Raise ValueError
      end
  end.

Definition atom_parser (line : string) : outcome (string * string * string) :=
  match fields_of line with
  | Raise e => Raise e
  | Ret field_str =>
      match split field_str with
      | [key; atom_name; atom_type; charge] => Ret (atom_name, atom_type, charge)
      | _ => Raise ValueError
      end
  end.

Definition pairwise_parser (line : string) : outcome (list (string * string)) :=
  match fields_of line with
  | Raise e => Raise e
  | Ret field_str =>
      let fields := drop 1 (split field_str) in
      if (Z.of_nat (length fields) mod 2 =? 1) then Raise ValueError
      else Ret (zip (every_other fields) (every_other (drop 1 fields)))
  end.

Definition quad_parser (line : string) : outcome (list string * list string) :=
  match fields_of line with
  | Raise e => Raise e
  | Ret field_str =>
      let fields := drop 1 (split field_str) in
      if negb (Z.of_nat (length fields) mod 4 =? 0) then Raise ValueError
      else Ret (take 4 fields, drop 4 fields)
  end.

Definition octa_parser (line : string) : outcome (list string * list string) :=
  match fields_of line with
  | Raise e => Raise e
  | Ret field_str =>
      let fields := drop 1 (split field_str) in
      if negb (Z.of_nat (length fields) =? 8) then Raise ValueError
      else Ret (take 4 fields, drop 4 fields)
  end.

Definition delete_parser (line : string) : outcome (string * string) :=
  match fields_of line with
  | Raise e => Raise e
  | Ret field_str =>
      let fields := drop 1 (split field_str) in
      if negb (Z.of_nat (length fields) =? 2) then Raise ValueError
      else
        match getitem fields 0, getitem fields 1 with
        | Ret a, Ret b => Ret (a, b)
        | Raise e, _ | _, Raise e => Raise e
        end
  end.
End RTFParser.

(** The fields of a line of a topology file: the words before the comment;
    the data fields are those after the keyword. *)
Definition all_fields (line : string) : list string :=
  match RTFParser.fields_of line with
  | Ret field_str => RTFParser.split field_str
  | Raise _ => []
  end.

Definition data_fields (line : string) : list string := drop 1 (all_fields line).

(** The members of a list of pairs, in order. *)
Definition members {A} (pairs : list (A * A)) : list A :=
  concat ((λ p, [fst p; snd p]) <$> pairs).

(** ** Choosing residues for a superposition (src/ChainSuperimposer.py) *)

Module ChainSuperimposer.

(** [range(a, b)] *)
Definition range (a b : Z) : list Z :=
  (λ i, a + Z.of_nat i) <$> seq 0 (Z.to_nat (b - a)).

Definition _get_aligned_res_ids (start_id : Z) (ranges : list (Z * Z)) : gset res_id :=
  let aligned_res :=
    foldl (λ aligned_res r,
             let '(start, end_) := r in
             let cur_id_range :=
               (λ i, (" ", i, " ")) <$> range (start + start_id) (end_ + start_id) in
             aligned_res ++ cur_id_range)
      [] ranges in
  list_to_set aligned_res.

(** Only [chain.child_dict] is read, which a chain of any class has. *)
Definition _get_present_res_ids_from_sele (chain : Chain) (selected_res_id : gset res_id)
  : gset res_id :=
  let present := dom (child_dict (chain_entity chain)) in
  if decide (selected_res_id ≠ ∅) then selected_res_id ∩ present else present.

(** The residue numbers that [set_around_gap] selects around the gap from
    [start] to [end_] in chains of [seq_len] residues; [None] when the cutoff
    runs out of the chain and all common residues are used instead. *)
Definition set_around_gap_res_ids (seq_len start end_ cutoff : Z) : option (list Z) :=
  if (start <? cutoff) && (end_ <? seq_len - 2 * cutoff) then
    Some (range end_ (end_ + 2 * cutoff))
  else if (seq_len - cutoff <? end_) && (2 * cutoff <? start) then
    Some (range 0 (start - 2 * cutoff))
  else if (cutoff <? start) && (end_ <? seq_len - cutoff) then
    Some (range (start - cutoff) start ++ range end_ (end_ + cutoff))
  else None.
End ChainSuperimposer.

(** * Properties *)

(** ** Running the monad *)

Lemma bind_Ret {S A B} (m : ST S A) (f : A -> ST S B) s a s' :
  m s = (Ret a, s') → bind m f s = f a s'.
Proof. intros E. unfold bind. by rewrite E. Qed.

Lemma bind_Raise {S A B} (m : ST S A) (f : A -> ST S B) s e s' :
  m s = (Raise e, s') → bind m f s = (Raise e, s').
Proof. intros E. unfold bind. by rewrite E. Qed.

Lemma on_heap_eq {A} (m : ST heap A) b o h :
  m (mem b) = (o, h) → on_heap m b = (o, set_mem h b).
Proof. intros E. unfold on_heap. by rewrite E. Qed.

Lemma attr_eq {A} (f : Builder → option A) b a :
  f b = Some a → attr f b = (Ret a, b).
Proof. intros E. unfold attr. by rewrite E. Qed.

Lemma load_eq h a o : h !! a = Some o → load a h = (Ret o, h).
Proof. intros E. unfold load. by rewrite E. Qed.

Lemma load_chain_eq h a x : h !! a = Some (OChain x) → load_chain a h = (Ret x, h).
Proof. intros E. unfold load_chain. by rewrite (bind_Ret _ _ _ _ _ (load_eq _ _ _ E)). Qed.

Lemma load_model_eq h a x : h !! a = Some (OModel x) → load_model a h = (Ret x, h).
Proof. intros E. unfold load_model. by rewrite (bind_Ret _ _ _ _ _ (load_eq _ _ _ E)). Qed.

Lemma load_residue_eq h a x : h !! a = Some (OResidue x) → load_residue a h = (Ret x, h).
Proof. intros E. unfold load_residue. by rewrite (bind_Ret _ _ _ _ _ (load_eq _ _ _ E)). Qed.

Lemma load_disordered_residue_eq h a x :
  h !! a = Some (ODisorderedResidue x) → load_disordered_residue a h = (Ret x, h).
Proof.
  intros E. unfold load_disordered_residue.
  by rewrite (bind_Ret _ _ _ _ _ (load_eq _ _ _ E)).
Qed.

Lemma load_atom_eq h a x : h !! a = Some (OAtom x) → load_atom a h = (Ret x, h).
Proof. intros E. unfold load_atom. by rewrite (bind_Ret _ _ _ _ _ (load_eq _ _ _ E)). Qed.

Lemma load_disordered_atom_eq h a x :
  h !! a = Some (ODisorderedAtom x) → load_disordered_atom a h = (Ret x, h).
Proof.
  intros E. unfold load_disordered_atom.
  by rewrite (bind_Ret _ _ _ _ _ (load_eq _ _ _ E)).
Qed.

Lemma Entity_has_id_true {K} `{Countable K} (e : Entity K) k a :
  child_dict e !! k = Some a → Entity_has_id e k = true.
Proof. intros E. unfold Entity_has_id. apply bool_decide_eq_true_2. eauto. Qed.

Lemma Entity_has_id_false {K} `{Countable K} (e : Entity K) k :
  child_dict e !! k = None → Entity_has_id e k = false.
Proof.
  intros E. unfold Entity_has_id. apply bool_decide_eq_false_2.
  rewrite E. by intros [? ?].
Qed.

Lemma Chain_has_id_eq h c ch k :
  h !! c = Some (OChain ch) →
  Chain_has_id c k h = (Ret (Entity_has_id (chain_entity ch) k), h).
Proof.
  intros E. unfold Chain_has_id.
  by rewrite (bind_Ret _ _ _ _ _ (load_chain_eq _ _ _ E)).
Qed.

Lemma Chain_getitem_eq h c ch k r :
  h !! c = Some (OChain ch) → child_dict (chain_entity ch) !! k = Some r →
  Chain_getitem c k h = (Ret r, h).
Proof.
  intros E Hk. unfold Chain_getitem.
  rewrite (bind_Ret _ _ _ _ _ (load_chain_eq _ _ _ E)).
  unfold of_outcome, Entity_getitem. by rewrite Hk.
Qed.

Lemma residue_is_disordered_plain h r x :
  h !! r = Some (OResidue x) →
  residue_is_disordered r h = (Ret (Z.b2z (disordered x)), h).
Proof.
  intros E. unfold residue_is_disordered.
  by rewrite (bind_Ret _ _ _ _ _ (load_eq _ _ _ E)).
Qed.

Lemma residue_is_disordered_group h r x :
  h !! r = Some (ODisorderedResidue x) → residue_is_disordered r h = (Ret 2, h).
Proof.
  intros E. unfold residue_is_disordered.
  by rewrite (bind_Ret _ _ _ _ _ (load_eq _ _ _ E)).
Qed.

Lemma b2z_neq_2 (b : bool) : (Z.b2z b =? 2) = false.
Proof. by destruct b. Qed.

Create HintDb py discriminated.
#[export] Hint Resolve on_heap_eq attr_eq load_eq load_chain_eq load_model_eq
  load_residue_eq load_disordered_residue_eq load_atom_eq load_disordered_atom_eq
  Chain_has_id_eq Chain_getitem_eq residue_is_disordered_plain
  residue_is_disordered_group : py.

Ltac state_simpl :=
  unfold set_mem, set_structure, set_model, set_chain, set_segid, set_residue,
    set_atom, set_line, add_warning in *;
  cbn [mem line_counter structure model chain segid residue atom warnings
       fst snd] in *.

(** One step of a run: the first action of a [bind] is evaluated with the
    facts at hand and its result passed on. *)
Ltac mstep :=
  first [ erewrite bind_Ret by (state_simpl; eauto with py)
        | erewrite bind_Raise by (state_simpl; eauto with py) ];
  cbn beta iota; state_simpl.

(** ** The completeness test *)

Lemma no_blank_altloc_eq h xs l :
  Forall2 (λ x s, ∃ a, h !! x = Some (OAtom a) ∧ atom_altloc a = s) xs l →
  no_blank_altloc xs h = (Ret (bool_decide (" " ∉ l)), h).
Proof.
  induction 1 as [|x s xs l (a & Hx & Ha) _ IH].
  - done.
  - simpl. mstep.
    destruct (decide (atom_altloc a = " ")) as [E|E].
    + unfold ret. f_equal. f_equal. symmetry. apply bool_decide_eq_false.
      intros Hn. apply Hn. subst s. rewrite E. left.
    + rewrite IH. f_equal. f_equal. apply bool_decide_ext.
      rewrite not_elem_of_cons. subst s. split; [intros ?; by split|by intros [_ ?]].
Qed.

Lemma is_completely_disordered_eq h r als :
  altlocs_of h r als →
  _is_completely_disordered r h = (Ret (bool_decide (" " ∉ als)), h).
Proof.
  intros (xs & Hxs & Hals). unfold _is_completely_disordered.
  rewrite (bind_Ret _ _ _ _ _ Hxs). by apply no_blank_altloc_eq.
Qed.

Lemma init_atom_dropped rec b :
  residue b = IsNone → add_atom rec b = (Ret tt, b).
Proof. intros E. unfold add_atom, init_atom. by rewrite E. Qed.

(** ** Hetero-flag normalisation *)

Lemma hetero_field_H name : hetero_field "H" name = String.append "H_" name.
Proof. reflexivity. Qed.

Lemma hetero_field_other field name : field ≠ "H" → hetero_field field name = field.
Proof.
  intros Hne. unfold hetero_field.
  destruct (decide (field ≠ " ")); [|done].
  destruct (decide (field = "H")); [contradiction|done].
Qed.

Lemma run_cons f b e evs : run f b (e :: evs) = run f (snd (handle f e b)) evs.
Proof. reflexivity. Qed.

Lemma run_atoms_dropped f b recs :
  residue b = IsNone → run f b (atom_event <$> recs) = b.
Proof.
  intros E. induction recs as [|rec recs IH]; [done|].
  rewrite fmap_cons, run_cons. cbn [handle]. by rewrite init_atom_dropped.
Qed.

(** ** Malformed duplicate residue (C1) *)



(** ** Lookups in a store that grew or changed *)

Lemma lookup_alloc_new (h : heap) o : (h ++ [o]) !! length h = Some o.
Proof. by apply list_lookup_middle. Qed.

Lemma lookup_alloc_old (h : heap) o a x : h !! a = Some x → (h ++ [o]) !! a = Some x.
Proof. apply lookup_app_l_Some. Qed.

Lemma lookup_store_eq (h : heap) a o x : h !! a = Some x → <[a:=o]> h !! a = Some o.
Proof. intros E. apply list_lookup_insert_eq. by eapply lookup_lt_Some. Qed.

Lemma lookup_store_ne (h : heap) a a' o x :
  a ≠ a' → h !! a' = Some x → <[a:=o]> h !! a' = Some x.
Proof. intros Hne E. by rewrite list_lookup_insert_ne. Qed.

Lemma list_remove_elem a l : a ∈ l → is_Some (list_remove a l).
Proof.
  induction 1 as [x l|x y l Hin [l' IH]]; simpl.
  - rewrite decide_True by done. eauto.
  - destruct (decide (y = x)); [eauto|]. rewrite IH. simpl. eauto.
Qed.

Lemma Chain_detach_child_eq h c ch k r l :
  h !! c = Some (OChain ch) →
  child_dict (chain_entity ch) !! k = Some r →
  list_remove r (child_list (chain_entity ch)) = Some l →
  Chain_detach_child c k h
  = (Ret tt, <[c := OChain (mkChain (chain_id ch)
                              (mkEntity l (delete k (child_dict (chain_entity ch)))))]> h).
Proof.
  intros E Hk Hl. unfold Chain_detach_child.
  rewrite (bind_Ret _ _ _ _ _ (load_chain_eq _ _ _ E)).
  unfold Entity_detach_child. rewrite Hk, Hl. reflexivity.
Qed.

Lemma residue_get_id_eq h a k :
  node_id h a = Some k → residue_get_id a h = (Ret k, h).
Proof.
  unfold node_id, residue_get_id. intros Hid.
  destruct (h !! a) as [o|] eqn:Ho; [|done].
  rewrite (bind_Ret _ _ _ _ _ (load_eq _ _ _ Ho)).
  destruct o; try done; by simplify_eq.
Qed.

Lemma Chain_add_eq h c ch child k :
  node_id h child = Some k →
  h !! c = Some (OChain ch) →
  child_dict (chain_entity ch) !! k = None →
  Chain_add c child h
  = (Ret tt, <[c := OChain (mkChain (chain_id ch)
                              (mkEntity (child_list (chain_entity ch) ++ [child])
                                 (<[k:=child]> (child_dict (chain_entity ch)))))]> h).
Proof.
  intros Hid E Hk. unfold Chain_add.
  rewrite (bind_Ret _ _ _ _ _ (residue_get_id_eq _ _ _ Hid)).
  rewrite (bind_Ret _ _ _ _ _ (load_chain_eq _ _ _ E)).
  unfold Entity_add. rewrite (Entity_has_id_false _ _ Hk). reflexivity.
Qed.

Lemma dict_has_false {K V} `{EqDecision K} (d : list (K * V)) k :
  dict_get d k = None → dict_has d k = false.
Proof. intros E. unfold dict_has. rewrite E. apply bool_decide_eq_false_2. by intros [? ?]. Qed.

Lemma dict_get_set_eq {K V} `{EqDecision K} (d : list (K * V)) k v :
  dict_get (dict_set d k v) k = Some v.
Proof.
  induction d as [|[k' v'] d IH]; simpl.
  - by rewrite decide_True.
  - destruct (decide (k' = k)) as [->|Hne]; simpl.
    + by rewrite decide_True.
    + by rewrite decide_False.
Qed.

Lemma dict_set_fresh {K V} `{EqDecision K} (d : list (K * V)) k v :
  dict_get d k = None → dict_set d k v = d ++ [(k, v)].
Proof.
  induction d as [|[k' v'] d IH]; simpl; [done|].
  destruct (decide (k' = k)); [done|]. intros E. by rewrite IH.
Qed.

Lemma DisorderedResidue_disordered_add_eq h g d child r :
  h !! child = Some (OResidue r) →
  h !! g = Some (ODisorderedResidue d) →
  dict_get (w_child_dict d) (resname r) = None →
  DisorderedResidue_disordered_add g child h
  = (Ret tt, <[g := ODisorderedResidue
                      (mkWrapper (w_id d) (w_child_dict d ++ [(resname r, child)])
                         (Some child))]> h).
Proof.
  intros Hc Hg Hd. unfold DisorderedResidue_disordered_add.
  rewrite (bind_Ret _ _ _ _ _ (load_residue_eq _ _ _ Hc)).
  rewrite (bind_Ret _ _ _ _ _ (load_disordered_residue_eq _ _ _ Hg)).
  rewrite (dict_has_false _ _ Hd).
  unfold store at 1. erewrite bind_Ret by reflexivity.
  unfold disordered_select.
  erewrite bind_Ret by (apply load_disordered_residue_eq; by eapply lookup_store_eq).
  cbn [w_child_dict w_id]. rewrite dict_get_set_eq. unfold store.
  rewrite list_insert_insert_eq. by rewrite dict_set_fresh.
Qed.

Lemma list_remove_spec a l l' :
  list_remove a l = Some l' → NoDup l →
  NoDup l' ∧ ∀ x, x ∈ l' ↔ x ∈ l ∧ x ≠ a.
Proof.
  revert l'. induction l as [|y l IH]; intros l' E Hnd; simpl in E; [done|].
  apply NoDup_cons in Hnd as [Hy Hnd].
  destruct (decide (y = a)) as [->|Hne].
  - simplify_eq. split; [done|]. intros x. rewrite elem_of_cons.
    split; [intros Hx; split; [by right|intros ->; done]|intros [[->|Hx] Hne]; done].
  - destruct (list_remove a l) as [l0|] eqn:E0; simplify_eq/=.
    destruct (IH _ eq_refl Hnd) as [Hnd0 Hin0]. split.
    + apply NoDup_cons. split; [|done]. rewrite Hin0. by intros [? _].
    + intros x. rewrite !elem_of_cons, Hin0. naive_solver.
Qed.

Ltac len_simpl :=
  repeat first [rewrite length_app | rewrite length_insert];
  cbn [length]; rewrite ?Nat.add_1_r.

Lemma lookup_alloc_at (h : heap) o a : a = length h → (h ++ [o]) !! a = Some o.
Proof. intros ->. apply lookup_alloc_new. Qed.

Ltac heap_lookup :=
  repeat first
    [ rewrite list_lookup_insert_ne by (len_simpl; lia)
    | rewrite list_lookup_insert_eq by (len_simpl; lia)
    | rewrite lookup_app_l by (len_simpl; lia)
    | rewrite lookup_alloc_at by (len_simpl; lia) ].

Lemma node_id_lt h a k : node_id h a = Some k → (a < length h)%nat.
Proof.
  unfold node_id. destruct (h !! a) eqn:E; [|done]. intros _. by eapply lookup_lt_Some.
Qed.

(** ** Point mutation at a fully disordered residue (C2) *)


Lemma chain_ok_singleton h id k a :
  node_id h a = Some k → chain_ok h (mkChain id (mkEntity [a] (<[k:=a]> ∅))).
Proof.
  intros Ha. unfold chain_ok. cbn [chain_entity child_list child_dict].
  split; [apply NoDup_singleton|]. split.
  - intros a' ->%list_elem_of_singleton. exists k. split; [done|apply lookup_insert_eq].
  - intros k' a' [[<- <-]|[_ Hd]]%lookup_insert_Some; [|by rewrite lookup_empty in Hd].
    split; [by apply list_elem_of_singleton|done].
Qed.


(** ** Hetero-flag rewriting (C4) *)




(** ** The order of a new bond (C10) *)

(** C10.  A new Bond records the given bond type, and its order is None
    whatever the bond type: the table is asked for the builtin [type], which
    is not one of its keys, although it maps single, double, triple and
    aromatic to 1, 2, 3 and 2. *)
Theorem C10_bond_order_is_none (atom_t id_t param_t : Type) (full_id : atom_t → id_t)
    (id_gt : id_t → id_t → bool) (a1 a2 : atom_t) (type_arg : option string)
    (p : option param_t) :
  let bond := TopoElements.Bond_new atom_t id_t param_t full_id id_gt a1 a2 type_arg p in
  TopoElements.bond_type _ _ _ bond = type_arg
  ∧ TopoElements.order _ _ _ bond = None
  ∧ dict_get TopoElements.bond_order_dict (TopoElements.Str "single") = Some 1
  ∧ dict_get TopoElements.bond_order_dict (TopoElements.Str "double") = Some 2
  ∧ dict_get TopoElements.bond_order_dict (TopoElements.Str "triple") = Some 3
  ∧ dict_get TopoElements.bond_order_dict (TopoElements.Str "aromatic") = Some 2.
Proof. repeat split. Qed.

Lemma Model_has_id_eq h m x k :
  h !! m = Some (OModel x) →
  Model_has_id m k h = (Ret (Entity_has_id (model_entity x) k), h).
Proof.
  intros E. unfold Model_has_id.
  by rewrite (bind_Ret _ _ _ _ _ (load_model_eq _ _ _ E)).
Qed.

Lemma Model_getitem_eq h m x k c :
  h !! m = Some (OModel x) → child_dict (model_entity x) !! k = Some c →
  Model_getitem m k h = (Ret c, h).
Proof.
  intros E Hk. unfold Model_getitem.
  rewrite (bind_Ret _ _ _ _ _ (load_model_eq _ _ _ E)).
  unfold of_outcome, Entity_getitem. by rewrite Hk.
Qed.

Lemma init_chain_existing b m x id c :
  model b = Some m →
  mem b !! m = Some (OModel x) →
  child_dict (model_entity x) !! id = Some c →
  init_chain id b
  = (Ret tt, add_warning (ChainDiscontinuous id (line_counter b)) (set_chain c b)).
Proof.
  intros Hm Hx Hc. destruct b as [h ln st md chn sgd rs at_ ws]. state_simpl. subst md.
  unfold init_chain. mstep.
  erewrite bind_Ret by (apply on_heap_eq; by apply Model_has_id_eq).
  rewrite (Entity_has_id_true _ _ _ Hc). cbn iota.
  erewrite bind_Ret by (apply on_heap_eq; by eapply Model_getitem_eq).
  reflexivity.
Qed.

(** Exposes every step of a run for case analysis. *)
Ltac unfold_monad :=
  unfold load_atom, load_disordered_atom, load_residue, load_disordered_residue,
    load_chain, load_model, load_structure, selected in *;
  unfold on_heap, attr, gets, warn, modify, of_outcome, alloc, load, store in *;
  unfold bind, ret, raise in *;
  cbn beta iota in *; state_simpl.

Ltac msimpl := cbn beta iota in *; state_simpl.

Lemma init_chain_success b id :
  fst (init_chain id b) = Ret tt →
  ∃ m x c,
    model (snd (init_chain id b)) = Some m
    ∧ mem (snd (init_chain id b)) !! m = Some (OModel x)
    ∧ child_dict (model_entity x) !! id = Some c
    ∧ chain (snd (init_chain id b)) = Some c.
Proof.
  destruct b as [h ln st md chn sgd rs at_ ws].
  unfold init_chain, Model_has_id, Model_getitem, Model_add, new_PeptideChain.
  unfold_monad.
  destruct md as [m|]; msimpl; [|done].
  destruct (h !! m) as [o|] eqn:Hm; msimpl; [|done].
  destruct o as [| | | | |x|]; msimpl; try done.
  pose proof (lookup_lt_Some _ _ _ Hm) as Hlt.
  destruct (Entity_has_id (model_entity x) id) eqn:Hhas; msimpl.
  - rewrite Hm. msimpl. unfold Entity_getitem.
    unfold Entity_has_id in Hhas. apply bool_decide_eq_true_1 in Hhas as [c Hc].
    rewrite Hc. msimpl. intros _. by exists m, x, c.
  - rewrite lookup_alloc_new. msimpl.
    rewrite (lookup_alloc_old _ _ _ _ Hm). msimpl. cbn [chain_id]. unfold Entity_add.
    rewrite Hhas. msimpl. intros _.
    eexists m, _, (length h). split; [done|]. split; [heap_lookup; reflexivity|].
    split; [apply lookup_insert_eq|done].
Qed.

(** ** Reopening a chain (C8) *)

(** C8.  When the current model already holds a chain with the given id,
    [init_chain] makes that chain the active one and emits the
    discontinuous-chain warning; the store, and with it the model's chains,
    is untouched.  Hence whenever a first [init_chain] with some id returns
    normally, a second one with that id changes nothing but the warnings:
    the store, the model's children and the active chain stay those the
    first call left. *)
Theorem C8_init_chain_reuses_existing b id :
  (∀ m x c,
     model b = Some m →
     mem b !! m = Some (OModel x) →
     child_dict (model_entity x) !! id = Some c →
     init_chain id b
     = (Ret tt, add_warning (ChainDiscontinuous id (line_counter b)) (set_chain c b)))
  ∧ (fst (init_chain id b) = Ret tt →
     let b1 := snd (init_chain id b) in
     init_chain id b1
     = (Ret tt, add_warning (ChainDiscontinuous id (line_counter b1)) b1)).
Proof.
  split; [intros m x c; apply init_chain_existing|].
  intros Hret. cbv zeta.
  destruct (init_chain_success _ _ Hret) as (m & x & c & Hm & Hx & Hc & Hch).
  rewrite (init_chain_existing _ _ _ _ _ Hm Hx Hc).
  destruct (snd (init_chain id b)). state_simpl. by subst.
Qed.

Lemma C8_witness :
  let b := run find_het_by_seq_model new_Builder
             [begin_structure "1abc"; begin_model 0 None; begin_segment "    "] in
  let b1 := snd (init_chain "A" b) in
  init_chain "A" b1 = (Ret tt, add_warning (ChainDiscontinuous "A" (line_counter b1)) b1).
Proof.
  intros b. apply (proj2 (C8_init_chain_reuses_existing b "A")).
  vm_compute. reflexivity.
Defined.

(** ** Atom admission, step by step *)

Lemma as_residue_eq h ra t : serves h ra t → as_residue ra h = (Ret t, h).
Proof.
  intros [a r Ha|a d t' Ha Hs]; unfold as_residue.
  - by rewrite (bind_Ret _ _ _ _ _ (load_eq _ _ _ Ha)).
  - rewrite (bind_Ret _ _ _ _ _ (load_eq _ _ _ Ha)). unfold selected. by rewrite Hs.
Qed.

Lemma Residue_has_id_eq h ra t r name :
  serves h ra t → h !! t = Some (OResidue r) →
  Residue_has_id ra name h = (Ret (Entity_has_id (residue_entity r) name), h).
Proof.
  intros Hs Hr. unfold Residue_has_id.
  rewrite (bind_Ret _ _ _ _ _ (as_residue_eq _ _ _ Hs)).
  by rewrite (bind_Ret _ _ _ _ _ (load_residue_eq _ _ _ Hr)).
Qed.

Lemma Residue_getitem_eq h ra t r name d :
  serves h ra t → h !! t = Some (OResidue r) →
  child_dict (residue_entity r) !! name = Some d →
  Residue_getitem ra name h = (Ret d, h).
Proof.
  intros Hs Hr Hd. unfold Residue_getitem.
  rewrite (bind_Ret _ _ _ _ _ (as_residue_eq _ _ _ Hs)).
  rewrite (bind_Ret _ _ _ _ _ (load_residue_eq _ _ _ Hr)).
  unfold of_outcome, Entity_getitem. by rewrite Hd.
Qed.

Lemma atom_get_fullname_plain h a x :
  h !! a = Some (OAtom x) → atom_get_fullname a h = (Ret (atom_fullname x), h).
Proof.
  intros Ha. unfold atom_get_fullname. by rewrite (bind_Ret _ _ _ _ _ (load_eq _ _ _ Ha)).
Qed.

Lemma atom_get_fullname_group h g d s x :
  h !! g = Some (ODisorderedAtom d) → selected_child (da_wrapper d) = Some s →
  h !! s = Some (OAtom x) →
  atom_get_fullname g h = (Ret (atom_fullname x), h).
Proof.
  intros Hg Hsel Hs. unfold atom_get_fullname.
  rewrite (bind_Ret _ _ _ _ _ (load_eq _ _ _ Hg)). unfold selected. rewrite Hsel.
  unfold ret at 1. erewrite bind_Ret by reflexivity.
  by rewrite (bind_Ret _ _ _ _ _ (load_atom_eq _ _ _ Hs)).
Qed.

Lemma atom_is_disordered_plain h a x :
  h !! a = Some (OAtom x) →
  atom_is_disordered a h = (Ret (Z.b2z (atom_disordered_flag x)), h).
Proof.
  intros Ha. unfold atom_is_disordered. by rewrite (bind_Ret _ _ _ _ _ (load_eq _ _ _ Ha)).
Qed.

Lemma atom_is_disordered_group h a d :
  h !! a = Some (ODisorderedAtom d) → atom_is_disordered a h = (Ret 2, h).
Proof.
  intros Ha. unfold atom_is_disordered. by rewrite (bind_Ret _ _ _ _ _ (load_eq _ _ _ Ha)).
Qed.

Lemma Residue_detach_child_eq h ra t r name d l :
  serves h ra t → h !! t = Some (OResidue r) →
  child_dict (residue_entity r) !! name = Some d →
  list_remove d (child_list (residue_entity r)) = Some l →
  Residue_detach_child ra name h
  = (Ret tt, <[t := OResidue (set_residue_entity r
                                (mkEntity l (delete name (child_dict (residue_entity r)))))]> h).
Proof.
  intros Hs Hr Hd Hl. unfold Residue_detach_child.
  rewrite (bind_Ret _ _ _ _ _ (as_residue_eq _ _ _ Hs)).
  rewrite (bind_Ret _ _ _ _ _ (load_residue_eq _ _ _ Hr)).
  unfold Entity_detach_child. rewrite Hd, Hl. reflexivity.
Qed.

Lemma atom_get_id_group h g d :
  h !! g = Some (ODisorderedAtom d) → atom_get_id g h = (Ret (w_id (da_wrapper d)), h).
Proof.
  intros Hg. unfold atom_get_id. by rewrite (bind_Ret _ _ _ _ _ (load_eq _ _ _ Hg)).
Qed.

Lemma plain_Residue_add_group_eq h t r g d :
  h !! g = Some (ODisorderedAtom d) → h !! t = Some (OResidue r) →
  child_dict (residue_entity r) !! w_id (da_wrapper d) = None →
  plain_Residue_add t g h
  = (Ret tt, <[t := OResidue
                      (set_residue_entity r
                         (mkEntity (child_list (residue_entity r) ++ [g])
                            (<[w_id (da_wrapper d) := g]> (child_dict (residue_entity r)))))]> h).
Proof.
  intros Hg Hr Hd. unfold plain_Residue_add.
  rewrite (bind_Ret _ _ _ _ _ (atom_get_id_group _ _ _ Hg)).
  rewrite (bind_Ret _ _ _ _ _ (load_residue_eq _ _ _ Hr)).
  rewrite (Entity_has_id_false _ _ Hd). unfold Entity_add.
  rewrite (Entity_has_id_false _ _ Hd). reflexivity.
Qed.

Lemma Residue_add_group_eq h ra t r g d :
  serves h ra t →
  h !! g = Some (ODisorderedAtom d) → h !! t = Some (OResidue r) →
  child_dict (residue_entity r) !! w_id (da_wrapper d) = None →
  Residue_add ra g h
  = (Ret tt, <[t := OResidue
                      (set_residue_entity r
                         (mkEntity (child_list (residue_entity r) ++ [g])
                            (<[w_id (da_wrapper d) := g]> (child_dict (residue_entity r)))))]> h).
Proof.
  intros Hs Hg Hr Hd. unfold Residue_add. destruct Hs as [a r' Ha|a dr t Ha Hsel].
  - rewrite (bind_Ret _ _ _ _ _ (load_eq _ _ _ Ha)). by eapply plain_Residue_add_group_eq.
  - rewrite (bind_Ret _ _ _ _ _ (load_eq _ _ _ Ha)). unfold DisorderedResidue_add.
    rewrite (bind_Ret _ _ _ _ _ (load_disordered_residue_eq _ _ _ Ha)).
    unfold selected. rewrite Hsel. unfold ret at 1. erewrite bind_Ret by reflexivity.
    rewrite (bind_Ret _ _ _ _ _ (atom_is_disordered_group _ _ _ Hg)).
    cbn [Z.eqb Pos.eqb negb]. by eapply plain_Residue_add_group_eq.
Qed.

Lemma DisorderedAtom_disordered_add_eq h g d a x occupancy :
  h !! a = Some (OAtom x) → h !! g = Some (ODisorderedAtom d) →
  atom_occupancy x = Some occupancy →
  DisorderedAtom_disordered_add g a h
  = (Ret tt, <[g := ODisorderedAtom (with_child d (atom_altloc x) a occupancy)]>
               (<[a := OAtom (flag_disorder x)]> h)).
Proof.
  intros Ha Hg Hocc. assert (a ≠ g) as Hne by (intros ->; congruence).
  unfold DisorderedAtom_disordered_add.
  rewrite (bind_Ret _ _ _ _ _ (load_atom_eq _ _ _ Ha)).
  unfold store at 1. erewrite bind_Ret by reflexivity.
  erewrite bind_Ret by (apply load_disordered_atom_eq; by eapply lookup_store_ne).
  cbv zeta. unfold store at 1. erewrite bind_Ret by reflexivity.
  rewrite Hocc. unfold with_child. cbv zeta.
  destruct (negb (Qle_bool occupancy (last_occupancy d))).
  - unfold store. rewrite list_insert_insert_eq. by rewrite dict_get_set_eq.
  - reflexivity.
Qed.

Lemma Residue_flag_disordered_eq h ra t r :
  serves h ra t → h !! t = Some (OResidue r) →
  Residue_flag_disordered ra h = (Ret tt, <[t := OResidue (flag_disordered r)]> h).
Proof.
  intros Hs Hr. unfold Residue_flag_disordered.
  rewrite (bind_Ret _ _ _ _ _ (as_residue_eq _ _ _ Hs)).
  by rewrite (bind_Ret _ _ _ _ _ (load_residue_eq _ _ _ Hr)).
Qed.

Lemma serves_alloc h ra t o : serves h ra t → serves (h ++ [o]) ra t.
Proof.
  intros [a r Ha|a d t' Ha Hs].
  - eapply serves_plain. by apply lookup_alloc_old.
  - eapply serves_group; [by apply lookup_alloc_old|done].
Qed.

Lemma serves_store_other h ra t a o :
  serves h ra t → a ≠ ra → serves (<[a:=o]> h) ra t.
Proof.
  intros [a' r Ha|a' d t' Ha Hs] Hne.
  - eapply serves_plain. by rewrite list_lookup_insert_ne.
  - eapply serves_group; [by rewrite list_lookup_insert_ne|done].
Qed.

Lemma serves_store_residue h ra t r r' :
  serves h ra t → h !! t = Some (OResidue r) → serves (<[t:=OResidue r']> h) ra t.
Proof.
  intros Hs Hr. destruct (decide (t = ra)) as [->|Hne].
  - eapply serves_plain. by eapply lookup_store_eq.
  - by apply serves_store_other.
Qed.

Lemma serves_store_atom h ra t i x o :
  serves h ra t → h !! i = Some (OAtom x) → serves (<[i:=o]> h) ra t.
Proof. intros Hs Hi. apply serves_store_other; [done|]. destruct Hs; congruence. Qed.

Lemma serves_store_disordered_atom h ra t i x o :
  serves h ra t → h !! i = Some (ODisorderedAtom x) → serves (<[i:=o]> h) ra t.
Proof. intros Hs Hi. apply serves_store_other; [done|]. destruct Hs; congruence. Qed.

Lemma with_child_id d altloc a occ :
  w_id (da_wrapper (with_child d altloc a occ)) = w_id (da_wrapper d).
Proof. unfold with_child. cbv zeta. by destruct (negb _). Qed.

Lemma with_child_dict d altloc a occ :
  w_child_dict (da_wrapper (with_child d altloc a occ))
  = dict_set (w_child_dict (da_wrapper d)) altloc a.
Proof. unfold with_child. cbv zeta. by destruct (negb _). Qed.

Lemma set_mem_id b : set_mem (mem b) b = b.
Proof. by destruct b. Qed.

Lemma disambiguate_absent b ra t r name fullname :
  serves (mem b) ra t → mem b !! t = Some (OResidue r) →
  child_dict (residue_entity r) !! name = None →
  disambiguate ra name fullname b = (Ret name, b).
Proof.
  intros Hs Hr Hname. unfold disambiguate.
  erewrite bind_Ret by (eapply on_heap_eq, Residue_has_id_eq; eauto).
  rewrite (Entity_has_id_false _ _ Hname). by rewrite set_mem_id.
Qed.

Lemma disambiguate_present b ra t r name fullname d0 fn0 :
  serves (mem b) ra t → mem b !! t = Some (OResidue r) →
  child_dict (residue_entity r) !! name = Some d0 →
  atom_get_fullname d0 (mem b) = (Ret fn0, mem b) →
  disambiguate ra name fullname b
  = if decide (fn0 ≠ fullname)
    then (Ret fullname, add_warning (AtomNamesDifferInSpaces fn0 fullname (line_counter b)) b)
    else (Ret name, b).
Proof.
  intros Hs Hr Hname Hfn. unfold disambiguate.
  erewrite bind_Ret by (eapply on_heap_eq, Residue_has_id_eq; eauto).
  rewrite (Entity_has_id_true _ _ _ Hname), set_mem_id. cbn iota.
  erewrite bind_Ret by (eapply on_heap_eq, Residue_getitem_eq; eauto).
  rewrite set_mem_id.
  erewrite bind_Ret by (eapply on_heap_eq; exact Hfn).
  rewrite set_mem_id. destruct (decide (fn0 ≠ fullname)); [|reflexivity].
  unfold warn. erewrite bind_Ret by reflexivity. reflexivity.
Qed.

(** The atom already in the store at [a] meets a plain atom under its key. *)
Lemma place_atom_on_plain b ra t r key altloc a xa occ d x q l :
  let h := mem b in
  let g := length h in
  serves h ra t →
  h !! t = Some (OResidue r) →
  child_dict (residue_entity r) !! key = Some d →
  h !! d = Some (OAtom x) →
  list_remove d (child_list (residue_entity r)) = Some l →
  atom_occupancy x = Some q →
  h !! a = Some (OAtom xa) →
  atom_occupancy xa = Some occ →
  a ≠ d →
  altloc ≠ " " →
  ∃ h' grp,
    place_atom ra key altloc a b
    = (Ret tt, add_warning (DisorderedAtomBlankAltloc (line_counter b)) (set_mem h' b))
    ∧ length h' = S (length h)
    ∧ h' !! t = Some (OResidue (flag_disordered (set_residue_entity r
                       (mkEntity (l ++ [g])
                          (<[key:=g]> (delete key (child_dict (residue_entity r))))))))
    ∧ h' !! g = Some (ODisorderedAtom grp)
    ∧ w_id (da_wrapper grp) = key
    ∧ w_child_dict (da_wrapper grp) = dict_set [(atom_altloc xa, a)] (atom_altloc x) d
    ∧ h' !! a = Some (OAtom (flag_disorder xa))
    ∧ h' !! d = Some (OAtom (flag_disorder x))
    ∧ ∀ i o, i ≠ t → i ≠ a → i ≠ d → h !! i = Some o → h' !! i = Some o.
Proof.
  intros h g Hs Hr Hkey Hd Hl Hq Ha Hocc Had Halt. subst h g.
  destruct b as [h ln st md chn sg rs at_ ws]. state_simpl.
  pose proof (lookup_lt_Some _ _ _ Hr) as Htlt.
  pose proof (lookup_lt_Some _ _ _ Hd) as Hdlt.
  pose proof (lookup_lt_Some _ _ _ Ha) as Halt'.
  assert (d ≠ t) as Hdt by (intros ->; congruence).
  assert (a ≠ t) as Hat by (intros ->; congruence).
  unfold place_atom. destruct (decide (altloc ≠ " ")); [|done].
  erewrite bind_Ret by (eapply on_heap_eq, Residue_has_id_eq; eauto). state_simpl.
  rewrite (Entity_has_id_true _ _ _ Hkey). cbn iota.
  erewrite bind_Ret by (eapply on_heap_eq, Residue_getitem_eq; eauto). state_simpl.
  erewrite bind_Ret by (eapply on_heap_eq, atom_is_disordered_plain; eauto). state_simpl.
  rewrite b2z_neq_2. cbn iota.
  erewrite bind_Ret by (eapply on_heap_eq, Residue_detach_child_eq; eauto). state_simpl.
  unfold new_DisorderedAtom, alloc.
  erewrite bind_Ret by (apply on_heap_eq; reflexivity). state_simpl.
  len_simpl.
  set (r1 := set_residue_entity r (mkEntity l (delete key (child_dict (residue_entity r))))).
  set (d0 := mkDisorderedAtom (mkWrapper key [] None) minus_maxsize).
  assert (serves (<[t:=OResidue r1]> h ++ [ODisorderedAtom d0]) ra t) as Hs1.
  { apply serves_alloc. by eapply serves_store_residue. }
  erewrite bind_Ret.
  2:{ eapply on_heap_eq, Residue_add_group_eq; state_simpl; [exact Hs1| | |].
      - heap_lookup. reflexivity.
      - heap_lookup. reflexivity.
      - cbn [d0 r1 da_wrapper w_id set_residue_entity residue_entity child_dict].
        apply lookup_delete_eq. }
  state_simpl. cbn [d0 da_wrapper w_id r1 set_residue_entity residue_entity child_list
                    child_dict residue_id resname residue_segid disordered].
  fold d0.
  erewrite bind_Ret.
  2:{ eapply on_heap_eq, DisorderedAtom_disordered_add_eq; state_simpl; [| |exact Hocc].
      - heap_lookup. exact Ha.
      - heap_lookup. reflexivity. }
  state_simpl.
  erewrite bind_Ret.
  2:{ eapply on_heap_eq, DisorderedAtom_disordered_add_eq; state_simpl; [| |exact Hq].
      - heap_lookup. exact Hd.
      - heap_lookup. reflexivity. }
  state_simpl.
  erewrite bind_Ret.
  2:{ eapply on_heap_eq, Residue_flag_disordered_eq; state_simpl.
      - eapply serves_store_disordered_atom; [|heap_lookup; reflexivity].
        eapply serves_store_atom; [|heap_lookup; exact Hd].
        eapply serves_store_disordered_atom; [|heap_lookup; reflexivity].
        eapply serves_store_atom; [|heap_lookup; exact Ha].
        eapply serves_store_residue; [exact Hs1|]. heap_lookup. reflexivity.
      - heap_lookup. reflexivity. }
  state_simpl. unfold warn. state_simpl.
  eexists _, _. split; [reflexivity|].
  split; [by len_simpl|].
  split; [heap_lookup; reflexivity|].
  split; [heap_lookup; reflexivity|].
  split; [by rewrite !with_child_id|].
  split; [by rewrite !with_child_dict|].
  split; [heap_lookup; reflexivity|].
  split; [heap_lookup; reflexivity|].
  intros i o Hit Hia Hid Hi. pose proof (lookup_lt_Some _ _ _ Hi). heap_lookup. exact Hi.
Qed.

(** ** A disordered atom after a plain one (C3) *)




(** ** Pure disorder: alternates of one atom (C7) *)

Lemma place_atom_fresh b ra t r key altloc a xa occ :
  let h := mem b in
  let g := length h in
  serves h ra t →
  h !! t = Some (OResidue r) →
  child_dict (residue_entity r) !! key = None →
  h !! a = Some (OAtom xa) →
  atom_occupancy xa = Some occ →
  altloc ≠ " " →
  ∃ h',
    place_atom ra key altloc a b = (Ret tt, set_mem h' b)
    ∧ length h' = S (length h)
    ∧ serves h' ra t
    ∧ h' !! t = Some (OResidue (flag_disordered (set_residue_entity r
                       (mkEntity (child_list (residue_entity r) ++ [g])
                          (<[key:=g]> (child_dict (residue_entity r)))))))
    ∧ h' !! g = Some (ODisorderedAtom
                        (with_child (mkDisorderedAtom (mkWrapper key [] None) minus_maxsize)
                           (atom_altloc xa) a occ))
    ∧ h' !! a = Some (OAtom (flag_disorder xa))
    ∧ ∀ i o, i ≠ t → i ≠ a → h !! i = Some o → h' !! i = Some o.
Proof.
  intros h g Hs Hr Hkey Ha Hocc Halt. subst h g.
  destruct b as [h ln st md chn sg rs at_ ws]. state_simpl.
  pose proof (lookup_lt_Some _ _ _ Hr) as Htlt.
  pose proof (lookup_lt_Some _ _ _ Ha) as Halt'.
  assert (a ≠ t) as Hat by (intros ->; congruence).
  unfold place_atom. destruct (decide (altloc ≠ " ")); [|done].
  erewrite bind_Ret by (eapply on_heap_eq, Residue_has_id_eq; eauto). state_simpl.
  rewrite (Entity_has_id_false _ _ Hkey). cbn iota.
  unfold new_DisorderedAtom, alloc.
  erewrite bind_Ret by (apply on_heap_eq; reflexivity). state_simpl.
  set (d0 := mkDisorderedAtom (mkWrapper key [] None) minus_maxsize).
  assert (serves (h ++ [ODisorderedAtom d0]) ra t) as Hs1 by (by apply serves_alloc).
  erewrite bind_Ret.
  2:{ eapply on_heap_eq, Residue_add_group_eq; state_simpl; [exact Hs1| | |].
      - heap_lookup. reflexivity.
      - heap_lookup. exact Hr.
      - exact Hkey. }
  state_simpl. cbn [d0 da_wrapper w_id]. fold d0.
  erewrite bind_Ret.
  2:{ eapply on_heap_eq, DisorderedAtom_disordered_add_eq; state_simpl; [| |exact Hocc].
      - heap_lookup. exact Ha.
      - heap_lookup. reflexivity. }
  state_simpl.
  assert (serves (<[length h:=ODisorderedAtom (with_child d0 (atom_altloc xa) a occ)]>
           (<[a:=OAtom (flag_disorder xa)]>
              (<[t:=OResidue (set_residue_entity r
                    {| child_list := child_list (residue_entity r) ++ [length h];
                       child_dict := <[key:=length h]> (child_dict (residue_entity r)) |})]>
                 (h ++ [ODisorderedAtom d0])))) ra t) as Hs2.
  { eapply serves_store_disordered_atom; [|heap_lookup; reflexivity].
    eapply serves_store_atom; [|heap_lookup; exact Ha].
    eapply serves_store_residue; [exact Hs1|]. heap_lookup. exact Hr. }
  erewrite on_heap_eq.
  2:{ eapply Residue_flag_disordered_eq; state_simpl; [exact Hs2|].
      heap_lookup. reflexivity. }
  state_simpl. eexists. split; [reflexivity|].
  split; [by len_simpl|].
  split; [eapply serves_store_residue; [exact Hs2|heap_lookup; reflexivity]|].
  split; [heap_lookup; reflexivity|].
  split; [heap_lookup; reflexivity|].
  split; [heap_lookup; reflexivity|].
  intros i o Hit Hia Hi. pose proof (lookup_lt_Some _ _ _ Hi). heap_lookup. exact Hi.
Qed.

Lemma place_atom_in_group b ra t r key altloc a xa occ g d :
  let h := mem b in
  serves h ra t →
  h !! t = Some (OResidue r) →
  child_dict (residue_entity r) !! key = Some g →
  h !! g = Some (ODisorderedAtom d) →
  h !! a = Some (OAtom xa) →
  atom_occupancy xa = Some occ →
  altloc ≠ " " →
  place_atom ra key altloc a b
  = (Ret tt, set_mem (<[g := ODisorderedAtom (with_child d (atom_altloc xa) a occ)]>
                        (<[a := OAtom (flag_disorder xa)]> h)) b).
Proof.
  intros h Hs Hr Hkey Hg Ha Hocc Halt. subst h.
  unfold place_atom. destruct (decide (altloc ≠ " ")); [|done].
  erewrite bind_Ret by (eapply on_heap_eq, Residue_has_id_eq; eauto).
  rewrite set_mem_id, (Entity_has_id_true _ _ _ Hkey). cbn iota.
  erewrite bind_Ret by (eapply on_heap_eq, Residue_getitem_eq; eauto).
  rewrite set_mem_id.
  erewrite bind_Ret by (eapply on_heap_eq, atom_is_disordered_group; eauto).
  rewrite set_mem_id. cbn [Z.eqb Pos.eqb].
  erewrite on_heap_eq by (eapply DisorderedAtom_disordered_add_eq; eauto).
  reflexivity.
Qed.

Lemma dict_get_None {K V} `{EqDecision K} (d : list (K * V)) k :
  k ∉ d.*1 → dict_get d k = None.
Proof.
  induction d as [|[k' v] d IH]; simpl; [done|].
  rewrite not_elem_of_cons. intros [Hne Hk]. rewrite decide_False by done. by apply IH.
Qed.

Lemma occupancy_selects (occ : Q) :
  (minus_maxsize < occ)%Q → negb (Qle_bool occ minus_maxsize) = true.
Proof.
  intros Hlt. apply negb_true_iff. destruct (Qle_bool occ minus_maxsize) eqn:E; [|done].
  apply Qle_bool_iff in E. exfalso. by apply (Qlt_not_le _ _ Hlt).
Qed.

Lemma add_atom_first b ra t r name fullname rec :
  residue b = Ref ra →
  serves (mem b) ra t →
  mem b !! t = Some (OResidue r) →
  child_dict (residue_entity r) !! name = None →
  alternates name fullname rec →
  ∃ b', add_atom rec b = (Ret tt, b') ∧ holds_alternates b' ra t name fullname [rec].
Proof.
  intros Hres Hs Hr Hname (Hn & Hf & Halt & Hpqr & Hocc).
  set (xa := mkAtom name (rec_coord rec) (Some (rec_b_factor rec)) (Some (rec_occupancy rec))
               (rec_altloc rec) fullname (rec_serial_number rec) (rec_element rec)
               None None name false).
  set (a := length (mem b)).
  destruct (place_atom_fresh (set_atom a (set_mem (mem b ++ [OAtom xa]) b))
              ra t r name (rec_altloc rec) a xa (rec_occupancy rec))
    as (h' & Hrun & Hlen & Hs' & Ht & Hg & Ha & Hold).
  - state_simpl. by apply serves_alloc.
  - state_simpl. by apply lookup_alloc_old.
  - exact Hname.
  - state_simpl. apply lookup_alloc_new.
  - reflexivity.
  - exact Halt.
  - eexists. split.
    + unfold add_atom, init_atom. rewrite Hres, Hn, Hf, Hpqr.
      erewrite bind_Ret by (by eapply disambiguate_absent).
      cbn [negb]. unfold new_Atom, alloc.
      erewrite bind_Ret by (apply on_heap_eq; reflexivity).
      unfold modify at 1. erewrite bind_Ret by reflexivity.
      fold a xa. exact Hrun.
    + unfold holds_alternates. revert Hs' Ht Hg Ha Hold. state_simpl. len_simpl. fold a.
      intros Hs' Ht Hg Ha Hold.
      split; [done|]. split; [exact Hs'|].
      eexists _, _, _. split; [exact Ht|]. split; [apply lookup_insert_eq|].
      split; [exact Hg|]. unfold with_child. cbv zeta.
      cbn [last_occupancy da_wrapper w_child_dict w_id selected_child dict_set].
      rewrite (occupancy_selects _ Hocc).
      cbn [da_wrapper selected_child w_child_dict].
      split; [by exists a, (flag_disorder xa)|].
      constructor; [|constructor]. split; [done|]. cbn [snd]. rewrite Ha.
      unfold flag_disorder, disordered_atom_of, xa. cbn. by rewrite Hn, Hf.
Qed.

Lemma add_atom_next b ra t name fullname seen rec :
  holds_alternates b ra t name fullname seen →
  alternates name fullname rec →
  rec_altloc rec ∉ rec_altloc <$> seen →
  ∃ b', add_atom rec b = (Ret tt, b')
        ∧ holds_alternates b' ra t name fullname (seen ++ [rec]).
Proof.
  intros (Hres & Hs & r & g & d & Hr & Hname & Hg & (s & xs & Hsel & Hxs & Hfs) & Hkids)
         (Hn & Hf & Halt & Hpqr & Hocc) Hfresh.
  set (xa := mkAtom name (rec_coord rec) (Some (rec_b_factor rec)) (Some (rec_occupancy rec))
               (rec_altloc rec) fullname (rec_serial_number rec) (rec_element rec)
               None None name false).
  set (a := length (mem b)).
  pose proof (lookup_lt_Some _ _ _ Hr) as Htlt.
  pose proof (lookup_lt_Some _ _ _ Hg) as Hglt.
  pose proof (lookup_lt_Some _ _ _ Hxs) as Hslt.
  assert (g ≠ t) as Hgt by (intros ->; congruence).
  assert (s ≠ g) as Hsg by (intros ->; congruence).
  assert ((w_child_dict (da_wrapper d)).*1 = rec_altloc <$> seen) as Hkeys.
  { clear -Hkids. induction Hkids as [|rec' item seen' dict' [E _] _ IH]; [done|].
    cbn. by rewrite E, IH. }
  eexists. split.
  - unfold add_atom, init_atom. rewrite Hres, Hn, Hf, Hpqr.
    erewrite bind_Ret.
    2:{ erewrite disambiguate_present; [|exact Hs|exact Hr|exact Hname|].
        2:{ by eapply atom_get_fullname_group. }
        rewrite Hfs. rewrite decide_False by (by intros ?). reflexivity. }
    cbn [negb]. unfold new_Atom, alloc.
    erewrite bind_Ret by (apply on_heap_eq; reflexivity).
    unfold modify at 1. erewrite bind_Ret by reflexivity.
    fold a xa.
    erewrite (place_atom_in_group _ ra t r name (rec_altloc rec) a xa (rec_occupancy rec) g d);
      [reflexivity|state_simpl..|reflexivity|exact Halt].
    + by apply serves_alloc.
    + by apply lookup_alloc_old.
    + exact Hname.
    + by apply lookup_alloc_old.
    + apply lookup_alloc_new.
  - unfold holds_alternates. state_simpl. fold a.
    split; [done|]. split.
    { eapply serves_store_disordered_atom; [|heap_lookup; exact Hg].
      eapply serves_store_atom; [|heap_lookup; reflexivity].
      by apply serves_alloc. }
    exists r, g, (with_child d (rec_altloc rec) a (rec_occupancy rec)).
    split; [heap_lookup; exact Hr|]. split; [exact Hname|].
    split; [heap_lookup; reflexivity|]. split.
    + unfold with_child. cbv zeta. destruct (negb _); cbn [da_wrapper selected_child].
      * exists a, (flag_disorder xa). split; [done|]. split; [heap_lookup; reflexivity|done].
      * exists s, xs. split; [done|]. split; [heap_lookup; exact Hxs|done].
    + rewrite with_child_dict, dict_set_fresh by (apply dict_get_None; by rewrite Hkeys).
      apply Forall2_app.
      * eapply Forall2_impl; [exact Hkids|]. intros rec' [alt i] [E Hi]. split; [done|].
        cbn [snd] in *. pose proof (lookup_lt_Some _ _ _ Hi).
        assert (i ≠ g) by (intros ->; congruence). heap_lookup. exact Hi.
      * constructor; [|constructor]. split; [done|]. cbn [snd]. heap_lookup.
        unfold flag_disorder, disordered_atom_of, xa. cbn. by rewrite Hn, Hf.
Qed.

Lemma add_atoms_alternates b ra t name fullname seen rest :
  holds_alternates b ra t name fullname seen →
  Forall (alternates name fullname) rest →
  NoDup (rec_altloc <$> (seen ++ rest)) →
  ∃ b', add_atoms rest b = (Ret tt, b')
        ∧ holds_alternates b' ra t name fullname (seen ++ rest).
Proof.
  revert b seen. induction rest as [|rec rest IH]; intros b seen Hinv Hall Hnd.
  - exists b. split; [done|]. by rewrite app_nil_r.
  - apply Forall_cons in Hall as [Hrec Hall].
    destruct (add_atom_next _ _ _ _ _ _ _ Hinv Hrec) as (b1 & Hrun1 & Hinv1).
    { rewrite fmap_app, fmap_cons in Hnd. apply NoDup_app in Hnd as (_ & Hdis & _).
      intros Hin. apply (Hdis _ Hin). left. }
    destruct (IH b1 (seen ++ [rec]) Hinv1 Hall) as (b' & Hrun & Hinv').
    { by rewrite <- app_assoc. }
    exists b'. split; [|by rewrite <- app_assoc in Hinv'].
    unfold add_atoms. cbn [for_each]. erewrite bind_Ret by exact Hrun1. exact Hrun.
Qed.

Lemma add_atoms_run f recs b b' :
  add_atoms recs b = (Ret tt, b') → run f b (atom_event <$> recs) = b'.
Proof.
  revert b. induction recs as [|rec recs IH]; intros b Hrun.
  - unfold add_atoms in Hrun. cbn [for_each] in Hrun. unfold ret in Hrun. by simplify_eq.
  - rewrite fmap_cons, run_cons. cbn [handle]. unfold add_atoms in Hrun.
    cbn [for_each] in Hrun. unfold bind in Hrun.
    destruct (add_atom rec b) as [[[]|e] b1]; [|done]. by apply IH.
Qed.



(** ** The finishing pass (C5) *)

Lemma dict_get_NoDup {K V} `{EqDecision K} (d : list (K * V)) k v :
  NoDup d.*1 → (k, v) ∈ d → dict_get d k = Some v.
Proof.
  induction d as [|[k' v'] d IH]; intros Hnd Hin; [by apply elem_of_nil in Hin|].
  cbn in Hnd. apply NoDup_cons in Hnd as [Hk' Hnd]. cbn [dict_get].
  apply elem_of_cons in Hin as [E|Hin].
  - simplify_eq. by rewrite decide_True.
  - rewrite decide_False; [by apply IH|].
    intros ->. apply Hk'. apply list_elem_of_fmap. by exists (k, v).
Qed.

Lemma last_filter_snoc {A} (P : A → Prop) `{∀ x, Decision (P x)} (l : list A) x :
  last (filter P (l ++ [x])) = if decide (P x) then Some x else last (filter P l).
Proof.
  rewrite filter_app. cbn [filter list_filter].
  destruct (decide (P x)).
  - by rewrite last_snoc.
  - by rewrite app_nil_r.
Qed.

(** The selection loop of [reset_disordered_res], from any point on; [h0] is
    the store the pass started from. *)
Lemma reset_loop h0 h g id dict seen rest sel :
  h !! g = Some (ODisorderedResidue (mkWrapper id dict sel)) →
  dict = seen ++ rest →
  NoDup dict.*1 →
  Forall (λ item, ∃ r, h0 !! snd item = Some (OResidue r)
                       ∧ h !! snd item = Some (OResidue r)) dict →
  for_each rest (fun item =>
    let* child_residue := load_residue (snd item) in
    if decide (residue_id child_residue = id) then disordered_select g (fst item)
    else ret tt) h
  = (Ret tt,
     <[g := ODisorderedResidue
              (mkWrapper id dict
                 (match last (filter (λ item, node_id h0 (snd item) = Some id) rest) with
                  | Some item => Some (snd item)
                  | None => sel
                  end))]> h).
Proof.
  revert h seen sel. induction rest as [|[nm a] rest IH]; intros h seen sel Hg Hdict Hnd Hkids.
  - cbn [for_each]. unfold ret. by rewrite list_insert_id.
  - assert ((nm, a) ∈ dict) as Hin by (subst dict; apply elem_of_app; right; left).
    destruct (proj1 (Forall_forall _ _) Hkids _ Hin) as (r & Hr0 & Hr). cbn [snd fst] in *.
    assert (a ≠ g) as Hag by (intros ->; congruence).
    cbn [for_each]. unfold bind at 1.
    erewrite bind_Ret by (by apply load_residue_eq). cbn [snd fst].
    rewrite filter_cons. cbn [snd].
    assert (node_id h0 a = Some (residue_id r)) as Hn by (unfold node_id; by rewrite Hr0).
    destruct (decide (residue_id r = id)) as [Hid|Hid].
    + assert (disordered_select g nm h
              = (Ret tt, <[g := ODisorderedResidue (mkWrapper id dict (Some a))]> h)) as Hsel.
      { unfold disordered_select.
        erewrite bind_Ret by (by apply load_disordered_residue_eq).
        cbn [w_child_dict w_id]. by rewrite (dict_get_NoDup _ _ _ Hnd Hin). }
      rewrite Hsel. rewrite decide_True by (by rewrite Hn, Hid).
      rewrite (IH (<[g := ODisorderedResidue (mkWrapper id dict (Some a))]> h)
                  (seen ++ [(nm, a)]) (Some a)).
      * rewrite list_insert_insert_eq, last_cons. by destruct (last _).
      * by eapply lookup_store_eq.
      * by rewrite <- app_assoc.
      * done.
      * eapply Forall_impl; [exact Hkids|].
        intros [nm' a'] (r' & Hr0' & Hr'). exists r'. cbn [snd] in *. split; [done|].
        rewrite list_lookup_insert_ne; [done|]. intros <-. congruence.
    + unfold ret at 1. rewrite decide_False by (rewrite Hn; intros E; by simplify_eq).
      eapply (IH h (seen ++ [(nm, a)]) sel); [done|by rewrite <- app_assoc|done|done].
Qed.

Lemma reset_disordered_res_eq h g d :
  h !! g = Some (ODisorderedResidue d) → group_ok h d →
  reset_disordered_res g h
  = (Ret tt, <[g := ODisorderedResidue
                      (mkWrapper (w_id d) (w_child_dict d) (default_child h d))]> h).
Proof.
  intros Hg [Hnd Hkids]. unfold reset_disordered_res.
  erewrite bind_Ret by (by apply load_disordered_residue_eq).
  destruct d as [id dict sel]. cbn [w_id w_child_dict] in *.
  erewrite (reset_loop h h g id dict [] dict sel); [done|done|done|done|].
  eapply Forall_impl; [exact Hkids|]. intros item [r Hr]. by exists r.
Qed.

Lemma filter_ext_in {A} (P1 P2 : A → Prop) `{∀ x, Decision (P1 x)} `{∀ x, Decision (P2 x)}
    (l : list A) :
  (∀ x, x ∈ l → (P1 x ↔ P2 x)) → filter P1 l = filter P2 l.
Proof.
  induction l as [|x l IH]; intros Hl; [done|].
  rewrite !filter_cons. rewrite IH by (intros y Hy; apply Hl; by right).
  destruct (decide (P1 x)) as [H1|H1], (decide (P2 x)) as [H2|H2]; try done.
  - exfalso. apply H2, Hl; [left|done].
  - exfalso. apply H1, Hl; [left|done].
Qed.

Lemma midway_residue h0 h a r :
  midway h0 h → h0 !! a = Some (OResidue r) → h !! a = Some (OResidue r).
Proof. intros Hm Ha. destruct (Hm a) as [E|(d & E & _)]; congruence. Qed.

Lemma midway_finished h0 h g d d' :
  midway h0 h → group_ok h0 d →
  h0 !! g = Some (ODisorderedResidue d) → h !! g = Some (ODisorderedResidue d') →
  group_ok h d' ∧ finished h d' = finished h0 d.
Proof.
  intros Hm [Hnd Hkids] Hg0 Hg. destruct d as [id dict sel].
  cbn [w_child_dict] in Hnd, Hkids.
  assert (Forall (λ item, ∃ r, h0 !! snd item = Some (OResidue r)
                               ∧ h !! snd item = Some (OResidue r)) dict) as Hboth.
  { eapply Forall_impl; [exact Hkids|]. intros item [r Hr]. exists r.
    split; [done|by eapply midway_residue]. }
  assert (∀ sel', own_id_children h (mkWrapper id dict sel')
                  = own_id_children h0 (mkWrapper id dict sel)) as Hown.
  { intros sel'. unfold own_id_children. cbn [w_id w_child_dict].
    apply filter_ext_in. intros item Hin.
    destruct (proj1 (Forall_forall _ _) Hboth _ Hin) as (r & Hr0 & Hr).
    unfold node_id. by rewrite Hr0, Hr. }
  assert (Forall (λ item, ∃ r, h !! snd item = Some (OResidue r)) dict) as Hkids'.
  { eapply Forall_impl; [exact Hboth|]. intros item (r & _ & Hr). by exists r. }
  assert (d' = mkWrapper id dict sel ∨ d' = finished h0 (mkWrapper id dict sel)) as [->| ->].
  { destruct (Hm g) as [E|(d0 & E0 & E)]; [left; congruence|right].
    rewrite Hg0 in E0. rewrite Hg in E. by simplify_eq. }
  - split; [by split|]. unfold finished, default_child. cbn [w_id w_child_dict selected_child].
    by rewrite Hown.
  - split; [by split|]. unfold finished, default_child.
    cbn [w_id w_child_dict selected_child]. rewrite Hown. f_equal. by destruct (last _).
Qed.

Lemma finish_loop h0 h l :
  midway h0 h →
  Forall (λ a, is_Some (h0 !! a)
               ∧ ∀ d, h0 !! a = Some (ODisorderedResidue d) → group_ok h0 d) l →
  ∃ h',
    for_each l (fun res =>
      let* o := load res in
      match o with
      | ODisorderedResidue _ => reset_disordered_res res
      | _ => ret tt
      end) h = (Ret tt, h')
    ∧ midway h0 h'
    ∧ (∀ g d, h0 !! g = Some (ODisorderedResidue d) →
              h !! g = Some (ODisorderedResidue (finished h0 d)) →
              h' !! g = Some (ODisorderedResidue (finished h0 d)))
    ∧ (∀ g d, g ∈ l → h0 !! g = Some (ODisorderedResidue d) →
              h' !! g = Some (ODisorderedResidue (finished h0 d)))
    ∧ (∀ a, a ∉ l → h' !! a = h !! a).
Proof.
  revert h. induction l as [|x l IH]; intros h Hm Hl.
  - exists h. split; [done|]. split; [done|]. split; [done|].
    split; [|done]. intros g d Hin. by apply elem_of_nil in Hin.
  - apply Forall_cons in Hl as [[[o0 Hx0] Hgrp] Hl].
    assert (∃ h1, (let* o := load x in
                   match o with
                   | ODisorderedResidue _ => reset_disordered_res x
                   | _ => ret tt
                   end) h = (Ret tt, h1)
                  ∧ midway h0 h1
                  ∧ (∀ g d, h0 !! g = Some (ODisorderedResidue d) →
                            h !! g = Some (ODisorderedResidue (finished h0 d)) →
                            h1 !! g = Some (ODisorderedResidue (finished h0 d)))
                  ∧ (∀ d, h0 !! x = Some (ODisorderedResidue d) →
                          h1 !! x = Some (ODisorderedResidue (finished h0 d)))
                  ∧ (∀ a, a ≠ x → h1 !! a = h !! a))
      as (h1 & Hrun1 & Hm1 & Hkeep1 & Hx1 & Hoth1).
    { destruct (Hm x) as [E|(d & E0 & E)].
      - rewrite Hx0 in E. destruct o0 as [| | |d| | |];
          try (exists h; split; [by rewrite (bind_Ret _ _ _ _ _ (load_eq _ _ _ E))|];
               split; [done|]; split; [done|]; split; [intros d' Hd'; congruence|done]).
        destruct (midway_finished h0 h x d d Hm (Hgrp _ Hx0) Hx0 E) as [Hok Hfin].
        eexists. split.
        { rewrite (bind_Ret _ _ _ _ _ (load_eq _ _ _ E)).
          rewrite (reset_disordered_res_eq _ _ _ E Hok). reflexivity. }
        fold (finished h d). rewrite Hfin.
        split; [|split; [|split]].
        + intros a. destruct (decide (a = x)) as [->|Hne].
          * right. exists d. split; [done|]. by eapply lookup_store_eq.
          * rewrite list_lookup_insert_ne by done. apply Hm.
        + intros g d' Hg0 Hg. destruct (decide (g = x)) as [->|Hne].
          * rewrite Hx0 in Hg0. simplify_eq. by eapply lookup_store_eq.
          * by rewrite list_lookup_insert_ne.
        + intros d' Hd'. rewrite Hx0 in Hd'. simplify_eq. by eapply lookup_store_eq.
        + intros a Hne. by rewrite list_lookup_insert_ne.
      - destruct (midway_finished h0 h x d _ Hm (Hgrp _ E0) E0 E) as [Hok Hfin].
        eexists. split.
        { rewrite (bind_Ret _ _ _ _ _ (load_eq _ _ _ E)).
          rewrite (reset_disordered_res_eq _ _ _ E Hok). reflexivity. }
        fold (finished h (finished h0 d)). rewrite Hfin.
        split; [|split; [|split]].
        + intros a. destruct (decide (a = x)) as [->|Hne].
          * right. exists d. split; [done|]. by eapply lookup_store_eq.
          * rewrite list_lookup_insert_ne by done. apply Hm.
        + intros g d' Hg0 Hg. destruct (decide (g = x)) as [->|Hne].
          * rewrite E0 in Hg0. simplify_eq. by eapply lookup_store_eq.
          * by rewrite list_lookup_insert_ne.
        + intros d' Hd'. rewrite E0 in Hd'. simplify_eq. by eapply lookup_store_eq.
        + intros a Hne. by rewrite list_lookup_insert_ne. }
    destruct (IH h1 Hm1 Hl) as (h' & Hrun & Hm' & Hkeep & Hdone & Hoth).
    exists h'. split; [|split; [done|split; [|split]]].
    + cbn [for_each]. by erewrite bind_Ret by exact Hrun1.
    + intros g d Hg0 Hg. eapply Hkeep; [done|]. by eapply Hkeep1.
    + intros g d [->|Hin]%elem_of_cons Hg0.
      * eapply Hkeep; [done|]. by apply Hx1.
      * by eapply Hdone.
    + intros a [Hne Hnin]%not_elem_of_cons. rewrite Hoth by done. by apply Hoth1.
Qed.

(** C5, as amended.  [finish_chain_construction] returns normally and
    resets every DisorderedResidue of the chain, whatever was selected
    before and however that selection came about: a group with a child
    carrying the group's own identifier ends with the last such child (in
    insertion order) selected; a group without such a child keeps its
    selection.  Nothing else in the store changes, and the outcome is a
    function of the input state. *)
Theorem C5_finishing_pass_selection b c ch :
  chain b = Some c →
  mem b !! c = Some (OChain ch) →
  children_ok (mem b) ch →
  ∃ h',
    finish_chain_construction b = (Ret tt, set_mem h' b)
    ∧ (∀ g d, g ∈ child_list (chain_entity ch) →
              mem b !! g = Some (ODisorderedResidue d) →
              h' !! g = Some (ODisorderedResidue (finished (mem b) d))
              ∧ w_child_dict (finished (mem b) d) = w_child_dict d
              ∧ (∀ item, last (own_id_children (mem b) d) = Some item →
                         selected_child (finished (mem b) d) = Some (snd item)
                         ∧ node_id (mem b) (snd item) = Some (w_id d))
              ∧ (own_id_children (mem b) d = [] →
                 selected_child (finished (mem b) d) = selected_child d))
    ∧ (∀ a, a ∉ child_list (chain_entity ch) → h' !! a = mem b !! a)
    ∧ (∀ a o, mem b !! a = Some o → (∀ d, o ≠ ODisorderedResidue d) → h' !! a = Some o).
Proof.
  intros Hc Hch Hok.
  destruct (finish_loop (mem b) (mem b) (child_list (chain_entity ch)))
    as (h' & Hrun & Hm & _ & Hdone & Hoth); [by left|exact Hok|].
  assert (∀ a o, mem b !! a = Some o → (∀ d, o ≠ ODisorderedResidue d) → h' !! a = Some o)
    as Hsame.
  { intros a o Ha Ho. destruct (Hm a) as [E|(d & E0 & _)]; [congruence|].
    rewrite Ha in E0. simplify_eq. by destruct (Ho d). }
  exists h'. split; [|split; [|split; [exact Hoth|exact Hsame]]].
  - unfold finish_chain_construction. rewrite Hc.
    erewrite on_heap_eq; [reflexivity|].
    erewrite bind_Ret by (by apply load_chain_eq).
    erewrite bind_Ret by exact Hrun.
    unfold PeptideChain_update.
    erewrite bind_Ret; [reflexivity|]. apply load_chain_eq. by apply Hsame.
  - intros g d Hin Hg. split; [by eapply Hdone|]. split; [done|]. split.
    + intros item Hlast. unfold finished, default_child. cbn [selected_child].
      rewrite Hlast. split; [done|].
      apply last_Some_elem_of in Hlast. unfold own_id_children in Hlast.
      by apply list_elem_of_filter in Hlast as [? _].
    + intros Hnone. unfold finished, default_child. cbn [selected_child]. by rewrite Hnone.
Qed.

(** After ALA, SER and ALA again at one key, ALA is the selected child: the
    third [begin_residue] selected it (SER was selected before it).  The
    finishing pass does not keep that selection; it leaves SER selected. *)
Lemma C5_counterexample :
  ∃ before grp b' grp',
    mem (run find_het_by_seq_model new_Builder
           (opening ++ [begin_residue "ALA" " " 1 " "; atom_event (CA "A");
                        begin_residue "SER" " " 1 " "; atom_event (CA "A")])) !! 7%nat
    = Some (ODisorderedResidue before)
    ∧ selected_child before = Some 6%nat
    ∧ mem ala_ser_ala !! 7%nat = Some (ODisorderedResidue grp)
    ∧ w_child_dict grp = [("ALA", 3%nat); ("SER", 6%nat)]
    ∧ selected_child grp = Some 3%nat
    ∧ finish_chain_construction ala_ser_ala = (Ret tt, b')
    ∧ mem b' !! 7%nat = Some (ODisorderedResidue grp')
    ∧ selected_child grp' = Some 6%nat.
Proof.
  eexists _, _, _, _.
  split; [vm_compute; reflexivity|]. split; [reflexivity|].
  split; [vm_compute; reflexivity|]. split; [reflexivity|]. split; [reflexivity|].
  split; [vm_compute; reflexivity|]. split; [vm_compute; reflexivity|reflexivity].
Qed.

Lemma C5_witness :
  ∃ h', finish_chain_construction ala_ser_ala = (Ret tt, set_mem h' ala_ser_ala)
        ∧ h' !! 7%nat
          = Some (ODisorderedResidue
                    (mkWrapper (" ", 1, " ") [("ALA", 3%nat); ("SER", 6%nat)] (Some 6%nat))).
Proof.
  destruct (C5_finishing_pass_selection ala_ser_ala 2%nat
              (mkChain "A" (mkEntity [7%nat] (<[(" ", 1, " "):=7%nat]> ∅))))
    as (h' & Hrun & Hgroups & _).
  - reflexivity.
  - vm_compute. reflexivity.
  - constructor; [|constructor]. split; [vm_compute; eauto|].
    intros d Hd. vm_compute in Hd. simplify_eq. split; [compute_done|].
    cbn [w_child_dict]. repeat constructor; eexists; vm_compute; reflexivity.
  - exists h'. split; [exact Hrun|].
    destruct (Hgroups 7%nat (mkWrapper (" ", 1, " ") [("ALA", 3%nat); ("SER", 6%nat)]
                                (Some 3%nat))) as (Hg & _).
    + apply list_elem_of_singleton. reflexivity.
    + vm_compute. reflexivity.
    + rewrite Hg. vm_compute. reflexivity.
Defined.

(** ** Uniqueness of residue keys (C6) *)

Lemma same_nodes_refl h : same_nodes h h.
Proof. split; [intros a o Ha; by exists o|intros a o' Ha Hn; congruence]. Qed.

Lemma same_nodes_trans h1 h2 h3 : same_nodes h1 h2 → same_nodes h2 h3 → same_nodes h1 h3.
Proof.
  intros [H12 N12] [H23 N23]. split.
  - intros a o Ha. destruct (H12 _ _ Ha) as (o2 & Ha2 & E2).
    destruct (H23 _ _ Ha2) as (o3 & Ha3 & E3). exists o3. split; [done|congruence].
  - intros a o3 Ha3 Hn. destruct (h2 !! a) as [o2|] eqn:Ha2.
    + destruct (H23 _ _ Ha2) as (o3' & Ha3' & E3). simplify_eq.
      rewrite E3. by eapply N12.
    + by eapply N23.
Qed.

Lemma same_nodes_store h a o o' :
  h !! a = Some o → footprint o' = footprint o → same_nodes h (<[a:=o']> h).
Proof.
  intros Ha E. split.
  - intros i oi Hi. destruct (decide (a = i)) as [->|Hne].
    + exists o'. split; [by eapply lookup_store_eq|congruence].
    + exists oi. split; [by rewrite list_lookup_insert_ne|done].
  - intros i oi Hi Hn. destruct (decide (a = i)) as [->|Hne]; [congruence|].
    rewrite list_lookup_insert_ne in Hi by done. congruence.
Qed.

Lemma same_nodes_alloc h o : snd (footprint o) = None → same_nodes h (h ++ [o]).
Proof.
  intros E. split.
  - intros i oi Hi. exists oi. split; [by apply lookup_alloc_old|done].
  - intros i oi Hi Hn. apply lookup_ge_None in Hn.
    apply lookup_app_Some in Hi as [Hi|[_ Hi]].
    + apply lookup_lt_Some in Hi. lia.
    + apply list_lookup_singleton_Some in Hi as [_ <-]. exact E.
Qed.

Lemma same_nodes_node_id h h' a k :
  same_nodes h h' → node_id h a = Some k → node_id h' a = Some k.
Proof.
  intros [Hs _]. unfold node_id. destruct (h !! a) as [o|] eqn:Ha; [|done].
  destruct (Hs _ _ Ha) as (o' & -> & E).
  destruct o, o'; cbn in E; try done; intros; congruence.
Qed.

Lemma same_nodes_chain h h' c ch :
  same_nodes h h' → h' !! c = Some (OChain ch) → h !! c = Some (OChain ch).
Proof.
  intros [Hs Hn] Hc. destruct (h !! c) as [o|] eqn:Ho.
  - destruct (Hs _ _ Ho) as (o' & Hc' & E). simplify_eq.
    destruct o; cbn in E; congruence.
  - by specialize (Hn _ _ Hc Ho).
Qed.

Lemma heap_ok_same_nodes h h' : heap_ok h → same_nodes h h' → heap_ok h'.
Proof.
  intros Hok Hs c ch Hc. pose proof (same_nodes_chain _ _ _ _ Hs Hc) as Hc0.
  destruct (Hok _ _ Hc0) as (Hnd & Hlist & Hdict). split; [done|]. split.
  - intros a Ha. destruct (Hlist _ Ha) as (k & Hk & Hd). exists k.
    split; [by eapply same_nodes_node_id|done].
  - intros k a Hd. destruct (Hdict _ _ Hd) as [Ha Hk].
    split; [done|by eapply same_nodes_node_id].
Qed.

Ltac quiet_leaf :=
  repeat match goal with
  | |- same_nodes ?h ?h => apply same_nodes_refl
  | |- same_nodes ?h (<[?a:=?o]> ?x) =>
      apply (same_nodes_trans h x);
      [|eapply same_nodes_store;
          [first [eassumption|eapply lookup_store_eq; eassumption]|reflexivity]]
  | |- same_nodes ?h (?x ++ [?o]) =>
      apply (same_nodes_trans h x); [|apply same_nodes_alloc; reflexivity]
  end.

Ltac explore :=
  repeat (cbn beta iota; cbn [fst snd];
          match goal with
          | |- same_nodes _ _ => progress quiet_leaf
          | |- context [match ?h !! ?a with _ => _ end] => destruct (h !! a) as [[]|] eqn:?
          | |- context [if ?c then _ else _] => destruct c eqn:?
          | |- context [match ?x with _ => _ end] =>
              lazymatch type of x with
              | prod _ _ => fail
              | _ => destruct x eqn:?
              end
          end).

Lemma quiet_bind {A B} (m : ST heap A) (f : A → ST heap B) :
  quiet m → (∀ a, quiet (f a)) → quiet (bind m f).
Proof.
  intros Hm Hf h. unfold bind. specialize (Hm h).
  destruct (m h) as [[a|e] h1]; cbn [snd] in *; [|done].
  eapply same_nodes_trans; [exact Hm|apply Hf].
Qed.

Lemma quiet_ret {A} (a : A) : quiet (ret a).
Proof. intros h. apply same_nodes_refl. Qed.

Lemma quiet_raise {A} e : quiet (@raise heap A e).
Proof. intros h. apply same_nodes_refl. Qed.

Lemma quiet_of_outcome {A} (o : outcome A) : quiet (of_outcome o).
Proof. intros h. apply same_nodes_refl. Qed.

Lemma quiet_load a : quiet (load a).
Proof. intros h. unfold load. destruct (h !! a); apply same_nodes_refl. Qed.

Lemma quiet_for_each {A} (l : list A) body :
  (∀ x, quiet (body x)) → quiet (for_each l body).
Proof.
  intros Hb. induction l as [|x l IH]; cbn [for_each]; [apply quiet_ret|].
  apply quiet_bind; [apply Hb|by intros _].
Qed.

(** Methods that only read. *)
Ltac quiet_read :=
  repeat first
    [ apply quiet_ret | apply quiet_raise | apply quiet_of_outcome | apply quiet_load
    | apply quiet_bind; [|intros ?]
    | match goal with
      | |- quiet (if ?c then _ else _) => destruct c
      | |- quiet (match ?c with _ => _ end) => destruct c
      end ].

Lemma quiet_load_atom a : quiet (load_atom a).
Proof. unfold load_atom. quiet_read. Qed.
Lemma quiet_load_disordered_atom a : quiet (load_disordered_atom a).
Proof. unfold load_disordered_atom. quiet_read. Qed.
Lemma quiet_load_residue a : quiet (load_residue a).
Proof. unfold load_residue. quiet_read. Qed.
Lemma quiet_load_disordered_residue a : quiet (load_disordered_residue a).
Proof. unfold load_disordered_residue. quiet_read. Qed.
Lemma quiet_load_chain a : quiet (load_chain a).
Proof. unfold load_chain. quiet_read. Qed.
Lemma quiet_load_model a : quiet (load_model a).
Proof. unfold load_model. quiet_read. Qed.
Lemma quiet_load_structure a : quiet (load_structure a).
Proof. unfold load_structure. quiet_read. Qed.

Lemma quiet_as_residue a : quiet (as_residue a).
Proof. unfold as_residue, selected. quiet_read. Qed.
Lemma quiet_atom_is_disordered a : quiet (atom_is_disordered a).
Proof. unfold atom_is_disordered. quiet_read. Qed.
Lemma quiet_atom_get_id a : quiet (atom_get_id a).
Proof. unfold atom_get_id. quiet_read. Qed.
Lemma quiet_residue_get_id a : quiet (residue_get_id a).
Proof. unfold residue_get_id. quiet_read. Qed.

Lemma quiet_atom_get_fullname a : quiet (atom_get_fullname a).
Proof.
  unfold atom_get_fullname, selected. quiet_read; apply quiet_load_atom || idtac.
Qed.

Lemma quiet_Residue_has_id a name : quiet (Residue_has_id a name).
Proof.
  unfold Residue_has_id. apply quiet_bind; [apply quiet_as_residue|intros t].
  apply quiet_bind; [apply quiet_load_residue|intros r]. apply quiet_ret.
Qed.

Lemma quiet_Residue_getitem a name : quiet (Residue_getitem a name).
Proof.
  unfold Residue_getitem. apply quiet_bind; [apply quiet_as_residue|intros t].
  apply quiet_bind; [apply quiet_load_residue|intros r]. apply quiet_of_outcome.
Qed.

Lemma quiet_residue_is_disordered a : quiet (residue_is_disordered a).
Proof. unfold residue_is_disordered. quiet_read. Qed.

Lemma quiet_disordered_has_id g name : quiet (disordered_has_id g name).
Proof.
  unfold disordered_has_id. apply quiet_bind; [apply quiet_load_disordered_residue|].
  intros d. apply quiet_ret.
Qed.

Lemma quiet_unpack l : quiet (unpack l).
Proof.
  induction l as [|x l IH]; cbn [unpack]; [apply quiet_ret|].
  apply quiet_bind; [apply quiet_atom_is_disordered|intros flag].
  apply quiet_bind.
  - destruct (negb _); [|apply quiet_ret].
    apply quiet_bind; [apply quiet_load_disordered_atom|intros d; apply quiet_ret].
  - intros here. apply quiet_bind; [exact IH|intros rest; apply quiet_ret].
Qed.

Lemma quiet_no_blank_altloc l : quiet (no_blank_altloc l).
Proof.
  induction l as [|x l IH]; cbn [no_blank_altloc]; [apply quiet_ret|].
  apply quiet_bind; [apply quiet_load_atom|intros a].
  destruct (decide _); [apply quiet_ret|exact IH].
Qed.

Lemma quiet_is_completely_disordered r : quiet (_is_completely_disordered r).
Proof.
  unfold _is_completely_disordered, get_unpacked_list.
  apply quiet_bind; [|intros l; apply quiet_no_blank_altloc].
  apply quiet_bind; [apply quiet_as_residue|intros t].
  apply quiet_bind; [apply quiet_load_residue|intros x]. apply quiet_unpack.
Qed.

Lemma quiet_Chain_has_id c k : quiet (Chain_has_id c k).
Proof.
  unfold Chain_has_id. apply quiet_bind; [apply quiet_load_chain|intros ch; apply quiet_ret].
Qed.

Lemma quiet_Chain_getitem c k : quiet (Chain_getitem c k).
Proof.
  unfold Chain_getitem.
  apply quiet_bind; [apply quiet_load_chain|intros ch; apply quiet_of_outcome].
Qed.

Lemma quiet_Model_has_id c k : quiet (Model_has_id c k).
Proof.
  unfold Model_has_id. apply quiet_bind; [apply quiet_load_model|intros ch; apply quiet_ret].
Qed.

Lemma quiet_Model_getitem c k : quiet (Model_getitem c k).
Proof.
  unfold Model_getitem.
  apply quiet_bind; [apply quiet_load_model|intros ch; apply quiet_of_outcome].
Qed.

Lemma quiet_PeptideChain_update c : quiet (PeptideChain_update c).
Proof.
  unfold PeptideChain_update.
  apply quiet_bind; [apply quiet_load_chain|intros ch; apply quiet_ret].
Qed.

Lemma quiet_alloc o : snd (footprint o) = None → quiet (alloc o).
Proof. intros E h. unfold alloc. cbn [snd]. by apply same_nodes_alloc. Qed.

(** Methods that write to objects other than chains. *)
Lemma quiet_DisorderedAtom_disordered_add g a : quiet (DisorderedAtom_disordered_add g a).
Proof. intros h. unfold DisorderedAtom_disordered_add. unfold_monad. explore. Qed.

Lemma quiet_Residue_detach_child a name : quiet (Residue_detach_child a name).
Proof.
  intros h. unfold Residue_detach_child, as_residue, Entity_detach_child.
  unfold_monad. explore.
Qed.

Lemma quiet_Residue_flag_disordered a : quiet (Residue_flag_disordered a).
Proof. intros h. unfold Residue_flag_disordered, as_residue. unfold_monad. explore. Qed.

Lemma quiet_plain_Residue_add t child : quiet (plain_Residue_add t child).
Proof.
  intros h. unfold plain_Residue_add, atom_get_id, Entity_add. unfold_monad. explore.
Qed.

Lemma quiet_DisorderedResidue_add g child : quiet (DisorderedResidue_add g child).
Proof.
  unfold DisorderedResidue_add.
  apply quiet_bind; [apply quiet_load_disordered_residue|intros d].
  apply quiet_bind; [unfold selected; quiet_read|intros t].
  apply quiet_bind; [apply quiet_atom_is_disordered|intros flag].
  destruct (negb _); [|apply quiet_plain_Residue_add].
  apply quiet_bind; [apply quiet_load_residue|intros r].
  apply quiet_bind; [apply quiet_plain_Residue_add|intros _].
  destruct (residue_id r) as [[? ?] ?]. apply quiet_raise.
Qed.

Lemma quiet_Residue_add a child : quiet (Residue_add a child).
Proof.
  unfold Residue_add. apply quiet_bind; [apply quiet_load|intros o].
  destruct o; try apply quiet_raise;
    [apply quiet_plain_Residue_add|apply quiet_DisorderedResidue_add].
Qed.

Lemma quiet_disordered_select g name : quiet (disordered_select g name).
Proof. intros h. unfold disordered_select. unfold_monad. explore. Qed.

Lemma quiet_DisorderedResidue_disordered_add g child :
  quiet (DisorderedResidue_disordered_add g child).
Proof.
  intros h. unfold DisorderedResidue_disordered_add, disordered_select.
  unfold_monad. explore.
Qed.

Lemma quiet_Model_add m child : quiet (Model_add m child).
Proof. intros h. unfold Model_add, Entity_add. unfold_monad. explore. Qed.

Lemma quiet_Structure_add s child : quiet (Structure_add s child).
Proof. intros h. unfold Structure_add, Entity_add. unfold_monad. explore. Qed.

Lemma quiet_reset_disordered_res g : quiet (reset_disordered_res g).
Proof.
  unfold reset_disordered_res.
  apply quiet_bind; [apply quiet_load_disordered_residue|intros d].
  apply quiet_for_each. intros item.
  apply quiet_bind; [apply quiet_load_residue|intros r].
  destruct (decide _); [apply quiet_disordered_select|apply quiet_ret].
Qed.

Lemma quiet_keeps {A} (m : ST heap A) : quiet m → keeps_chains m.
Proof. intros Hq h Hok. eapply heap_ok_same_nodes; [exact Hok|apply Hq]. Qed.

Lemma node_id_store_chain h c ch ch' a :
  h !! c = Some (OChain ch) → node_id (<[c:=OChain ch']> h) a = node_id h a.
Proof.
  intros Hc. unfold node_id. destruct (decide (c = a)) as [->|Hne].
  - rewrite (lookup_store_eq _ _ _ _ Hc). by rewrite Hc.
  - by rewrite list_lookup_insert_ne.
Qed.

Lemma chain_ok_node_ids h h' ch :
  (∀ a, node_id h' a = node_id h a) → chain_ok h ch → chain_ok h' ch.
Proof.
  intros Hid (Hnd & Hlist & Hdict). split; [done|]. split.
  - intros a Ha. destruct (Hlist _ Ha) as (k & Hk & Hd). exists k. by rewrite Hid.
  - intros k a Hd. destruct (Hdict _ _ Hd) as [Ha Hk]. by rewrite Hid.
Qed.

Lemma heap_ok_store_chain h c ch ch' :
  heap_ok h → h !! c = Some (OChain ch) → chain_ok h ch' →
  heap_ok (<[c:=OChain ch']> h).
Proof.
  intros Hok Hc Hch' c0 ch0 Hc0.
  apply (chain_ok_node_ids h); [intros a; by eapply node_id_store_chain|].
  destruct (decide (c = c0)) as [->|Hne].
  - rewrite (lookup_store_eq _ _ _ _ Hc) in Hc0. by simplify_eq.
  - rewrite list_lookup_insert_ne in Hc0 by done. exact (Hok _ _ Hc0).
Qed.

Lemma chain_ok_add h ch child k :
  chain_ok h ch → node_id h child = Some k →
  child_dict (chain_entity ch) !! k = None →
  chain_ok h (set_chain_entity ch
                (mkEntity (child_list (chain_entity ch) ++ [child])
                   (<[k:=child]> (child_dict (chain_entity ch))))).
Proof.
  intros (Hnd & Hlist & Hdict) Hid Hk. unfold chain_ok.
  cbn [set_chain_entity chain_entity child_list child_dict].
  assert (child ∉ child_list (chain_entity ch)) as Hnin.
  { intros Hin. destruct (Hlist _ Hin) as (k' & Hk' & Hd). congruence. }
  split; [|split].
  - apply NoDup_app. split; [done|]. split; [|apply NoDup_singleton].
    intros a Ha ->%list_elem_of_singleton. done.
  - intros a [Ha| ->%list_elem_of_singleton]%elem_of_app.
    + destruct (Hlist _ Ha) as (k' & Hk' & Hd). exists k'. split; [done|].
      rewrite lookup_insert_ne; [done|]. intros <-. congruence.
    + exists k. split; [done|apply lookup_insert_eq].
  - intros k' a [[<- <-]|[Hne Hd]]%lookup_insert_Some.
    + split; [apply elem_of_app; right; by apply list_elem_of_singleton|done].
    + destruct (Hdict _ _ Hd) as [Ha Hida]. split; [apply elem_of_app; by left|done].
Qed.

Lemma chain_ok_detach h ch k a l :
  chain_ok h ch →
  child_dict (chain_entity ch) !! k = Some a →
  list_remove a (child_list (chain_entity ch)) = Some l →
  chain_ok h (set_chain_entity ch (mkEntity l (delete k (child_dict (chain_entity ch))))).
Proof.
  intros (Hnd & Hlist & Hdict) Hk Hl. unfold chain_ok.
  cbn [set_chain_entity chain_entity child_list child_dict].
  destruct (list_remove_spec _ _ _ Hl Hnd) as [Hndl Hinl].
  destruct (Hdict _ _ Hk) as [Hin Hida].
  split; [done|]. split.
  - intros x [Hx Hxa]%Hinl. destruct (Hlist _ Hx) as (k' & Hk' & Hd). exists k'.
    split; [done|]. rewrite lookup_delete_ne; [done|]. intros <-. congruence.
  - intros k' x [Hne Hd]%lookup_delete_Some. destruct (Hdict _ _ Hd) as [Hx Hidx].
    split; [|done]. apply Hinl. split; [done|]. intros ->. congruence.
Qed.

Lemma set_chain_entity_id ch : set_chain_entity ch (chain_entity ch) = ch.
Proof. by destruct ch. Qed.

Lemma keeps_Chain_add c child : keeps_chains (Chain_add c child).
Proof.
  intros h Hok. unfold Chain_add.
  unfold bind at 1. destruct (residue_get_id child h) as [[k|e] h1] eqn:Hget.
  2:{ cbn [snd]. pose proof (quiet_residue_get_id child h) as Hq. rewrite Hget in Hq.
      by eapply heap_ok_same_nodes. }
  assert (h1 = h ∧ node_id h child = Some k) as [-> Hid].
  { revert Hget. unfold residue_get_id, node_id. unfold_monad.
    destruct (h !! child) as [[]|]; intros; by simplify_eq. }
  unfold load_chain. unfold_monad.
  destruct (h !! c) as [[| | | |ch| |]|] eqn:Hc; cbn beta iota; cbn [snd]; try exact Hok.
  unfold Entity_add. destruct (Entity_has_id (chain_entity ch) k) eqn:Hhas; cbn [fst snd].
  - rewrite set_chain_entity_id, list_insert_id by done. exact Hok.
  - eapply heap_ok_store_chain; [exact Hok|exact Hc|].
    apply chain_ok_add; [exact (Hok _ _ Hc)|done|].
    unfold Entity_has_id in Hhas. apply bool_decide_eq_false_1 in Hhas.
    destruct (child_dict (chain_entity ch) !! k) eqn:E; [|done]. exfalso. apply Hhas. eauto.
Qed.

Lemma keeps_Chain_detach_child c k : keeps_chains (Chain_detach_child c k).
Proof.
  intros h Hok. unfold Chain_detach_child, load_chain. unfold_monad.
  destruct (h !! c) as [[| | | |ch| |]|] eqn:Hc; cbn beta iota; cbn [snd]; try exact Hok.
  unfold Entity_detach_child.
  destruct (child_dict (chain_entity ch) !! k) as [a|] eqn:Hk; cbn [fst snd].
  - destruct (list_remove a (child_list (chain_entity ch))) as [l|] eqn:Hl; cbn [fst snd].
    + eapply heap_ok_store_chain; [exact Hok|exact Hc|].
      eapply chain_ok_detach; [exact (Hok _ _ Hc)|done|done].
    + exfalso. destruct (Hok _ _ Hc) as (_ & _ & Hdict).
      destruct (Hdict _ _ Hk) as [Hin _].
      destruct (list_remove_elem _ _ Hin) as [? ?]. congruence.
  - rewrite set_chain_entity_id, list_insert_id by done. exact Hok.
Qed.

Lemma node_id_alloc h o a k : node_id h a = Some k → node_id (h ++ [o]) a = Some k.
Proof.
  unfold node_id. destruct (h !! a) as [x|] eqn:Ha; [|done].
  by rewrite (lookup_alloc_old _ _ _ _ Ha).
Qed.

Lemma keeps_new_PeptideChain id : keeps_chains (new_PeptideChain id).
Proof.
  intros h Hok. unfold new_PeptideChain, alloc. cbn [snd]. intros c ch Hc.
  apply lookup_app_Some in Hc as [Hc|[_ Hc]].
  - destruct (Hok _ _ Hc) as (Hnd & Hlist & Hdict). split; [done|]. split.
    + intros a Ha. destruct (Hlist _ Ha) as (k & Hk & Hd). exists k.
      split; [by apply node_id_alloc|done].
    + intros k a Hd. destruct (Hdict _ _ Hd) as [Ha Hk].
      split; [done|by apply node_id_alloc].
  - apply list_lookup_singleton_Some in Hc as [_ Hc]. simplify_eq.
    unfold chain_ok, empty_entity. cbn [chain_entity child_list child_dict].
    split; [apply NoDup_nil_2|]. split.
    + intros a Ha. by apply elem_of_nil in Ha.
    + intros k a Hd. by rewrite lookup_empty in Hd.
Qed.

(** ** The builder keeps every chain well formed *)

Lemma preserves_bind {S A B} (P : S → Prop) (m : ST S A) (f : A → ST S B) :
  preserves P m → (∀ a, preserves P (f a)) → preserves P (bind m f).
Proof.
  intros Hm Hf s Hs. unfold bind. specialize (Hm s Hs).
  destruct (m s) as [[a|e] s']; cbn [snd] in *; [by apply Hf|done].
Qed.

Lemma preserves_ret {S A} (P : S → Prop) (a : A) : preserves P (ret a).
Proof. by intros s Hs. Qed.

Lemma preserves_raise {S A} (P : S → Prop) e : preserves P (@raise S A e).
Proof. by intros s Hs. Qed.

Lemma preserves_gets {S A} (P : S → Prop) (f : S → A) : preserves P (gets f).
Proof. by intros s Hs. Qed.

Lemma preserves_attr {A} (P : Builder → Prop) (f : Builder → option A) :
  preserves P (attr f).
Proof. intros s Hs. unfold attr. by destruct (f s). Qed.

Lemma preserves_warn w : preserves chains_ok (warn w).
Proof. by intros b Hb. Qed.

Lemma preserves_on_heap {A} (m : ST heap A) :
  keeps_chains m → preserves chains_ok (on_heap m).
Proof.
  intros Hm b Hb. unfold on_heap. specialize (Hm (mem b) Hb).
  by destruct (m (mem b)).
Qed.

Create HintDb quiet discriminated.
#[export] Hint Resolve quiet_ret quiet_raise quiet_of_outcome quiet_load quiet_load_atom
  quiet_load_disordered_atom quiet_load_residue quiet_load_disordered_residue
  quiet_load_chain quiet_load_model quiet_load_structure quiet_as_residue
  quiet_atom_is_disordered quiet_atom_get_id quiet_residue_get_id quiet_atom_get_fullname
  quiet_Residue_has_id quiet_Residue_getitem quiet_residue_is_disordered
  quiet_disordered_has_id quiet_is_completely_disordered quiet_Chain_has_id
  quiet_Chain_getitem quiet_Model_has_id quiet_Model_getitem quiet_PeptideChain_update
  quiet_DisorderedAtom_disordered_add quiet_Residue_detach_child
  quiet_Residue_flag_disordered quiet_Residue_add quiet_disordered_select
  quiet_DisorderedResidue_disordered_add quiet_Model_add quiet_Structure_add
  quiet_reset_disordered_res : quiet.

Ltac keeps :=
  first
    [ apply keeps_Chain_add | apply keeps_Chain_detach_child | apply keeps_new_PeptideChain
    | apply quiet_keeps;
      first [ solve [auto with quiet]
            | apply quiet_alloc; reflexivity ] ].

(** Walks a builder method, leaving the invariant to each call it makes. *)
Ltac invariant :=
  repeat first
    [ apply preserves_ret | apply preserves_raise | apply preserves_gets
    | apply preserves_attr | apply preserves_warn
    | apply preserves_on_heap; keeps
    | apply preserves_bind; [|intros ?]
    | match goal with
      | |- preserves _ (if ?c then _ else _) => destruct c
      | |- preserves _ (match ?c with _ => _ end) => destruct c
      | |- preserves _ (modify _) => intros ? ?; assumption
      end ].

Lemma init_structure_ok id : preserves chains_ok (init_structure id).
Proof. unfold init_structure. invariant. Qed.

Lemma init_model_ok id serial : preserves chains_ok (init_model id serial).
Proof. unfold init_model. invariant. Qed.

Lemma init_chain_ok id : preserves chains_ok (init_chain id).
Proof. unfold init_chain. invariant. Qed.

Lemma process_disordered_res_ok r id name :
  preserves chains_ok (process_disordered_res r id name).
Proof.
  unfold process_disordered_res. destruct id as [[field resseq] icode].
  unfold new_Residue, new_DisorderedResidue. invariant.
Qed.

Lemma init_residue_ok f name field resseq icode :
  preserves chains_ok (init_residue f name field resseq icode).
Proof.
  unfold init_residue, process_duplicate_res, process_duplicate_het, new_Residue.
  cbv zeta. invariant; apply process_disordered_res_ok.
Qed.

Lemma add_atom_ok rec : preserves chains_ok (add_atom rec).
Proof.
  unfold add_atom, init_atom. intros b Hb. destruct (residue b) as [| |ra]; [done|done|].
  match goal with
  | |- chains_ok (snd (?m b)) => revert b Hb; change (preserves chains_ok m)
  end.
  unfold disambiguate, place_atom, new_Atom, new_DisorderedAtom. invariant.
  apply preserves_on_heap. destruct (negb _); keeps.
Qed.

Lemma finish_chain_construction_ok : preserves chains_ok finish_chain_construction.
Proof.
  unfold finish_chain_construction. intros b Hb. destruct (chain b) as [c|]; [|done].
  apply preserves_on_heap; [|done]. apply quiet_keeps.
  apply quiet_bind; [apply quiet_load_chain|intros ch].
  apply quiet_bind; [|intros _; apply quiet_PeptideChain_update].
  apply quiet_for_each. intros res. apply quiet_bind; [apply quiet_load|intros o].
  destruct o; try apply quiet_ret. apply quiet_reset_disordered_res.
Qed.

Lemma handle_ok f e : preserves chains_ok (handle f e).
Proof.
  destruct e; cbn [handle].
  - apply init_structure_ok.
  - apply init_model_ok.
  - by intros b Hb.
  - by intros b Hb.
  - apply init_chain_ok.
  - apply init_residue_ok.
  - apply add_atom_ok.
  - apply finish_chain_construction_ok.
Qed.

Lemma run_ok f b evs : chains_ok b → chains_ok (run f b evs).
Proof.
  revert b. induction evs as [|e evs IH]; intros b Hb; [done|].
  rewrite run_cons. apply IH. by apply handle_ok.
Qed.

Lemma new_Builder_ok : chains_ok new_Builder.
Proof. intros c ch Hc. cbn [new_Builder mem] in Hc. by rewrite lookup_nil in Hc. Qed.

Lemma chain_ok_at_most_one h ch k :
  chain_ok h ch →
  (length (filter (λ a, node_id h a = Some k) (child_list (chain_entity ch))) ≤ 1)%nat.
Proof.
  intros (Hnd & Hlist & Hdict).
  destruct (filter _ _) as [|a1 [|a2 l]] eqn:E; cbn [length]; [lia|lia|].
  exfalso.
  assert (NoDup (a1 :: a2 :: l)) as Hnd' by (rewrite <- E; by apply NoDup_filter).
  assert (∀ a, a ∈ a1 :: a2 :: l → child_dict (chain_entity ch) !! k = Some a) as Hall.
  { intros a Ha. rewrite <- E in Ha. apply list_elem_of_filter in Ha as [Hk Ha].
    destruct (Hlist _ Ha) as (k' & Hk' & Hd). congruence. }
  assert (a1 = a2) as ->.
  { pose proof (Hall a1 ltac:(left)). pose proof (Hall a2 ltac:(right; left)). congruence. }
  apply NoDup_cons in Hnd' as [Hn _]. apply Hn. left.
Qed.

(** C6.  After any stream of events — each processed to its end, whether it
    returned or raised, so in particular after [end_chain] — every chain is
    well formed: its children are listed once each and filed under their own
    identifiers.  Hence for every residue key the chain holds at most one
    node; the node the chain maps the key to is a Residue or a
    DisorderedResidue, and it is the only child with that key, so a
    traversal meets at most one residue per key. *)
Theorem C6_residue_keys_unique find_het (evs : list event) c ch :
  let h := mem (run find_het new_Builder evs) in
  h !! c = Some (OChain ch) →
  chain_ok h ch
  ∧ ∀ k,
      (length (filter (λ a, node_id h a = Some k) (child_list (chain_entity ch))) ≤ 1)%nat
      ∧ (∀ a, child_dict (chain_entity ch) !! k = Some a →
              ((∃ r, h !! a = Some (OResidue r))
               ∨ (∃ d, h !! a = Some (ODisorderedResidue d)))
              ∧ filter (λ a, node_id h a = Some k) (child_list (chain_entity ch)) = [a])
      ∧ (child_dict (chain_entity ch) !! k = None →
         filter (λ a, node_id h a = Some k) (child_list (chain_entity ch)) = []).
Proof.
  intros h Hc.
  assert (chain_ok h ch) as Hok by (exact (run_ok find_het _ evs new_Builder_ok _ _ Hc)).
  split; [exact Hok|]. intros k.
  pose proof (chain_ok_at_most_one h ch k Hok) as Hlen.
  split; [exact Hlen|]. destruct Hok as (Hnd & Hlist & Hdict). split.
  - intros a Hd. destruct (Hdict _ _ Hd) as [Ha Hk]. split.
    + unfold node_id in Hk. destruct (h !! a) as [[]|]; try done; eauto.
    + assert (a ∈ filter (λ a, node_id h a = Some k) (child_list (chain_entity ch))) as Hin
        by (by apply list_elem_of_filter).
      destruct (filter _ _) as [|a1 [|a2 l]]; cbn [length] in Hlen;
        [by apply elem_of_nil in Hin| |lia].
      by apply list_elem_of_singleton in Hin as ->.
  - intros Hnone. destruct (filter _ _) as [|a1 l] eqn:E; [done|]. exfalso.
    assert (a1 ∈ filter (λ a, node_id h a = Some k) (child_list (chain_entity ch))) as Hin
      by (rewrite E; left).
    apply list_elem_of_filter in Hin as [Hk Ha].
    destruct (Hlist _ Ha) as (k' & Hk' & Hd). congruence.
Qed.

(** ** A stream that never opens a chain *)

Lemma no_chain_on_heap {A} (m : ST heap A) : preserves no_chain (on_heap m).
Proof. intros b Hb. unfold on_heap. by destruct (m (mem b)). Qed.

(** Walks a builder method that never assigns [self.chain]. *)
Ltac frame :=
  repeat first
    [ apply preserves_ret | apply preserves_raise | apply preserves_gets
    | apply preserves_attr | apply no_chain_on_heap
    | apply preserves_bind; [|intros ?]
    | match goal with
      | |- preserves _ (if ?c then _ else _) => destruct c
      | |- preserves _ (match ?c with _ => _ end) => destruct c
      | |- preserves _ (modify _) => intros ? ?; assumption
      | |- preserves _ (warn _) => intros ? ?; assumption
      end ].

Lemma handle_no_chain f e :
  (∀ id, e ≠ begin_chain id) → preserves no_chain (handle f e).
Proof.
  intros He.
  destruct e as [sid|mid serial|n|sg|cid|name field resseq icode|r|]; cbn [handle].
  - unfold init_structure. frame.
  - unfold init_model. frame.
  - by intros b Hb.
  - by intros b Hb.
  - by destruct (He cid).
  - unfold init_residue, process_duplicate_res, process_duplicate_het.
    unfold process_disordered_res. cbv zeta. frame.
  - unfold add_atom, init_atom. intros b Hb. destruct (residue b) as [| |ra]; [done|done|].
    match goal with
    | |- no_chain (snd (?m b)) => revert b Hb; change (preserves no_chain m)
    end.
    unfold disambiguate, place_atom. frame.
  - intros b Hb. unfold finish_chain_construction. unfold no_chain in Hb. by rewrite Hb.
Qed.

Lemma run_no_chain f b evs : opens_no_chain evs → no_chain b → no_chain (run f b evs).
Proof.
  revert b. induction evs as [|e evs IH]; intros b Hevs Hb; [done|].
  apply Forall_cons in Hevs as [He Hevs].
  rewrite run_cons. apply IH; [done|]. by apply handle_no_chain.
Qed.

(** ** The finishing pass without a chain (C9) *)

(** C9.  On a builder whose [chain] attribute was never assigned,
    [finish_chain_construction] returns normally and leaves the builder as
    it is; such is the builder after any stream of events none of which
    opens a chain. *)
Theorem C9_finish_without_chain :
  (∀ b, chain b = None → finish_chain_construction b = (Ret tt, b))
  ∧ (∀ find_het evs,
       opens_no_chain evs →
       let b := run find_het new_Builder evs in
       chain b = None ∧ finish_chain_construction b = (Ret tt, b)).
Proof.
  assert (∀ b, chain b = None → finish_chain_construction b = (Ret tt, b)) as Hnone.
  { intros b E. unfold finish_chain_construction. by rewrite E. }
  split; [exact Hnone|]. intros find_het evs Hevs b.
  assert (chain b = None) as E by (by apply run_no_chain).
  split; [exact E|by apply Hnone].
Qed.

Lemma C9_witness :
  let b := run find_het_by_seq_model new_Builder
             [begin_structure "1abc"; begin_model 0 None; line 1; begin_segment "    "] in
  chain b = None ∧ finish_chain_construction b = (Ret tt, b).
Proof.
  apply (proj2 C9_finish_without_chain find_het_by_seq_model).
  repeat constructor; discriminate.
Defined.

Lemma C6_witness :
  let h := mem (run find_het_by_seq_model new_Builder (ala_ser_ala_stream ++ [end_chain])) in
  let ch := mkChain "A" (mkEntity [7%nat] (<[(" ", 1, " "):=7%nat]> ∅)) in
  h !! 2%nat = Some (OChain ch)
  ∧ chain_ok h ch
  ∧ filter (λ a, node_id h a = Some (" ", 1, " ")) (child_list (chain_entity ch)) = [7%nat].
Proof.
  intros h ch.
  assert (h !! 2%nat = Some (OChain ch)) as Hc by (vm_compute; reflexivity).
  split; [exact Hc|].
  destruct (C6_residue_keys_unique find_het_by_seq_model
              (ala_ser_ala_stream ++ [end_chain]) 2%nat ch Hc) as [Hok Hkeys].
  split; [exact Hok|].
  destruct (Hkeys (" ", 1, " ")) as (_ & Hsome & _).
  apply Hsome. reflexivity.
Defined.

(** ** Identity of topology entities *)

Section topology.
Context {atom_t id_t param_t : Type} `{EqDecision id_t}.
Variables (full_id : atom_t → id_t) (id_gt : id_t → id_t → bool).
Variable hash : list id_t → Z.

(** The order on full ids, as on Python tuples of strings and numbers, is
    asymmetric and decides between any two different ids. *)
Hypothesis id_gt_asym : ∀ x y, id_gt x y = true → id_gt y x = false.
Hypothesis id_gt_total : ∀ x y, x ≠ y → id_gt x y = true ∨ id_gt y x = true.

Local Abbreviation Bond_new := (TopoElements.Bond_new atom_t id_t param_t full_id id_gt).
Local Abbreviation Angle_new := (@TopoElements.Angle_new atom_t id_t param_t full_id id_gt).
Local Abbreviation Dihedral_new :=
  (@TopoElements.Dihedral_new atom_t id_t param_t full_id id_gt).
Local Abbreviation Improper_new :=
  (@TopoElements.Improper_new atom_t id_t param_t full_id id_gt).
Local Abbreviation _create_full_id :=
  (TopoElements._create_full_id atom_t id_t full_id id_gt).

Lemma id_gt_irrefl x : id_gt x x = false.
Proof. destruct (id_gt x x) eqn:E; [|done]. by rewrite (id_gt_asym _ _ E) in E. Qed.

Lemma create_full_id_pair a b : _create_full_id [b; a] = _create_full_id [a; b].
Proof.
  unfold TopoElements._create_full_id. cbn.
  destruct (decide (full_id a = full_id b)) as [E|E].
  - rewrite E, id_gt_irrefl. done.
  - destruct (id_gt_total _ _ E) as [G|G]; rewrite G, (id_gt_asym _ _ G); done.
Qed.

Lemma create_full_id_triple a b c : _create_full_id [c; b; a] = _create_full_id [a; b; c].
Proof.
  unfold TopoElements._create_full_id. cbn.
  destruct (decide (full_id a = full_id c)) as [E|E].
  - rewrite E, id_gt_irrefl. done.
  - destruct (id_gt_total _ _ E) as [G|G]; rewrite G, (id_gt_asym _ _ G); done.
Qed.

Lemma create_full_id_quad i j k l :
  _create_full_id [l; k; j; i] = _create_full_id [i; j; k; l]
  ↔ full_id i ≠ full_id l ∨ full_id j = full_id k.
Proof.
  unfold TopoElements._create_full_id. cbn.
  destruct (decide (full_id i = full_id l)) as [E|E].
  - rewrite E, id_gt_irrefl. split.
    + intros Heq. right. by simplify_eq.
    + intros [?| ->]; done.
  - split; [by left|]. intros _.
    destruct (id_gt_total _ _ E) as [G|G]; rewrite G, (id_gt_asym _ _ G); done.
Qed.

(** X1.  A Bond and an Angle do not depend on the direction in which their
    atoms are given: Bond(a, b) and Bond(b, a), whatever their types and
    parameters, compare equal under [__eq__] and have the same hash, and so
    do Angle(a, b, c) and Angle(c, b, a). *)
Theorem X1_bond_and_angle_orientation_free :
  (∀ a b t t' p p',
     let x := TopoElements.EBond (Bond_new a b t p) in
     let y := TopoElements.EBond (Bond_new b a t' p') in
     TopoElements.__eq__ x y = true
     ∧ TopoElements.__hash__ hash x = TopoElements.__hash__ hash y)
  ∧ (∀ a b c p p',
       let x := TopoElements.EAngle (Angle_new a b c p) in
       let y := TopoElements.EAngle (Angle_new c b a p') in
       TopoElements.__eq__ x y = true
       ∧ TopoElements.__hash__ hash x = TopoElements.__hash__ hash y).
Proof.
  split.
  - intros a b t t' p p' x y.
    assert (TopoElements.entity_full_id x = TopoElements.entity_full_id y) as E.
    { symmetry. apply create_full_id_pair. }
    split; [|unfold TopoElements.__hash__; by rewrite E].
    unfold TopoElements.__eq__. cbn [TopoElements.type_of x y].
    rewrite bool_decide_eq_true_2 by done. cbn [negb]. by apply bool_decide_eq_true_2.
  - intros a b c p p' x y.
    assert (TopoElements.entity_full_id x = TopoElements.entity_full_id y) as E.
    { symmetry. apply create_full_id_triple. }
    split; [|unfold TopoElements.__hash__; by rewrite E].
    unfold TopoElements.__eq__. cbn [TopoElements.type_of x y].
    rewrite bool_decide_eq_true_2 by done. cbn [negb]. by apply bool_decide_eq_true_2.
Qed.

(** X2.  A Dihedral equals the Dihedral over the same atoms in reverse
    exactly when its end atoms have different full ids or its middle atoms
    have the same: with equal ends the sequence is never flipped.  The same
    holds of an Improper; and a Dihedral never equals an Improper, even over
    the same atoms. *)
Theorem X2_dihedral_orientation i j k l p p' :
  (TopoElements.__eq__ (TopoElements.EDihedral (Dihedral_new i j k l p))
     (TopoElements.EDihedral (Dihedral_new l k j i p')) = true
   ↔ full_id i ≠ full_id l ∨ full_id j = full_id k)
  ∧ (TopoElements.__eq__ (TopoElements.EImproper (Improper_new i j k l p))
       (TopoElements.EImproper (Improper_new l k j i p')) = true
     ↔ full_id i ≠ full_id l ∨ full_id j = full_id k)
  ∧ TopoElements.__eq__ (TopoElements.EDihedral (Dihedral_new i j k l p))
      (TopoElements.EImproper (Improper_new i j k l p)) = false.
Proof.
  split; [|split; [|done]].
  - unfold TopoElements.__eq__. cbn [TopoElements.type_of].
    rewrite bool_decide_eq_true_2 by done. cbn [negb].
    rewrite bool_decide_eq_true. cbn [TopoElements.entity_full_id
      TopoElements.Dihedral_new TopoElements.dihedral_full_id].
    rewrite <- create_full_id_quad. split; intros E; by rewrite E.
  - unfold TopoElements.__eq__. cbn [TopoElements.type_of].
    rewrite bool_decide_eq_true_2 by done. cbn [negb].
    rewrite bool_decide_eq_true. cbn [TopoElements.entity_full_id
      TopoElements.Improper_new TopoElements.improper_full_id].
    rewrite <- create_full_id_quad. split; intros E; by rewrite E.
Qed.
End topology.

Lemma Z_gtb_asym (x y : Z) : (x >? y) = true → (y >? x) = false.
Proof. destruct (Z.gtb_spec x y), (Z.gtb_spec y x); (done || lia). Qed.

Lemma Z_gtb_total (x y : Z) : x ≠ y → (x >? y) = true ∨ (y >? x) = true.
Proof. destruct (Z.gtb_spec x y), (Z.gtb_spec y x); intros; auto; lia. Qed.

Lemma X1_witness :
  let x := TopoElements.EBond
             (TopoElements.Bond_new Z Z unit (λ a, a) Z.gtb 2 1 (Some "single") None) in
  let y := TopoElements.EBond
             (TopoElements.Bond_new Z Z unit (λ a, a) Z.gtb 1 2 (Some "double") None) in
  TopoElements.__eq__ x y = true
  ∧ TopoElements.__hash__ (λ l, Z.of_nat (length l)) x
    = TopoElements.__hash__ (λ l, Z.of_nat (length l)) y.
Proof.
  exact (proj1 (X1_bond_and_angle_orientation_free (param_t := unit) (λ a, a) Z.gtb
                  (λ l, Z.of_nat (length l)) Z_gtb_asym Z_gtb_total)
           2 1 (Some "single") (Some "double") None None).
Defined.

Lemma X2_witness :
  TopoElements.__eq__
    (TopoElements.EDihedral
       (TopoElements.Dihedral_new (param_t := unit) (λ a, a) Z.gtb 1 2 3 1 None))
    (TopoElements.EDihedral
       (TopoElements.Dihedral_new (param_t := unit) (λ a, a) Z.gtb 1 3 2 1 None)) = true
  ↔ (1 : Z) ≠ 1 ∨ (2 : Z) = 3.
Proof.
  exact (proj1 (X2_dihedral_orientation (param_t := unit) (λ a, a) Z.gtb
                  Z_gtb_asym Z_gtb_total 1 2 3 1 None None)).
Defined.

(** ** Copies of topology entities *)

Section copies.
Context {atom_t id_t param_t : Type}.

(** X3.  [copy.deepcopy] of an Angle, a Dihedral or an Improper raises
    TypeError: the instance dictionary is passed as keyword arguments and its
    key [full_id] names no parameter of [__new__]; with the keyword [param]
    alone the same call binds.  A Bond has a method of its own, whose call
    binds the two atoms, the bond type and the parameters of the bond. *)
Theorem X3_deepcopy_of_topology_entities :
  (∀ a : TopoElements.Angle atom_t id_t param_t,
     TopoElements.deepcopy (TopoElements.EAngle a) = Raise TypeError)
  ∧ (∀ d : TopoElements.Dihedral atom_t id_t param_t,
       TopoElements.deepcopy (TopoElements.EDihedral d) = Raise TypeError)
  ∧ (∀ i : TopoElements.Improper atom_t id_t param_t,
       TopoElements.deepcopy (TopoElements.EImproper i) = Raise TypeError)
  ∧ (∀ (a : TopoElements.Angle atom_t id_t param_t) v,
       TopoElements.call TopoElements.ClsAngle
         (@TopoElements.VAtom atom_t id_t param_t
            <$> TopoElements.atoms_of (TopoElements.EAngle a))
         [("param", v)]
       = Ret [("atom1", TopoElements.VAtom (TopoElements.angle_atom1 _ _ _ a));
              ("atom2", TopoElements.VAtom (TopoElements.angle_atom2 _ _ _ a));
              ("atom3", TopoElements.VAtom (TopoElements.angle_atom3 _ _ _ a));
              ("param", v)])
  ∧ (∀ b : TopoElements.Bond atom_t id_t param_t,
       TopoElements.deepcopy (TopoElements.EBond b)
       = Ret [("atom1", TopoElements.VAtom (TopoElements.atom1 _ _ _ b));
              ("atom2", TopoElements.VAtom (TopoElements.atom2 _ _ _ b));
              ("bond_type",
               TopoElements.of_option _ _ _ TopoElements.VStr
                 (TopoElements.bond_type _ _ _ b));
              ("param",
               TopoElements.of_option _ _ _ TopoElements.VParam
                 (TopoElements.param _ _ _ b))]).
Proof. repeat split. Qed.

(** X4.  The values that [__getnewargs__] returns, the atoms followed by
    the values of the instance dictionary, cannot be passed back to the class
    as its positional arguments: they are more than [__new__] has parameters,
    and the call raises TypeError, for each of the four classes. *)
Theorem X4_getnewargs_not_accepted (e : TopoElements.entity atom_t id_t param_t) :
  (length (TopoElements.new_params (TopoElements.type_of e))
   < length (TopoElements.__getnewargs__ e))%nat
  ∧ TopoElements.call (TopoElements.type_of e) (TopoElements.__getnewargs__ e) []
    = Raise TypeError.
Proof. destruct e; split; (reflexivity || (cbn; lia)). Qed.
End copies.

(** ** Residues declared again *)

Lemma disordered_has_id_eq h g d name :
  h !! g = Some (ODisorderedResidue d) →
  disordered_has_id g name h = (Ret (dict_has (w_child_dict d) name), h).
Proof.
  intros E. unfold disordered_has_id.
  by rewrite (bind_Ret _ _ _ _ _ (load_disordered_residue_eq _ _ _ E)).
Qed.

Lemma disordered_select_eq h g d name child :
  h !! g = Some (ODisorderedResidue d) →
  dict_get (w_child_dict d) name = Some child →
  disordered_select g name h
  = (Ret tt, <[g := ODisorderedResidue (mkWrapper (w_id d) (w_child_dict d) (Some child))]> h).
Proof.
  intros E Hd. unfold disordered_select.
  rewrite (bind_Ret _ _ _ _ _ (load_disordered_residue_eq _ _ _ E)). by rewrite Hd.
Qed.

Lemma dict_has_true {K V} `{EqDecision K} (d : list (K * V)) k v :
  dict_get d k = Some v → dict_has d k = true.
Proof. intros E. unfold dict_has. rewrite E. apply bool_decide_eq_true_2. eauto. Qed.

(** The start of [init_residue] at a key the chain holds. *)
Lemma init_residue_duplicate find_het b c ch r name field resseq icode :
  chain b = Some c →
  mem b !! c = Some (OChain ch) →
  child_dict (chain_entity ch) !! (hetero_field field name, resseq, icode) = Some r →
  init_residue find_het name field resseq icode b
  = process_disordered_res r (hetero_field field name, resseq, icode) name
      (add_warning (ResidueRedefined (hetero_field field name) resseq icode (line_counter b)) b).
Proof.
  intros Hc Hch Hk.
  destruct b as [h ln st md chn sgd rs at_ ws]. state_simpl. subst chn.
  unfold init_residue. do 2 mstep.
  rewrite (Entity_has_id_true _ _ _ Hk).
  unfold process_duplicate_res, warn. do 3 mstep. reflexivity.
Qed.

(** X5.  When [init_residue] meets a key that the chain maps to a plain
    Residue of the same name, it returns normally, emits the redefinition
    warning and then the same-name warning, and makes the existing Residue
    [self.residue]; no object is created and the store is unchanged, so the
    atoms that follow go to the residue already there. *)
Theorem X5_same_name_redeclared find_het b c ch r dup name field resseq icode :
  chain b = Some c →
  mem b !! c = Some (OChain ch) →
  child_dict (chain_entity ch) !! (hetero_field field name, resseq, icode) = Some r →
  mem b !! r = Some (OResidue dup) →
  resname dup = name →
  let k := hetero_field field name in
  let b' := set_residue (Ref r)
              (add_warning (ResidueSameName k resseq icode name (line_counter b))
                 (add_warning (ResidueRedefined k resseq icode (line_counter b)) b)) in
  init_residue find_het name field resseq icode b = (Ret tt, b')
  ∧ mem b' = mem b
  ∧ residue b' = Ref r.
Proof.
  intros Hc Hch Hk Hr Hname. cbv zeta. split; [|done].
  rewrite (init_residue_duplicate _ _ _ _ _ _ _ _ _ Hc Hch Hk).
  destruct b as [h ln st md chn sgd rs at_ ws]. state_simpl.
  unfold process_disordered_res. mstep. rewrite b2z_neq_2. mstep.
  rewrite decide_True by done. unfold warn, modify. mstep. reflexivity.
Qed.

(** X6.  When the key holds a DisorderedResidue that already has a child
    of the given name, [init_residue] emits the redefinition warning, selects
    that child and makes the group [self.residue]; no object is created and
    nothing else in the store changes. *)
Theorem X6_known_variant_selected find_het b c ch g d child name field resseq icode :
  chain b = Some c →
  mem b !! c = Some (OChain ch) →
  child_dict (chain_entity ch) !! (hetero_field field name, resseq, icode) = Some g →
  mem b !! g = Some (ODisorderedResidue d) →
  dict_get (w_child_dict d) name = Some child →
  let k := hetero_field field name in
  let h' := <[g := ODisorderedResidue (mkWrapper (w_id d) (w_child_dict d) (Some child))]>
              (mem b) in
  init_residue find_het name field resseq icode b
  = (Ret tt,
     set_mem h' (set_residue (Ref g)
                   (add_warning (ResidueRedefined k resseq icode (line_counter b)) b)))
  ∧ length h' = length (mem b)
  ∧ ∀ a, a ≠ g → h' !! a = mem b !! a.
Proof.
  intros Hc Hch Hk Hg Hd. cbv zeta. split; [|split].
  - rewrite (init_residue_duplicate _ _ _ _ _ _ _ _ _ Hc Hch Hk).
    destruct b as [h ln st md chn sgd rs at_ ws]. state_simpl.
    unfold process_disordered_res. mstep. cbn [Z.eqb Pos.eqb].
    erewrite bind_Ret by (apply on_heap_eq; by apply disordered_has_id_eq).
    rewrite (dict_has_true _ _ _ Hd). state_simpl. unfold modify. mstep.
    erewrite on_heap_eq by (by eapply disordered_select_eq). reflexivity.
  - by rewrite length_insert.
  - intros a Ha. by rewrite list_lookup_insert_ne.
Qed.

(** X7.  When the key holds a DisorderedResidue without a child of the
    given name, a new Residue with the identifier offered, the name and the
    current segid is created, added to the group as its last child and
    selected; the group is [self.residue]; the chain and every object other
    than the group are as before. *)
Theorem X7_new_variant_joins_group find_het b c ch g d sg name field resseq icode :
  chain b = Some c →
  segid b = Some sg →
  mem b !! c = Some (OChain ch) →
  child_dict (chain_entity ch) !! (hetero_field field name, resseq, icode) = Some g →
  mem b !! g = Some (ODisorderedResidue d) →
  dict_get (w_child_dict d) name = None →
  let k := (hetero_field field name, resseq, icode) in
  let n := length (mem b) in
  let h' := <[g := ODisorderedResidue
                     (mkWrapper (w_id d) (w_child_dict d ++ [(name, n)]) (Some n))]>
              (mem b ++ [OResidue (mkResidue k name sg false empty_entity)]) in
  init_residue find_het name field resseq icode b
  = (Ret tt,
     set_residue (Ref g)
       (set_mem h' (add_warning (ResidueRedefined (hetero_field field name) resseq icode
                                   (line_counter b)) b)))
  ∧ h' !! n = Some (OResidue (mkResidue k name sg false empty_entity))
  ∧ h' !! c = Some (OChain ch)
  ∧ ∀ a o, a ≠ g → mem b !! a = Some o → h' !! a = Some o.
Proof.
  intros Hc Hsg Hch Hk Hg Hd. cbv zeta.
  pose proof (lookup_lt_Some _ _ _ Hg) as Hglt.
  pose proof (lookup_lt_Some _ _ _ Hch) as Hclt.
  assert (c ≠ g) as Hcg by (intros ->; congruence).
  split; [|split; [|split]].
  - rewrite (init_residue_duplicate _ _ _ _ _ _ _ _ _ Hc Hch Hk).
    destruct b as [h ln st md chn sgd rs at_ ws]. state_simpl. subst sgd.
    unfold process_disordered_res. mstep. cbn [Z.eqb Pos.eqb].
    erewrite bind_Ret by (apply on_heap_eq; by apply disordered_has_id_eq).
    rewrite (dict_has_false _ _ Hd). state_simpl. mstep.
    unfold new_Residue, alloc. erewrite bind_Ret by (apply on_heap_eq; reflexivity).
    state_simpl.
    erewrite bind_Ret.
    2:{ eapply on_heap_eq, DisorderedResidue_disordered_add_eq; state_simpl.
        - apply lookup_alloc_new.
        - by apply lookup_alloc_old.
        - done. }
    reflexivity.
  - heap_lookup. reflexivity.
  - heap_lookup. exact Hch.
  - intros a o Ha Ho. pose proof (lookup_lt_Some _ _ _ Ho). heap_lookup. exact Ho.
Qed.

Lemma X5_witness :
  fst (init_residue find_het_by_seq_model "ALA" " " 1 " " ala_blank) = Ret tt.
Proof.
  refine (f_equal fst (proj1
    (X5_same_name_redeclared find_het_by_seq_model ala_blank 2%nat _ 3%nat _
       "ALA" " " 1 " " _ _ _ _ _))).
  - reflexivity.
  - vm_compute. reflexivity.
  - vm_compute. reflexivity.
  - vm_compute. reflexivity.
  - reflexivity.
Defined.

Lemma X6_witness :
  fst (init_residue find_het_by_seq_model "ALA" " " 1 " " ala_ser) = Ret tt.
Proof.
  refine (f_equal fst (proj1
    (X6_known_variant_selected find_het_by_seq_model ala_ser 2%nat _ 7%nat _ 3%nat
       "ALA" " " 1 " " _ _ _ _ _))).
  - reflexivity.
  - vm_compute. reflexivity.
  - vm_compute. reflexivity.
  - vm_compute. reflexivity.
  - vm_compute. reflexivity.
Defined.

Lemma X7_witness :
  fst (init_residue find_het_by_seq_model "GLY" " " 1 " " ala_ser) = Ret tt.
Proof.
  refine (f_equal fst (proj1
    (X7_new_variant_joins_group find_het_by_seq_model ala_ser 2%nat _ 7%nat _ "    "
       "GLY" " " 1 " " _ _ _ _ _ _))).
  - reflexivity.
  - reflexivity.
  - vm_compute. reflexivity.
  - vm_compute. reflexivity.
  - vm_compute. reflexivity.
  - vm_compute. reflexivity.
Defined.

(** ** Atoms with a blank altloc *)

Lemma spelling_fullname h a fn : spelling h a fn → atom_get_fullname a h = (Ret fn, h).
Proof.
  intros [a' x Ha|g d s x Hg Hs Hx].
  - by apply atom_get_fullname_plain.
  - by eapply atom_get_fullname_group.
Qed.

Lemma atom_get_id_plain h a x :
  h !! a = Some (OAtom x) → atom_get_id a h = (Ret (atom_id x), h).
Proof. intros E. unfold atom_get_id. by rewrite (bind_Ret _ _ _ _ _ (load_eq _ _ _ E)). Qed.

Lemma plain_Residue_add_atom_eq h t r a x :
  h !! t = Some (OResidue r) → h !! a = Some (OAtom x) →
  child_dict (residue_entity r) !! atom_id x = None →
  plain_Residue_add t a h
  = (Ret tt, <[t := OResidue
                      (set_residue_entity r
                         (mkEntity (child_list (residue_entity r) ++ [a])
                            (<[atom_id x := a]> (child_dict (residue_entity r)))))]> h).
Proof.
  intros Ht Ha Hk. unfold plain_Residue_add.
  rewrite (bind_Ret _ _ _ _ _ (atom_get_id_plain _ _ _ Ha)).
  rewrite (bind_Ret _ _ _ _ _ (load_residue_eq _ _ _ Ht)).
  rewrite (Entity_has_id_false _ _ Hk). unfold Entity_add.
  rewrite (Entity_has_id_false _ _ Hk). unfold store, of_outcome, bind. reflexivity.
Qed.

Lemma plain_Residue_add_twice h t r a x d0 :
  h !! t = Some (OResidue r) → h !! a = Some (OAtom x) →
  child_dict (residue_entity r) !! atom_id x = Some d0 →
  plain_Residue_add t a h
  = (Raise (PDBConstructionException (AtomDefinedTwice (atom_id x))), h).
Proof.
  intros Ht Ha Hk. unfold plain_Residue_add.
  rewrite (bind_Ret _ _ _ _ _ (atom_get_id_plain _ _ _ Ha)).
  rewrite (bind_Ret _ _ _ _ _ (load_residue_eq _ _ _ Ht)).
  by rewrite (Entity_has_id_true _ _ _ Hk).
Qed.

Lemma Residue_add_twice h ra t r a x d0 :
  serves h ra t → h !! t = Some (OResidue r) → h !! a = Some (OAtom x) →
  atom_disordered_flag x = false →
  child_dict (residue_entity r) !! atom_id x = Some d0 →
  Residue_add ra a h = (Raise (PDBConstructionException (AtomDefinedTwice (atom_id x))), h).
Proof.
  intros Hs Ht Ha Hflag Hk. unfold Residue_add.
  destruct Hs as [ra r' Hra|g d t Hg Hsel].
  - rewrite (bind_Ret _ _ _ _ _ (load_eq _ _ _ Hra)). by eapply plain_Residue_add_twice.
  - rewrite (bind_Ret _ _ _ _ _ (load_eq _ _ _ Hg)). unfold DisorderedResidue_add.
    rewrite (bind_Ret _ _ _ _ _ (load_disordered_residue_eq _ _ _ Hg)).
    unfold selected. rewrite Hsel. unfold ret at 1. erewrite bind_Ret by reflexivity.
    rewrite (bind_Ret _ _ _ _ _ (atom_is_disordered_plain _ _ _ Ha)).
    rewrite Hflag. cbn [Z.b2z Z.eqb negb].
    rewrite (bind_Ret _ _ _ _ _ (load_residue_eq _ _ _ Ht)).
    by erewrite bind_Raise by (by eapply plain_Residue_add_twice).
Qed.

(** [init_atom] for a record with a blank altloc, once the name is settled:
    the new Atom is allocated, made [self.atom] and handed to [residue.add]. *)
Lemma init_atom_blank b ra name rec b1 :
  residue b = Ref ra →
  rec_altloc rec = " " →
  disambiguate ra (rec_name rec) (rec_fullname rec) b = (Ret name, b1) →
  add_atom rec b
  = on_heap (Residue_add ra (length (mem b1)))
      (set_atom (length (mem b1)) (set_mem (mem b1 ++ [OAtom (atom_of name rec)]) b1)).
Proof.
  intros Hres Halt Hdis. unfold add_atom, init_atom. rewrite Hres.
  rewrite (bind_Ret _ _ _ _ _ Hdis). unfold new_Atom, alloc, atom_of.
  destruct (rec_is_pqr rec); cbn [negb].
  - erewrite bind_Ret by (apply on_heap_eq; reflexivity).
    unfold modify. erewrite bind_Ret by reflexivity.
    unfold place_atom. rewrite decide_False by (intros Hn; by apply Hn). reflexivity.
  - erewrite bind_Ret by (apply on_heap_eq; reflexivity).
    unfold modify. erewrite bind_Ret by reflexivity.
    unfold place_atom. rewrite decide_False by (intros Hn; by apply Hn). reflexivity.
Qed.

Lemma atom_of_id name rec : atom_id (atom_of name rec) = name.
Proof. unfold atom_of. by destruct (rec_is_pqr rec). Qed.

Lemma atom_of_flag name rec : atom_disordered_flag (atom_of name rec) = false.
Proof. unfold atom_of. by destruct (rec_is_pqr rec). Qed.





Lemma spelling_of_atom h a x fn :
  h !! a = Some (OAtom x) → atom_fullname x = fn → spelling h a fn.
Proof. intros Ha <-. by constructor. Qed.





(** ** Opening a chain *)

Lemma Model_add_eq h m x c ch :
  h !! c = Some (OChain ch) → h !! m = Some (OModel x) →
  child_dict (model_entity x) !! chain_id ch = None →
  Model_add m c h
  = (Ret tt, <[m := OModel (mkModel (model_id x) (serial_num x)
                              (mkEntity (child_list (model_entity x) ++ [c])
                                 (<[chain_id ch := c]> (child_dict (model_entity x)))))]> h).
Proof.
  intros Hc Hm Hk. unfold Model_add.
  rewrite (bind_Ret _ _ _ _ _ (load_chain_eq _ _ _ Hc)).
  rewrite (bind_Ret _ _ _ _ _ (load_model_eq _ _ _ Hm)).
  unfold Entity_add. rewrite (Entity_has_id_false _ _ Hk).
  unfold store, of_outcome, bind. reflexivity.
Qed.

(** X12.  When the model holds no chain with the given id, [init_chain]
    creates one chain with that id and no residues, appends it to the model
    and makes it [self.chain]; no warning is emitted, the chains the model
    held stay filed as they were, and no other object changes. *)
Theorem X12_new_chain_appended b m x id :
  model b = Some m →
  mem b !! m = Some (OModel x) →
  child_dict (model_entity x) !! id = None →
  let n := length (mem b) in
  let x' := mkModel (model_id x) (serial_num x)
              (mkEntity (child_list (model_entity x) ++ [n])
                 (<[id := n]> (child_dict (model_entity x)))) in
  let h' := <[m := OModel x']> (mem b ++ [OChain (mkChain id empty_entity)]) in
  init_chain id b = (Ret tt, set_mem h' (set_chain n b))
  ∧ h' !! n = Some (OChain (mkChain id empty_entity))
  ∧ (∀ id' c, child_dict (model_entity x) !! id' = Some c →
              child_dict (model_entity x') !! id' = Some c)
  ∧ ∀ a o, a ≠ m → mem b !! a = Some o → h' !! a = Some o.
Proof.
  intros Hm Hx Hid. cbv zeta.
  pose proof (lookup_lt_Some _ _ _ Hx) as Hlt.
  split; [|split; [|split]].
  - destruct b as [h ln st md chn sgd rs at_ ws]. state_simpl. subst md.
    unfold init_chain. mstep.
    erewrite bind_Ret by (apply on_heap_eq; by apply Model_has_id_eq).
    rewrite (Entity_has_id_false _ _ Hid). cbn iota.
    unfold new_PeptideChain, alloc.
    erewrite bind_Ret by (apply on_heap_eq; reflexivity). state_simpl.
    unfold modify. erewrite bind_Ret by reflexivity. state_simpl.
    erewrite on_heap_eq; [reflexivity|]. state_simpl.
    rewrite (Model_add_eq _ m x (length h) (mkChain id empty_entity));
      [reflexivity|apply lookup_alloc_new|by apply lookup_alloc_old|done].
  - heap_lookup. reflexivity.
  - intros id' c Hc. cbn [model_entity child_dict].
    rewrite lookup_insert_ne; [done|]. intros ->. congruence.
  - intros a o Ha Ho. pose proof (lookup_lt_Some _ _ _ Ho). heap_lookup. exact Ho.
Qed.

Lemma X12_witness :
  fst (init_chain "A" (run find_het_by_seq_model new_Builder
                         [begin_structure "1abc"; begin_model 0 None])) = Ret tt.
Proof.
  refine (f_equal fst (proj1
    (X12_new_chain_appended
       (run find_het_by_seq_model new_Builder [begin_structure "1abc"; begin_model 0 None])
       1%nat _ "A" _ _ _))).
  - reflexivity.
  - vm_compute. reflexivity.
  - vm_compute. reflexivity.
Defined.

(** X13.  When the model already holds a chain with the given id,
    [init_schain] behaves exactly as [init_chain]: the chain found becomes
    [self.chain] and the discontinuity warning is emitted; the StandardChain
    constructor is not called and [chain_info] is ignored. *)
Theorem X13_init_schain_reuses_existing (chain_info : Type)
    (new_StandardChain : string → chain_info → ST heap addr) b m x id info c :
  model b = Some m →
  mem b !! m = Some (OModel x) →
  child_dict (model_entity x) !! id = Some c →
  init_schain chain_info new_StandardChain id info b
  = (Ret tt, add_warning (ChainDiscontinuous id (line_counter b)) (set_chain c b))
  ∧ init_schain chain_info new_StandardChain id info b = init_chain id b.
Proof.
  intros Hm Hx Hc.
  assert (init_schain chain_info new_StandardChain id info b
          = (Ret tt, add_warning (ChainDiscontinuous id (line_counter b)) (set_chain c b)))
    as E.
  { destruct b as [h ln st md chn sgd rs at_ ws]. state_simpl. subst md.
    unfold init_schain. mstep.
    erewrite bind_Ret by (apply on_heap_eq; by apply Model_has_id_eq).
    rewrite (Entity_has_id_true _ _ _ Hc). cbn iota.
    erewrite bind_Ret by (apply on_heap_eq; by eapply Model_getitem_eq).
    reflexivity. }
  split; [exact E|]. rewrite E. symmetry. by eapply init_chain_existing.
Qed.

Lemma X13_witness :
  let b := run find_het_by_seq_model new_Builder opening in
  init_schain unit (λ id _, new_PeptideChain id) "A" tt b
  = (Ret tt, add_warning (ChainDiscontinuous "A" (line_counter b)) (set_chain 2%nat b)).
Proof.
  intros b.
  refine (proj1 (X13_init_schain_reuses_existing unit (λ id _, new_PeptideChain id)
                   b 1%nat _ "A" tt 2%nat _ _ _)).
  - reflexivity.
  - vm_compute. reflexivity.
  - vm_compute. reflexivity.
Defined.

(** ** A hetero residue found by its sequence number *)

(** The last branch of [process_disordered_res]: a fully disordered plain
    Residue of another name gives way to a DisorderedResidue under its own
    identifier; the new Residue carries the identifier offered. *)
Lemma process_disordered_res_forms_group b c ch r dup als id name sg :
  chain b = Some c →
  segid b = Some sg →
  mem b !! c = Some (OChain ch) →
  chain_ok (mem b) ch →
  child_dict (chain_entity ch) !! residue_id dup = Some r →
  mem b !! r = Some (OResidue dup) →
  resname dup ≠ name →
  altlocs_of (mem b) r als →
  " " ∉ als →
  let kd := residue_id dup in
  let n := length (mem b) in
  let g := S n in
  ∃ h' ch',
    process_disordered_res r id name b = (Ret tt, set_residue (Ref g) (set_mem h' b))
    ∧ h' !! c = Some (OChain ch')
    ∧ chain_ok h' ch'
    ∧ child_dict (chain_entity ch')
      = <[kd := g]> (delete kd (child_dict (chain_entity ch)))
    ∧ (r ∉ child_list (chain_entity ch'))
    ∧ h' !! g = Some (ODisorderedResidue (mkWrapper kd [(resname dup, r); (name, n)] (Some n)))
    ∧ h' !! r = Some (OResidue dup)
    ∧ h' !! n = Some (OResidue (mkResidue id name sg false empty_entity))
    ∧ ∀ a o, a ≠ c → mem b !! a = Some o → h' !! a = Some o.
Proof.
  intros Hc Hsg Hch Hok Hk Hr Hname Hals Hblank. cbv zeta.
  destruct b as [h ln st md chn sgd rs at_ ws]. state_simpl. subst chn sgd.
  destruct Hok as (Hnd & Hlist & Hdict).
  destruct (Hdict _ _ Hk) as [Hin Hrid].
  destruct (list_remove_elem _ _ Hin) as [l Hl].
  destruct (list_remove_spec _ _ _ Hl Hnd) as [Hndl Hinl].
  pose proof (lookup_lt_Some _ _ _ Hch) as Hclt.
  pose proof (lookup_lt_Some _ _ _ Hr) as Hrlt.
  assert (c ≠ r) as Hcr by (intros ->; congruence).
  destruct id as [[field resseq] icode].
  eexists _, _. split.
  { unfold process_disordered_res. mstep. rewrite b2z_neq_2. mstep.
    destruct (decide (name = resname dup)); [congruence|].
    erewrite bind_Ret by (apply on_heap_eq, is_completely_disordered_eq, Hals).
    rewrite bool_decide_eq_true_2 by done. cbn beta iota. state_simpl. cbn [negb].
    mstep.
    erewrite bind_Ret by (eapply on_heap_eq, Chain_detach_child_eq; eauto).
    state_simpl. mstep.
    unfold new_Residue, new_DisorderedResidue, alloc.
    erewrite bind_Ret by (apply on_heap_eq; reflexivity). state_simpl.
    erewrite bind_Ret by (apply on_heap_eq; reflexivity). state_simpl.
    len_simpl.
    erewrite bind_Ret.
    2:{ eapply on_heap_eq, Chain_add_eq; state_simpl.
        - unfold node_id. rewrite lookup_alloc_at by (len_simpl; lia). reflexivity.
        - do 2 apply lookup_alloc_old. by eapply lookup_store_eq.
        - cbn [chain_entity child_dict]. apply lookup_delete_eq. }
    state_simpl. cbn [chain_id chain_entity child_list child_dict w_id].
    erewrite bind_Ret.
    2:{ eapply on_heap_eq, DisorderedResidue_disordered_add_eq; state_simpl.
        - heap_lookup. exact Hr.
        - heap_lookup. reflexivity.
        - reflexivity. }
    state_simpl. cbn [w_id w_child_dict app].
    erewrite bind_Ret.
    2:{ eapply on_heap_eq, DisorderedResidue_disordered_add_eq; state_simpl.
        - heap_lookup. reflexivity.
        - heap_lookup. reflexivity.
        - cbn [resname w_child_dict dict_get]. by rewrite decide_False. }
    state_simpl. cbn [w_id w_child_dict app resname].
    rewrite list_insert_insert_eq. reflexivity. }
  cbn [mem].
  match goal with |- ?h' !! c = _ ∧ _ => set (hh := h') end.
  assert (∀ a o, a ≠ c → h !! a = Some o → hh !! a = Some o) as Hframe.
  { intros a o Hac Ha. pose proof (lookup_lt_Some _ _ _ Ha). subst hh. heap_lookup. exact Ha. }
  assert (∀ a k', a ≠ c → node_id h a = Some k' → node_id hh a = Some k') as Hsame.
  { intros a k' Hac Ha. unfold node_id in *.
    destruct (h !! a) as [o|] eqn:Hoa; [|done]. by rewrite (Hframe _ _ Hac Hoa). }
  assert (∀ a, a ∈ child_list (chain_entity ch) → a ≠ c ∧ (a < length h)%nat) as Hold.
  { intros a Ha. destruct (Hlist _ Ha) as (k' & Hk' & _).
    split; [|by eapply node_id_lt]. intros ->. unfold node_id in Hk'. by rewrite Hch in Hk'. }
  assert (hh !! S (length h)
          = Some (ODisorderedResidue
                    (mkWrapper (residue_id dup) [(resname dup, r); (name, length h)]
                       (Some (length h))))) as Hgrp.
  { subst hh. heap_lookup. reflexivity. }
  split; [subst hh; heap_lookup; reflexivity|].
  split; [|split; [reflexivity|split; [|split; [exact Hgrp|split; [|split]]]]].
  - unfold chain_ok. cbn [chain_entity child_list child_dict]. split; [|split].
    + apply NoDup_app. split; [done|]. split; [|apply NoDup_singleton].
      intros a Ha ->%list_elem_of_singleton. apply Hinl in Ha as [Ha _].
      apply Hold in Ha. lia.
    + intros a [Ha| ->%list_elem_of_singleton]%elem_of_app.
      * apply Hinl in Ha as [Ha Har]. destruct (Hlist _ Ha) as (k' & Hk' & Hd).
        exists k'. split; [apply Hsame; [by apply Hold|done]|].
        rewrite lookup_insert_ne, lookup_delete_ne; [done| |]; intros <-; congruence.
      * eexists. split; [unfold node_id; by rewrite Hgrp|].
        apply lookup_insert_eq.
    + intros k' a Hd.
      destruct (decide (k' = residue_id dup)) as [->|Hkk].
      * rewrite lookup_insert_eq in Hd. simplify_eq.
        split; [apply elem_of_app; right; by apply list_elem_of_singleton|].
        unfold node_id. by rewrite Hgrp.
      * rewrite lookup_insert_ne, lookup_delete_ne in Hd by done.
        destruct (Hdict _ _ Hd) as [Ha Hida].
        assert (a ≠ r) by (intros ->; congruence).
        split; [apply elem_of_app; left; by apply Hinl|].
        apply Hsame; [by apply Hold|done].
  - cbn [chain_entity child_list]. intros [Hx| Hx%list_elem_of_singleton]%elem_of_app.
    + apply Hinl in Hx as [_ ?]. done.
    + lia.
  - by apply Hframe.
  - subst hh. heap_lookup. reflexivity.
  - exact Hframe.
Qed.



(** ** Resetting a group twice *)

(** Replacing a group by a group leaves the children of every sound group,
    and which of them carry its identifier, as they were. *)
Lemma own_id_children_store h g d0 d' d sel :
  h !! g = Some (ODisorderedResidue d0) → group_ok h d →
  group_ok (<[g := ODisorderedResidue d']> h) (mkWrapper (w_id d) (w_child_dict d) sel)
  ∧ own_id_children (<[g := ODisorderedResidue d']> h)
      (mkWrapper (w_id d) (w_child_dict d) sel)
    = own_id_children h d.
Proof.
  intros Hg [Hnd Hkids].
  assert (∀ item, item ∈ w_child_dict d →
            <[g := ODisorderedResidue d']> h !! snd item = h !! snd item) as Hsame.
  { intros item Hin. destruct (proj1 (Forall_forall _ _) Hkids _ Hin) as [r Hr].
    apply list_lookup_insert_ne. intros E. rewrite <- E in Hr. congruence. }
  split.
  - split; [done|]. cbn [w_child_dict]. apply Forall_forall. intros item Hin.
    destruct (proj1 (Forall_forall _ _) Hkids _ Hin) as [r Hr].
    exists r. cbn beta. by rewrite (Hsame _ Hin).
  - unfold own_id_children. cbn [w_id w_child_dict]. apply filter_ext_in.
    intros item Hin. unfold node_id. by rewrite Hsame.
Qed.

(** X15.  [reset_disordered_res] is idempotent: run on the store it has
    left, it leaves that store again.  When some child carries the identifier
    of the group, the store it leaves does not depend on which child was
    selected before. *)
Theorem X15_reset_is_idempotent h g d :
  h !! g = Some (ODisorderedResidue d) →
  group_ok h d →
  let h1 := <[g := ODisorderedResidue (finished h d)]> h in
  reset_disordered_res g h = (Ret tt, h1)
  ∧ reset_disordered_res g h1 = (Ret tt, h1)
  ∧ (own_id_children h d ≠ [] →
     ∀ sel,
       reset_disordered_res g
         (<[g := ODisorderedResidue (mkWrapper (w_id d) (w_child_dict d) sel)]> h)
       = (Ret tt, h1)).
Proof.
  intros Hg Hok. cbv zeta.
  assert (∀ sel,
            reset_disordered_res g
              (<[g := ODisorderedResidue (mkWrapper (w_id d) (w_child_dict d) sel)]> h)
            = (Ret tt,
               <[g := ODisorderedResidue
                        (mkWrapper (w_id d) (w_child_dict d)
                           (match last (own_id_children h d) with
                            | Some item => Some (snd item)
                            | None => sel
                            end))]> h)) as Hany.
  { intros sel.
    destruct (own_id_children_store h g d
                (mkWrapper (w_id d) (w_child_dict d) sel) d sel Hg Hok) as [Hok' Hown].
    erewrite reset_disordered_res_eq; [|by eapply lookup_store_eq|exact Hok'].
    rewrite list_insert_insert_eq. unfold default_child. rewrite Hown. reflexivity. }
  split; [|split].
  - by apply reset_disordered_res_eq.
  - unfold finished at 1. rewrite Hany. unfold finished, default_child.
    do 3 f_equal. by destruct (last (own_id_children h d)).
  - intros Hne sel. rewrite Hany. unfold finished, default_child.
    destruct (last (own_id_children h d)) eqn:El; [done|].
    apply last_None in El. done.
Qed.

Lemma X15_witness :
  let h := mem ala_ser_ala in
  let h1 := <[7%nat := ODisorderedResidue
                         (mkWrapper (" ", 1, " ") [("ALA", 3%nat); ("SER", 6%nat)]
                            (Some 6%nat))]> h in
  reset_disordered_res 7%nat h = (Ret tt, h1)
  ∧ reset_disordered_res 7%nat h1 = (Ret tt, h1).
Proof.
  intros h h1.
  destruct (X15_reset_is_idempotent h 7%nat
              (mkWrapper (" ", 1, " ") [("ALA", 3%nat); ("SER", 6%nat)] (Some 3%nat)))
    as (H1 & H2 & _).
  - vm_compute. reflexivity.
  - split; [compute_done|].
    cbn [w_child_dict]. repeat constructor; eexists; vm_compute; reflexivity.
  - split; [exact H1|exact H2].
Defined.

(** ** Shapes: the classes of the objects, the children of groups and models *)

Lemma same_shape_refl h : same_shape h h.
Proof. split; [intros a o Ha; by exists o|intros a o' Ha Hn; congruence]. Qed.

Lemma same_shape_trans h1 h2 h3 : same_shape h1 h2 → same_shape h2 h3 → same_shape h1 h3.
Proof.
  intros [H12 N12] [H23 N23]. split.
  - intros a o Ha. destruct (H12 _ _ Ha) as (o2 & Ha2 & E2).
    destruct (H23 _ _ Ha2) as (o3 & Ha3 & E3). exists o3. split; [done|congruence].
  - intros a o3 Ha3 Hn. destruct (h2 !! a) as [o2|] eqn:Ha2.
    + destruct (H23 _ _ Ha2) as (o3' & Ha3' & E3). simplify_eq.
      specialize (N12 _ _ Ha2 Hn).
      destruct o2, o3; cbn in E3; try done; cbn in *; congruence.
    + by eapply N23.
Qed.

Lemma same_shape_store h a o o' :
  h !! a = Some o → shape_of o' = shape_of o → same_shape h (<[a:=o']> h).
Proof.
  intros Ha E. split.
  - intros i oi Hi. destruct (decide (a = i)) as [->|Hne].
    + exists o'. split; [by eapply lookup_store_eq|congruence].
    + exists oi. split; [by rewrite list_lookup_insert_ne|done].
  - intros i oi Hi Hn. destruct (decide (a = i)) as [->|Hne]; [congruence|].
    rewrite list_lookup_insert_ne in Hi by done. congruence.
Qed.

Lemma same_shape_alloc h o : bare o → same_shape h (h ++ [o]).
Proof.
  intros E. split.
  - intros i oi Hi. exists oi. split; [by apply lookup_alloc_old|done].
  - intros i oi Hi Hn. apply lookup_ge_None in Hn.
    apply lookup_app_Some in Hi as [Hi|[_ Hi]].
    + apply lookup_lt_Some in Hi. lia.
    + apply list_lookup_singleton_Some in Hi as [_ <-]. exact E.
Qed.

Lemma shape_class o o' : shape_of o' = shape_of o → same_class o o'.
Proof. destruct o, o'; cbn; done. Qed.

Lemma same_shape_classes h h' : same_shape h h' → same_classes h h'.
Proof.
  intros [Hs _] a o Ha. destruct (Hs _ _ Ha) as (o' & Ha' & E).
  exists o'. split; [done|by apply shape_class].
Qed.

Lemma same_classes_refl h : same_classes h h.
Proof. intros a o Ha. exists o. split; [done|by destruct o]. Qed.

Lemma same_classes_trans h1 h2 h3 :
  same_classes h1 h2 → same_classes h2 h3 → same_classes h1 h3.
Proof.
  intros H12 H23 a o Ha. destruct (H12 _ _ Ha) as (o2 & Ha2 & E2).
  destruct (H23 _ _ Ha2) as (o3 & Ha3 & E3). exists o3. split; [done|].
  destruct o, o2, o3; done.
Qed.

Lemma same_classes_residue h h' a r :
  same_classes h h' → h !! a = Some (OResidue r) → ∃ r', h' !! a = Some (OResidue r').
Proof.
  intros Hs Ha. destruct (Hs _ _ Ha) as (o' & Ha' & E). destruct o'; try done. eauto.
Qed.

Lemma same_classes_chain h h' a c :
  same_classes h h' → h !! a = Some (OChain c) → ∃ c', h' !! a = Some (OChain c').
Proof.
  intros Hs Ha. destruct (Hs _ _ Ha) as (o' & Ha' & E). destruct o'; try done. eauto.
Qed.

Lemma tidy_same_shape h h' : tidy h → same_shape h h' → tidy h'.
Proof.
  intros [Hg Hm] Hs. pose proof (same_shape_classes _ _ Hs) as Hc.
  destruct Hs as [Hs Hn]. split.
  - intros g d' Hg'. destruct (h !! g) as [o|] eqn:Ho.
    + destruct (Hs _ _ Ho) as (o' & Hg'' & E). simplify_eq.
      destruct o as [| | |d| | |]; cbn in E; try done. simplify_eq.
      destruct (Hg _ _ Ho) as [Hnd Hkids]. split; [by rewrite E|]. rewrite E.
      eapply Forall_impl; [exact Hkids|]. intros item [r Hr].
      by eapply same_classes_residue.
    + specialize (Hn _ _ Hg' Ho). cbn in Hn. split; rewrite Hn; [apply NoDup_nil_2|done].
  - intros m x' k c Hm' Hk. destruct (h !! m) as [o|] eqn:Ho.
    + destruct (Hs _ _ Ho) as (o' & Hm'' & E). simplify_eq.
      destruct o as [| | | | |x|]; cbn in E; try done. simplify_eq.
      rewrite E in Hk. destruct (Hm _ _ _ _ Ho Hk) as [ch Hch].
      by eapply same_classes_chain.
    + specialize (Hn _ _ Hm' Ho). cbn in Hn. rewrite Hn in Hk. by rewrite lookup_empty in Hk.
Qed.

Lemma still_orderly {A} (m : ST heap A) : still m → orderly m.
Proof.
  intros Hm h. split; [apply same_shape_classes, Hm|].
  intros Ht. eapply tidy_same_shape; [exact Ht|apply Hm].
Qed.

Ltac still_leaf :=
  repeat match goal with
  | |- same_shape ?h ?h => apply same_shape_refl
  | |- same_shape ?h (<[?a:=?o]> ?x) =>
      apply (same_shape_trans h x);
      [|eapply same_shape_store;
          [first [eassumption|eapply lookup_store_eq; eassumption]|reflexivity]]
  | |- same_shape ?h (?x ++ [?o]) =>
      apply (same_shape_trans h x);
      [|apply same_shape_alloc; first [exact I|reflexivity]]
  end.

Ltac survey :=
  repeat (cbn beta iota; cbn [fst snd];
          match goal with
          | |- same_shape _ _ => progress still_leaf
          | |- context [match ?h !! ?a with _ => _ end] => destruct (h !! a) as [[]|] eqn:?
          | |- context [if ?c then _ else _] => destruct c eqn:?
          | |- context [match ?x with _ => _ end] =>
              lazymatch type of x with
              | prod _ _ => fail
              | _ => destruct x eqn:?
              end
          end).

Lemma still_bind {A B} (m : ST heap A) (f : A → ST heap B) :
  still m → (∀ a, still (f a)) → still (bind m f).
Proof.
  intros Hm Hf h. unfold bind. specialize (Hm h).
  destruct (m h) as [[a|e] h1]; cbn [snd] in *; [|done].
  eapply same_shape_trans; [exact Hm|apply Hf].
Qed.

Lemma still_ret {A} (a : A) : still (ret a).
Proof. intros h. apply same_shape_refl. Qed.

Lemma still_raise {A} e : still (@raise heap A e).
Proof. intros h. apply same_shape_refl. Qed.

Lemma still_of_outcome {A} (o : outcome A) : still (of_outcome o).
Proof. intros h. apply same_shape_refl. Qed.

Lemma still_for_each {A} (l : list A) body :
  (∀ x, still (body x)) → still (for_each l body).
Proof.
  intros Hb. induction l as [|x l IH]; cbn [for_each]; [apply still_ret|].
  apply still_bind; [apply Hb|by intros _].
Qed.

(** A method without loops is taken apart step by step. *)
Ltac still_steps := intros h; unfold_monad; survey.

Lemma still_load a : still (load a).
Proof. still_steps. Qed.
Lemma still_load_atom a : still (load_atom a).
Proof. still_steps. Qed.
Lemma still_load_residue a : still (load_residue a).
Proof. still_steps. Qed.
Lemma still_load_disordered_atom a : still (load_disordered_atom a).
Proof. still_steps. Qed.
Lemma still_load_disordered_residue a : still (load_disordered_residue a).
Proof. still_steps. Qed.
Lemma still_load_chain a : still (load_chain a).
Proof. still_steps. Qed.
Lemma still_as_residue a : still (as_residue a).
Proof. unfold as_residue. still_steps. Qed.
Lemma still_atom_is_disordered a : still (atom_is_disordered a).
Proof. unfold atom_is_disordered. still_steps. Qed.
Lemma still_atom_get_fullname a : still (atom_get_fullname a).
Proof. unfold atom_get_fullname. still_steps. Qed.
Lemma still_Residue_has_id a name : still (Residue_has_id a name).
Proof. unfold Residue_has_id, as_residue. still_steps. Qed.
Lemma still_Residue_getitem a name : still (Residue_getitem a name).
Proof. unfold Residue_getitem, as_residue, Entity_getitem. still_steps. Qed.
Lemma still_residue_is_disordered a : still (residue_is_disordered a).
Proof. unfold residue_is_disordered. still_steps. Qed.
Lemma still_disordered_has_id g name : still (disordered_has_id g name).
Proof. unfold disordered_has_id. still_steps. Qed.
Lemma still_Chain_has_id c k : still (Chain_has_id c k).
Proof. unfold Chain_has_id. still_steps. Qed.
Lemma still_Chain_getitem c k : still (Chain_getitem c k).
Proof. unfold Chain_getitem, Entity_getitem. still_steps. Qed.
Lemma still_Model_has_id c k : still (Model_has_id c k).
Proof. unfold Model_has_id. still_steps. Qed.
Lemma still_Model_getitem c k : still (Model_getitem c k).
Proof. unfold Model_getitem, Entity_getitem. still_steps. Qed.
Lemma still_PeptideChain_update c : still (PeptideChain_update c).
Proof. unfold PeptideChain_update. still_steps. Qed.

Lemma still_unpack l : still (unpack l).
Proof.
  induction l as [|x l IH]; cbn [unpack]; [apply still_ret|].
  apply still_bind; [apply still_atom_is_disordered|intros flag].
  apply still_bind.
  - destruct (negb _); [|apply still_ret].
    apply still_bind; [apply still_load_disordered_atom|intros d; apply still_ret].
  - intros here. apply still_bind; [exact IH|intros rest; apply still_ret].
Qed.

Lemma still_no_blank_altloc l : still (no_blank_altloc l).
Proof.
  induction l as [|x l IH]; cbn [no_blank_altloc]; [apply still_ret|].
  apply still_bind; [apply still_load_atom|intros a].
  destruct (decide _); [apply still_ret|exact IH].
Qed.

Lemma still_is_completely_disordered r : still (_is_completely_disordered r).
Proof.
  unfold _is_completely_disordered, get_unpacked_list.
  apply still_bind; [|intros l; apply still_no_blank_altloc].
  apply still_bind; [apply still_as_residue|intros t].
  apply still_bind; [apply still_load_residue|intros x]. apply still_unpack.
Qed.

Lemma still_alloc o : bare o → still (alloc o).
Proof. intros E h. unfold alloc. cbn [snd]. by apply same_shape_alloc. Qed.

Lemma still_DisorderedAtom_disordered_add g a : still (DisorderedAtom_disordered_add g a).
Proof. unfold DisorderedAtom_disordered_add. still_steps. Qed.

Lemma still_Residue_detach_child a name : still (Residue_detach_child a name).
Proof. unfold Residue_detach_child, as_residue, Entity_detach_child. still_steps. Qed.

Lemma still_Residue_flag_disordered a : still (Residue_flag_disordered a).
Proof. unfold Residue_flag_disordered, as_residue. still_steps. Qed.

Lemma still_plain_Residue_add t child : still (plain_Residue_add t child).
Proof. unfold plain_Residue_add, atom_get_id, Entity_add. still_steps. Qed.

Lemma still_DisorderedResidue_add g child : still (DisorderedResidue_add g child).
Proof.
  unfold DisorderedResidue_add.
  apply still_bind; [apply still_load_disordered_residue|intros d].
  apply still_bind; [unfold selected; destruct (selected_child d);
                     [apply still_ret|apply still_raise]|intros t].
  apply still_bind; [apply still_atom_is_disordered|intros flag].
  destruct (negb _); [|apply still_plain_Residue_add].
  apply still_bind; [apply still_load_residue|intros r].
  apply still_bind; [apply still_plain_Residue_add|intros _].
  destruct (residue_id r) as [[? ?] ?]. apply still_raise.
Qed.

Lemma still_Residue_add a child : still (Residue_add a child).
Proof.
  unfold Residue_add. apply still_bind; [apply still_load|intros o].
  destruct o; try apply still_raise;
    [apply still_plain_Residue_add|apply still_DisorderedResidue_add].
Qed.

Lemma still_disordered_select g name : still (disordered_select g name).
Proof. unfold disordered_select. still_steps. Qed.

Lemma still_Chain_add c child : still (Chain_add c child).
Proof. unfold Chain_add, residue_get_id, Entity_add. still_steps. Qed.

Lemma still_Chain_detach_child c k : still (Chain_detach_child c k).
Proof. unfold Chain_detach_child, Entity_detach_child. still_steps. Qed.

Lemma still_Structure_add s child : still (Structure_add s child).
Proof. unfold Structure_add, Entity_add. still_steps. Qed.

Lemma still_reset_disordered_res g : still (reset_disordered_res g).
Proof.
  unfold reset_disordered_res.
  apply still_bind; [apply still_load_disordered_residue|intros d].
  apply still_for_each. intros item.
  apply still_bind; [apply still_load_residue|intros r].
  destruct (decide _); [apply still_disordered_select|apply still_ret].
Qed.

Lemma tidy_store_group h g d d' :
  tidy h → h !! g = Some (ODisorderedResidue d) → group_ok h d' →
  tidy (<[g := ODisorderedResidue d']> h).
Proof.
  intros [Hg Hm] Hd Hok'.
  assert (∀ a r, h !! a = Some (OResidue r) →
            <[g := ODisorderedResidue d']> h !! a = Some (OResidue r)) as Hres.
  { intros a r Ha. rewrite list_lookup_insert_ne; [done|]. intros <-. congruence. }
  assert (∀ d0, group_ok h d0 → group_ok (<[g := ODisorderedResidue d']> h) d0) as Hkeep.
  { intros d0 [Hnd Hkids]. split; [done|].
    eapply Forall_impl; [exact Hkids|]. intros item [r Hr]. exists r. by apply Hres. }
  split.
  - intros g' d'' Hg'. destruct (decide (g = g')) as [<-|Hne].
    + rewrite (lookup_store_eq _ _ _ _ Hd) in Hg'. simplify_eq. by apply Hkeep.
    + rewrite list_lookup_insert_ne in Hg' by done. apply Hkeep. by eapply Hg.
  - intros m x k c Hx Hk.
    assert (g ≠ m) as Hgm by (intros <-; rewrite (lookup_store_eq _ _ _ _ Hd) in Hx; done).
    rewrite list_lookup_insert_ne in Hx by done.
    destruct (Hm _ _ _ _ Hx Hk) as [ch Hch]. exists ch.
    rewrite list_lookup_insert_ne; [done|]. intros <-. congruence.
Qed.

Lemma tidy_store_model h m x x' :
  tidy h → h !! m = Some (OModel x) →
  (∀ k c, child_dict (model_entity x') !! k = Some c → ∃ ch, h !! c = Some (OChain ch)) →
  tidy (<[m := OModel x']> h).
Proof.
  intros [Hg Hm] Hx Hkids.
  assert (∀ a o, a ≠ m → h !! a = Some o → <[m := OModel x']> h !! a = Some o) as Hoth.
  { intros a o Ha Ho. by rewrite list_lookup_insert_ne. }
  split.
  - intros g d Hd.
    assert (m ≠ g) as Hne by (intros <-; rewrite (lookup_store_eq _ _ _ _ Hx) in Hd; done).
    rewrite list_lookup_insert_ne in Hd by done.
    destruct (Hg _ _ Hd) as [Hnd Hk]. split; [done|].
    eapply Forall_impl; [exact Hk|]. intros item [r Hr]. exists r.
    apply Hoth; [|done]. intros E. rewrite E in Hr. congruence.
  - intros m' x'' k c Hx' Hk.
    assert (∃ ch, h !! c = Some (OChain ch)) as [ch Hch].
    { destruct (decide (m = m')) as [<-|Hne].
      - rewrite (lookup_store_eq _ _ _ _ Hx) in Hx'. simplify_eq. by eapply Hkids.
      - rewrite list_lookup_insert_ne in Hx' by done. by eapply Hm. }
    exists ch. apply Hoth; [|done]. intros E. rewrite E in Hch. congruence.
Qed.

Lemma same_classes_store h a o o' :
  h !! a = Some o → same_class o o' → same_classes h (<[a:=o']> h).
Proof.
  intros Ha E i oi Hi. destruct (decide (a = i)) as [->|Hne].
  - exists o'. split; [by eapply lookup_store_eq|]. by simplify_eq.
  - exists oi. split; [by rewrite list_lookup_insert_ne|by destruct oi].
Qed.

Lemma dict_get_None_keys {K V} `{EqDecision K} (d : list (K * V)) k :
  dict_get d k = None → k ∉ d.*1.
Proof.
  induction d as [|[k' v'] d IH]; cbn [dict_get]; [intros _ Hin; by apply elem_of_nil in Hin|].
  destruct (decide (k' = k)); [done|]. intros E Hin. cbn in Hin.
  apply elem_of_cons in Hin as [->|Hin]; [done|by apply IH].
Qed.

Lemma orderly_DisorderedResidue_disordered_add g child :
  orderly (DisorderedResidue_disordered_add g child).
Proof.
  intros h.
  destruct (h !! child) as [oc|] eqn:Hc.
  2:{ unfold DisorderedResidue_disordered_add. unfold_monad. rewrite Hc. msimpl.
      split; [apply same_classes_refl|done]. }
  destruct oc as [| |r| | | |];
    try (unfold DisorderedResidue_disordered_add; unfold_monad; rewrite Hc; msimpl;
         split; [apply same_classes_refl|done]).
  destruct (h !! g) as [og|] eqn:Hg.
  2:{ unfold DisorderedResidue_disordered_add. unfold_monad. rewrite Hc, Hg. msimpl.
      split; [apply same_classes_refl|done]. }
  destruct og as [| | |d| | |];
    try (unfold DisorderedResidue_disordered_add; unfold_monad; rewrite Hc, Hg; msimpl;
         split; [apply same_classes_refl|done]).
  destruct (dict_get (w_child_dict d) (resname r)) as [x|] eqn:Hd.
  { unfold DisorderedResidue_disordered_add.
    rewrite (bind_Ret _ _ _ _ _ (load_residue_eq _ _ _ Hc)).
    rewrite (bind_Ret _ _ _ _ _ (load_disordered_residue_eq _ _ _ Hg)).
    rewrite (dict_has_true _ _ _ Hd). split; [apply same_classes_refl|done]. }
  rewrite (DisorderedResidue_disordered_add_eq _ _ _ _ _ Hc Hg Hd). cbn [snd]. split.
  - by eapply same_classes_store.
  - intros Ht. eapply tidy_store_group; [done|done|].
    destruct (proj1 Ht _ _ Hg) as [Hnd Hkids]. split; cbn [w_child_dict].
    + rewrite fmap_app. apply NoDup_app. split; [done|]. split; [|apply NoDup_singleton].
      intros k Hk ->%list_elem_of_singleton. by apply (dict_get_None_keys _ _ Hd).
    + apply Forall_app. split; [done|]. constructor; [|done]. by exists r.
Qed.

Lemma orderly_Model_add m child : orderly (Model_add m child).
Proof.
  intros h. unfold Model_add.
  destruct (h !! child) as [oc|] eqn:Hc.
  2:{ unfold_monad. rewrite Hc. msimpl. split; [apply same_classes_refl|done]. }
  destruct oc as [| | | |ch| |];
    try (unfold_monad; rewrite Hc; msimpl; split; [apply same_classes_refl|done]).
  rewrite (bind_Ret _ _ _ _ _ (load_chain_eq _ _ _ Hc)).
  destruct (h !! m) as [om|] eqn:Hm.
  2:{ unfold_monad. rewrite Hm. msimpl. split; [apply same_classes_refl|done]. }
  destruct om as [| | | | |x|];
    try (unfold_monad; rewrite Hm; msimpl; split; [apply same_classes_refl|done]).
  rewrite (bind_Ret _ _ _ _ _ (load_model_eq _ _ _ Hm)).
  unfold Entity_add.
  destruct (Entity_has_id (model_entity x) (chain_id ch)) eqn:Hhas;
    unfold store, of_outcome, bind; cbn [snd].
  - split; [by eapply same_classes_store|]. intros Ht.
    eapply tidy_store_model; [done|done|]. cbn [model_entity]. intros k c Hk.
    by eapply (proj2 Ht).
  - split; [by eapply same_classes_store|]. intros Ht.
    eapply tidy_store_model; [done|done|]. cbn [model_entity child_dict].
    intros k c [[<- <-]|[_ Hk]]%lookup_insert_Some; [by exists ch|].
    by eapply (proj2 Ht).
Qed.

Lemma settled_on_heap {A} (m : ST heap A) : orderly m → preserves settled (on_heap m).
Proof.
  intros Hm b [Ht Hc]. unfold on_heap. destruct (Hm (mem b)) as [Hcl Htidy].
  destruct (m (mem b)) as [o h']. cbn [snd] in *. split; [by apply Htidy|].
  intros c Hchain. destruct (Hc _ Hchain) as [ch Hch]. by eapply same_classes_chain.
Qed.

Create HintDb still discriminated.
#[export] Hint Resolve still_ret still_raise still_of_outcome still_load still_load_atom
  still_load_residue still_load_disordered_atom still_load_disordered_residue
  still_load_chain still_as_residue still_atom_is_disordered still_atom_get_fullname
  still_Residue_has_id still_Residue_getitem still_residue_is_disordered
  still_disordered_has_id still_Chain_has_id still_Chain_getitem still_Model_has_id
  still_Model_getitem still_PeptideChain_update still_is_completely_disordered
  still_DisorderedAtom_disordered_add still_Residue_detach_child
  still_Residue_flag_disordered still_Residue_add still_disordered_select
  still_Chain_add still_Chain_detach_child still_Structure_add
  still_reset_disordered_res : still.

Ltac orderly_call :=
  first
    [ apply orderly_DisorderedResidue_disordered_add | apply orderly_Model_add
    | apply still_orderly;
      first [ solve [auto with still]
            | apply still_alloc; first [exact I|reflexivity] ] ].

(** Walks a builder method that does not assign [self.chain]. *)
Ltac settle :=
  repeat first
    [ apply preserves_ret | apply preserves_raise | apply preserves_gets
    | apply preserves_attr
    | apply settled_on_heap; orderly_call
    | apply preserves_bind; [|intros ?]
    | match goal with
      | |- preserves _ (if ?c then _ else _) => destruct c
      | |- preserves _ (match ?c with _ => _ end) => destruct c
      | |- preserves _ (modify _) => intros ? ?; assumption
      | |- preserves _ (warn _) => intros ? ?; assumption
      end ].

Lemma init_structure_settled id : preserves settled (init_structure id).
Proof. unfold init_structure. settle. Qed.

Lemma init_model_settled id serial : preserves settled (init_model id serial).
Proof.
  unfold init_model. apply preserves_bind; [|intros m; settle].
  apply settled_on_heap, still_orderly, still_alloc. reflexivity.
Qed.

Lemma init_chain_settled id : preserves settled (init_chain id).
Proof.
  unfold init_chain. apply preserves_bind; [apply preserves_attr|intros m].
  apply preserves_bind; [apply settled_on_heap; orderly_call|intros present].
  destruct present.
  - intros b [Ht Hc]. unfold bind at 1, on_heap.
    destruct (Model_getitem m id (mem b)) as [[c|e] h'] eqn:Hget.
    + assert (h' = mem b ∧ ∃ ch, mem b !! c = Some (OChain ch)) as [-> [ch Hch]].
      { revert Hget. unfold Model_getitem, Entity_getitem. unfold_monad.
        destruct (mem b !! m) as [[| | | | |x|]|] eqn:Hm; try (intros; by simplify_eq).
        destruct (child_dict (model_entity x) !! id) as [c'|] eqn:Hk;
          intros; simplify_eq. split; [done|]. by eapply (proj2 Ht). }
      unfold modify, warn, bind. cbn [snd]. split; [by destruct b|].
      intros c' Hc'. destruct b. state_simpl. simplify_eq. eauto.
    + cbn [snd]. pose proof (still_Model_getitem m id (mem b)) as Hs.
      rewrite Hget in Hs. cbn [snd] in Hs. split.
      * destruct b. state_simpl. by eapply tidy_same_shape.
      * intros c Hchain. destruct b. state_simpl. destruct (Hc _ Hchain) as [ch Hch].
        eapply same_classes_chain; [by apply same_shape_classes|done].
  - intros b [Ht Hc]. unfold bind at 1, on_heap, new_PeptideChain, alloc. cbn beta iota.
    unfold bind at 1, modify. cbn beta iota.
    apply (settled_on_heap (Model_add m (length (mem b))) (orderly_Model_add _ _)).
    split.
    + destruct b. state_simpl. eapply tidy_same_shape; [exact Ht|].
      by apply same_shape_alloc.
    + intros c Hchain. destruct b. state_simpl. simplify_eq. eexists. apply lookup_alloc_new.
Qed.

Lemma process_disordered_res_settled r id name :
  preserves settled (process_disordered_res r id name).
Proof.
  unfold process_disordered_res. destruct id as [[field resseq] icode].
  unfold new_Residue, new_DisorderedResidue. settle.
Qed.

Lemma init_residue_settled f name field resseq icode :
  preserves settled (init_residue f name field resseq icode).
Proof.
  unfold init_residue, process_duplicate_res, process_duplicate_het, new_Residue.
  cbv zeta. settle; apply process_disordered_res_settled.
Qed.

Lemma add_atom_settled rec : preserves settled (add_atom rec).
Proof.
  unfold add_atom, init_atom. intros b Hb. destruct (residue b) as [| |ra]; [done|done|].
  match goal with
  | |- settled (snd (?m b)) => revert b Hb; change (preserves settled m)
  end.
  unfold disambiguate, place_atom, new_Atom, new_DisorderedAtom. settle.
  apply settled_on_heap. destruct (negb _); orderly_call.
Qed.

Lemma finish_chain_construction_settled : preserves settled finish_chain_construction.
Proof.
  unfold finish_chain_construction. intros b Hb. destruct (chain b) as [c|]; [|done].
  apply settled_on_heap; [|done]. apply still_orderly.
  apply still_bind; [apply still_load_chain|intros ch].
  apply still_bind; [|intros _; apply still_PeptideChain_update].
  apply still_for_each. intros res. apply still_bind; [apply still_load|intros o].
  destruct o; try apply still_ret. apply still_reset_disordered_res.
Qed.

Lemma handle_settled f e : preserves settled (handle f e).
Proof.
  destruct e; cbn [handle].
  - apply init_structure_settled.
  - apply init_model_settled.
  - by intros b Hb.
  - by intros b Hb.
  - apply init_chain_settled.
  - apply init_residue_settled.
  - apply add_atom_settled.
  - apply finish_chain_construction_settled.
Qed.

Lemma run_settled f b evs : settled b → settled (run f b evs).
Proof.
  revert b. induction evs as [|e evs IH]; intros b Hb; [done|].
  rewrite run_cons. apply IH. by apply handle_settled.
Qed.

Lemma new_Builder_settled : settled new_Builder.
Proof.
  split; [split|].
  - intros g d Hg. cbn [new_Builder mem] in Hg. by rewrite lookup_nil in Hg.
  - intros m x k c Hm. cbn [new_Builder mem] in Hm. by rewrite lookup_nil in Hm.
  - intros c Hc. done.
Qed.

(** ** The finishing pass on the states a stream leads to *)

Lemma children_ok_of_invariants h ch :
  chain_ok h ch → groups_ok h → children_ok h ch.
Proof.
  intros (_ & Hlist & _) Hg. apply Forall_forall. intros a Ha.
  destruct (Hlist _ Ha) as (k & Hk & _). split.
  - unfold node_id in Hk. destruct (h !! a); [eauto|done].
  - intros d Hd. by eapply Hg.
Qed.

(** X16.  In every state that a stream of events leads to from a new
    builder, every DisorderedResidue has Residues for children, under
    distinct names, and [self.chain], once assigned, is a Chain of the store
    whose residue-level nodes all exist.  Hence the finishing pass never
    raises there: it returns normally, changes the store only, and leaves
    every DisorderedResidue of the chain with the selection the reset
    gives. *)
Theorem X16_finishing_pass_never_fails find_het evs :
  let b := run find_het new_Builder evs in
  (∀ g d, mem b !! g = Some (ODisorderedResidue d) → group_ok (mem b) d)
  ∧ (∀ c, chain b = Some c →
          ∃ ch, mem b !! c = Some (OChain ch) ∧ children_ok (mem b) ch)
  ∧ ∃ h',
      finish_chain_construction b = (Ret tt, set_mem h' b)
      ∧ ∀ c ch g d,
          chain b = Some c → mem b !! c = Some (OChain ch) →
          g ∈ child_list (chain_entity ch) →
          mem b !! g = Some (ODisorderedResidue d) →
          h' !! g = Some (ODisorderedResidue (finished (mem b) d)).
Proof.
  intros b.
  assert (settled b) as [[Hgroups Hmodels] Hcursor]
    by (apply run_settled, new_Builder_settled).
  assert (chains_ok b) as Hchains by (apply run_ok, new_Builder_ok).
  assert (∀ c, chain b = Some c →
               ∃ ch, mem b !! c = Some (OChain ch) ∧ children_ok (mem b) ch) as Hchain.
  { intros c Hc. destruct (Hcursor _ Hc) as [ch Hch]. exists ch. split; [done|].
    apply children_ok_of_invariants; [exact (Hchains _ _ Hch)|done]. }
  split; [exact Hgroups|]. split; [exact Hchain|].
  destruct (chain b) as [c|] eqn:Hc.
  - destruct (Hchain c eq_refl) as (ch & Hch & Hok).
    destruct (finish_loop (mem b) (mem b) (child_list (chain_entity ch)))
      as (h' & Hrun & Hm & _ & Hdone & _); [by left|exact Hok|].
    exists h'. split.
    + unfold finish_chain_construction. rewrite Hc.
      erewrite on_heap_eq; [reflexivity|].
      erewrite bind_Ret by (by apply load_chain_eq).
      erewrite bind_Ret by exact Hrun.
      unfold PeptideChain_update.
      erewrite bind_Ret; [reflexivity|]. apply load_chain_eq.
      destruct (Hm c) as [E|(d & E0 & _)]; [by rewrite E|].
      rewrite Hch in E0. discriminate.
    + intros c' ch' g d Hc' Hch' Hin Hg. simplify_eq. by eapply Hdone.
  - exists (mem b). split.
    + unfold finish_chain_construction. by rewrite Hc, set_mem_id.
    + intros c ch g d Hc'. done.
Qed.

Import (notations) Stdlib.Strings.Ascii.

(** ** Words and comments of a topology line *)

Lemma find_from_shift i j s c :
  0 ≤ i → 0 ≤ j → RTFParser.find_from i s c = -1 → RTFParser.find_from j s c = -1.
Proof.
  revert i j. induction s as [|a s IH]; intros i j Hi Hj; cbn [RTFParser.find_from]; [done|].
  destruct (Ascii.eqb a c); [lia|]. apply IH; lia.
Qed.

Lemma find_cons_none x s c :
  RTFParser.find (String x s) c = -1 ↔ Ascii.eqb x c = false ∧ RTFParser.find s c = -1.
Proof.
  unfold RTFParser.find. cbn [RTFParser.find_from]. destruct (Ascii.eqb x c).
  - split; [lia|by intros [? _]].
  - split.
    + intros E. split; [done|]. by apply (find_from_shift (0 + 1)).
    + intros [_ E]. by apply (find_from_shift 0).
Qed.

Lemma split_once_absent s c :
  RTFParser.find s c = -1 → RTFParser.split_once s c = [s].
Proof.
  induction s as [|x s IH]; [done|]. intros [E Hs]%find_cons_none.
  cbn [RTFParser.split_once]. by rewrite E, IH.
Qed.

Lemma split_once_present s c :
  RTFParser.find s c ≠ -1 →
  ∃ a b, RTFParser.split_once s c = [a; b] ∧ s = a +:+ String c b ∧ RTFParser.find a c = -1.
Proof.
  induction s as [|x s IH]; [done|]. intros Hf.
  cbn [RTFParser.split_once]. destruct (Ascii.eqb x c) eqn:E.
  - apply Ascii.eqb_eq in E as ->. by exists "", s.
  - destruct IH as (a & b & -> & -> & Ha).
    { intros Hs. apply Hf. by apply find_cons_none. }
    exists (String x a), b. split; [done|]. split; [done|]. by apply find_cons_none.
Qed.

Lemma find_app_present a b c :
  RTFParser.find a c = -1 →
  RTFParser.find (a +:+ String c b) c ≠ -1
  ∧ RTFParser.split_once (a +:+ String c b) c = [a; b].
Proof.
  induction a as [|x a IH].
  - intros _. change ("" +:+ String c b) with (String c b).
    unfold RTFParser.find. cbn [RTFParser.find_from RTFParser.split_once].
    by rewrite Ascii.eqb_refl.
  - intros [E Ha]%find_cons_none. destruct (IH Ha) as [Hf Hs].
    change (String x a +:+ String c b) with (String x (a +:+ String c b)). split.
    + rewrite find_cons_none. by intros [_ ?].
    + cbn [RTFParser.split_once]. by rewrite E, Hs.
Qed.

Lemma comment_parser_absent line :
  RTFParser.find line "!" = -1 → RTFParser.comment_parser line = Ret (line, None).
Proof. intros E. unfold RTFParser.comment_parser. by rewrite E. Qed.

Lemma comment_parser_present a b :
  RTFParser.find a "!" = -1 →
  RTFParser.comment_parser (a +:+ String "!" b) = Ret (a, Some (RTFParser.strip b)).
Proof.
  intros Ha. destruct (find_app_present a b "!" Ha) as [Hf Hs].
  unfold RTFParser.comment_parser. rewrite Hs.
  destruct (Z.eqb_spec (RTFParser.find (a +:+ String "!"%char b) "!") (-1)); done.
Qed.

(** X17.  [comment_parser] never raises.  A line without an exclamation
    mark is returned whole, with no comment.  Any other line is cut at its
    first exclamation mark: the field part is the text before it, which
    holds no exclamation mark, the comment is the rest of the line with the
    whitespace at its two ends stripped, and the line is the field part, the
    mark and the rest put together again. *)
Theorem X17_comment_parser_cuts_at_first_mark line :
  ∃ field_str desc,
    RTFParser.comment_parser line = Ret (field_str, desc)
    ∧ RTFParser.find field_str "!" = -1
    ∧ (desc = None ↔ RTFParser.find line "!" = -1)
    ∧ (desc = None → field_str = line)
    ∧ ∀ d, desc = Some d →
           ∃ rest, line = field_str +:+ String "!" rest ∧ d = RTFParser.strip rest.
Proof.
  destruct (Z.eq_dec (RTFParser.find line "!") (-1)) as [E|E].
  - exists line, None. rewrite (comment_parser_absent _ E). by repeat split.
  - destruct (split_once_present _ _ E) as (a & b & _ & -> & Ha).
    exists a, (Some (RTFParser.strip b)). rewrite (comment_parser_present _ _ Ha).
    split; [done|]. split; [done|]. split; [by split|]. split; [done|].
    intros d [= <-]. by exists b.
Qed.


Lemma fields_of_total line :
  ∃ field_str, RTFParser.fields_of line = Ret field_str
               ∧ RTFParser.find field_str "!" = -1.
Proof.
  unfold RTFParser.fields_of.
  destruct (Z.eq_dec (RTFParser.find line "!") (-1)) as [E|E].
  - exists line. by rewrite (comment_parser_absent _ E).
  - destruct (split_once_present _ _ E) as (a & b & _ & -> & Ha).
    exists a. by rewrite (comment_parser_present _ _ Ha).
Qed.

Lemma every_other_cons {A} (y : A) l :
  RTFParser.every_other (y :: l) = y :: RTFParser.every_other (drop 1 l).
Proof. by destruct l. Qed.

Lemma zip_every_other {A} (k : nat) (l : list A) :
  length l = (2 * k)%nat →
  let pairs := zip (RTFParser.every_other l) (RTFParser.every_other (drop 1 l)) in
  members pairs = l ∧ length pairs = k.
Proof.
  revert l. induction k as [|k IH]; intros l Hl.
  - by destruct l.
  - destruct l as [|x [|y l]]; cbn [length] in Hl; [lia..|].
    destruct (IH l) as [Hm Hlen]; [lia|].
    change (drop 1 (x :: y :: l)) with (y :: l). rewrite (every_other_cons y l).
    change (RTFParser.every_other (x :: y :: l)) with (x :: RTFParser.every_other l).
    cbn [zip zip_with length]. split; [|by rewrite Hlen].
    unfold members in *. cbn [fmap list_fmap concat fst snd app]. by rewrite Hm.
Qed.

Lemma even_length (n : nat) : Z.of_nat n mod 2 = 0 → ∃ k, n = (2 * k)%nat.
Proof.
  intros E. exists (Z.to_nat (Z.of_nat n / 2)).
  revert E. generalize (Z.of_nat n) (Nat2Z.is_nonneg n) (Nat2Z.id n).
  intros z Hz Hid E. rewrite <- Hid at 1. Z.div_mod_to_equations. lia.
Qed.

(** X18.  [pairwise_parser] reads the fields after the keyword, up to the
    comment.  When their number is odd it raises ValueError; otherwise it
    returns half as many pairs, and the pairs, read from left to right, are
    the fields: no atom name is dropped, repeated or moved. *)
Theorem X18_pairwise_parser_pairs_the_fields line :
  let fields := data_fields line in
  (Z.of_nat (length fields) mod 2 = 1 → RTFParser.pairwise_parser line = Raise ValueError)
  ∧ (Z.of_nat (length fields) mod 2 = 0 →
     ∃ pairs, RTFParser.pairwise_parser line = Ret pairs
              ∧ members pairs = fields
              ∧ length fields = (2 * length pairs)%nat).
Proof.
  unfold data_fields, all_fields, RTFParser.pairwise_parser.
  destruct (fields_of_total line) as (f & -> & _). cbv zeta. split.
  - intros ->. reflexivity.
  - intros E. rewrite E. cbn [Z.eqb]. eexists. split; [reflexivity|].
    destruct (even_length _ E) as [k Hk].
    destruct (zip_every_other k _ Hk) as [Hm Hlen]. split; [exact Hm|]. by rewrite Hlen.
Qed.

(** X19.  [quad_parser] raises ValueError unless the number of fields after
    the keyword is a multiple of four, and else returns two tuples: the
    first four fields and all the fields after them.  The two are
    quadruples only for eight fields; four fields give a quadruple and an
    empty tuple, twelve a quadruple and a tuple of eight. *)
Theorem X19_quad_parser_returns_two_tuples line :
  let fields := data_fields line in
  (Z.of_nat (length fields) mod 4 ≠ 0 → RTFParser.quad_parser line = Raise ValueError)
  ∧ (Z.of_nat (length fields) mod 4 = 0 →
     RTFParser.quad_parser line = Ret (take 4 fields, drop 4 fields)
     ∧ take 4 fields ++ drop 4 fields = fields
     ∧ length (take 4 fields) = Nat.min 4 (length fields)
     ∧ length (drop 4 fields) = (length fields - 4)%nat
     ∧ (length (take 4 fields) = 4%nat ∧ length (drop 4 fields) = 4%nat
        ↔ length fields = 8%nat)).
Proof.
  unfold data_fields, all_fields, RTFParser.quad_parser.
  destruct (fields_of_total line) as (f & -> & _). cbv zeta.
  set (fields := drop 1 (RTFParser.split f)). split.
  - intros E. by destruct (Z.eqb_spec (Z.of_nat (length fields) mod 4) 0).
  - intros E. rewrite E. cbn [Z.eqb negb]. split; [done|].
    split; [apply take_drop|]. rewrite length_take, length_drop.
    split; [done|]. split; [done|]. lia.
Qed.

(** X20.  The parsers that unpack a fixed number of fields raise ValueError
    on any other number: [mass_parser] and [atom_parser] return exactly when
    the line has four fields before the comment, [resi_parser] when it has
    three, [octa_parser] when eight fields follow the keyword and
    [delete_parser] when two do. *)
Theorem X20_fixed_number_of_fields line :
  (if decide (length (all_fields line) = 4%nat)
   then ∃ r, RTFParser.mass_parser line = Ret r
   else RTFParser.mass_parser line = Raise ValueError)
  ∧ (if decide (length (all_fields line) = 4%nat)
     then ∃ r, RTFParser.atom_parser line = Ret r
     else RTFParser.atom_parser line = Raise ValueError)
  ∧ (if decide (length (all_fields line) = 3%nat)
     then ∃ r, RTFParser.resi_parser line = Ret r
     else RTFParser.resi_parser line = Raise ValueError)
  ∧ (if decide (length (data_fields line) = 8%nat)
     then RTFParser.octa_parser line
          = Ret (take 4 (data_fields line), drop 4 (data_fields line))
     else RTFParser.octa_parser line = Raise ValueError)
  ∧ (if decide (length (data_fields line) = 2%nat)
     then ∃ a b, data_fields line = [a; b] ∧ RTFParser.delete_parser line = Ret (a, b)
     else RTFParser.delete_parser line = Raise ValueError).
Proof.
  unfold data_fields, all_fields, RTFParser.mass_parser, RTFParser.atom_parser,
    RTFParser.resi_parser, RTFParser.octa_parser, RTFParser.delete_parser.
  destruct (fields_of_total line) as (f & Hf & _). rewrite Hf.
  assert (∃ d, RTFParser.comment_parser line = Ret (f, d)) as [d ->].
  { revert Hf. unfold RTFParser.fields_of.
    destruct (RTFParser.comment_parser line) as [[f' d']|]; [|done].
    intros [= ->]. by exists d'. }
  cbv zeta. set (l := RTFParser.split f).
  split; [|split; [|split; [|split]]].
  - destruct l as [|a [|b [|c [|d' [|e l]]]]]; cbn [length]; try done.
    rewrite decide_True by done. eauto.
  - destruct l as [|a [|b [|c [|d' [|e l]]]]]; cbn [length]; try done.
    rewrite decide_True by done. eauto.
  - destruct l as [|a [|b [|c [|d' l]]]]; cbn [length]; try done.
    rewrite decide_True by done. eauto.
  - destruct (decide (length (drop 1 l) = 8%nat)) as [E|E].
    + by rewrite E.
    + destruct (Z.eqb_spec (Z.of_nat (length (drop 1 l))) 8); [lia|done].
  - destruct (decide (length (drop 1 l) = 2%nat)) as [E|E].
    + rewrite E. cbn [Z.eqb negb Pos.eqb].
      destruct (drop 1 l) as [|a [|b [|c l']]]; cbn [length] in E; try lia.
      exists a, b. done.
    + destruct (Z.eqb_spec (Z.of_nat (length (drop 1 l))) 2); [lia|done].
Qed.

(** X21.  What follows the first exclamation mark of a line reaches no
    field: the parsers that read the fields only return on a line with a
    comment what they return on the line without it. *)
Theorem X21_comments_reach_no_field field_str comment :
  RTFParser.find field_str "!" = -1 →
  let line := field_str +:+ String "!" comment in
  all_fields line = all_fields field_str
  ∧ RTFParser.decl_parser line = RTFParser.decl_parser field_str
  ∧ RTFParser.defa_parser line = RTFParser.defa_parser field_str
  ∧ RTFParser.auto_parser line = RTFParser.auto_parser field_str
  ∧ RTFParser.atom_parser line = RTFParser.atom_parser field_str
  ∧ RTFParser.pairwise_parser line = RTFParser.pairwise_parser field_str
  ∧ RTFParser.quad_parser line = RTFParser.quad_parser field_str
  ∧ RTFParser.octa_parser line = RTFParser.octa_parser field_str
  ∧ RTFParser.delete_parser line = RTFParser.delete_parser field_str.
Proof.
  intros Hf line.
  assert (RTFParser.fields_of line = RTFParser.fields_of field_str) as E.
  { unfold RTFParser.fields_of, line.
    by rewrite (comment_parser_present _ _ Hf), (comment_parser_absent _ Hf). }
  unfold all_fields, RTFParser.decl_parser, RTFParser.defa_parser, RTFParser.auto_parser,
    RTFParser.atom_parser, RTFParser.pairwise_parser, RTFParser.quad_parser,
    RTFParser.octa_parser, RTFParser.delete_parser.
  rewrite E. repeat split.
Qed.

Lemma X21_witness :
  RTFParser.pairwise_parser "BOND CB CA  N  HN ! backbone"
  = RTFParser.pairwise_parser "BOND CB CA  N  HN ".
Proof.
  exact (proj1 (proj2 (proj2 (proj2 (proj2 (proj2
    (X21_comments_reach_no_field "BOND CB CA  N  HN " " backbone" eq_refl))))))).
Defined.

(** ** An altloc given twice *)

Lemma dict_set_present {K V} `{EqDecision K} (d : list (K * V)) k v v0 :
  dict_get d k = Some v0 →
  (dict_set d k v).*1 = d.*1 ∧ length (dict_set d k v) = length d.
Proof.
  induction d as [|[k' v'] d IH]; cbn [dict_get dict_set]; [done|].
  destruct (decide (k' = k)) as [->|Hne]; [done|].
  intros E. destruct (IH E) as [Hk Hl]. cbn. by rewrite Hk, Hl.
Qed.


Lemma spelling_of_group h g d s x fn :
  h !! g = Some (ODisorderedAtom d) → selected_child (da_wrapper d) = Some s →
  h !! s = Some (OAtom x) → atom_fullname x = fn → spelling h g fn.
Proof. intros Hg Hs Hx <-. by econstructor. Qed.


(** ** Residues chosen for a superposition *)

Lemma elem_of_range a b i : i ∈ ChainSuperimposer.range a b ↔ a ≤ i < b.
Proof.
  unfold ChainSuperimposer.range. rewrite list_elem_of_fmap. split.
  - intros (k & -> & Hk). apply elem_of_seq in Hk. lia.
  - intros Hi. exists (Z.to_nat (i - a)). split; [lia|]. apply elem_of_seq. lia.
Qed.

Lemma elem_of_aligned_list (start_id : Z) (ranges : list (Z * Z)) acc (k : res_id) :
  k ∈ foldl (λ aligned_res (r : Z * Z),
               let '(start, end_) := r in
               let cur_id_range :=
                 (λ i, (" ", i, " ")) <$>
                   ChainSuperimposer.range (start + start_id) (end_ + start_id) in
               aligned_res ++ cur_id_range) acc ranges
  ↔ k ∈ acc ∨ ∃ s e, (s, e) ∈ ranges ∧ k.1.1 = " " ∧ k.2 = " "
                     ∧ s + start_id ≤ k.1.2 < e + start_id.
Proof.
  revert acc. induction ranges as [|[s e] ranges IH]; intros acc; cbn [foldl].
  - split; [by left|]. intros [?|(s & e & Hin & _)]; [done|]. by apply elem_of_nil in Hin.
  - rewrite IH, elem_of_app, list_elem_of_fmap. split.
    + intros [[Hacc|(i & -> & Hi)]|(s' & e' & Hin & Hk)].
      * by left.
      * right. exists s, e. split; [left|]. cbn. by apply elem_of_range in Hi.
      * right. exists s', e'. split; [by right|done].
    + intros [Hacc|(s' & e' & Hin & Hf & Hc & Hi)]; [by left; left|].
      apply elem_of_cons in Hin as [[= -> ->]|Hin].
      * left. right. exists k.1.2. split; [|by apply elem_of_range].
        destruct k as [[f i] c]. cbn in *. by subst.
      * right. by exists s', e'.
Qed.

Lemma elem_of_aligned_res_ids start_id ranges field i icode :
  (field, i, icode) ∈ ChainSuperimposer._get_aligned_res_ids start_id ranges
  ↔ field = " " ∧ icode = " "
    ∧ ∃ s e, (s, e) ∈ ranges ∧ s + start_id ≤ i < e + start_id.
Proof.
  unfold ChainSuperimposer._get_aligned_res_ids. cbv zeta.
  rewrite elem_of_list_to_set, elem_of_aligned_list. cbn [fst snd]. split.
  - intros [Hn|(s & e & Hin & -> & -> & Hi)]; [by apply elem_of_nil in Hn|].
    split; [done|]. split; [done|]. by exists s, e.
  - intros (-> & -> & s & e & Hin & Hi). right. by exists s, e.
Qed.

Lemma aligned_res_ids_empty start_id ranges :
  ChainSuperimposer._get_aligned_res_ids start_id ranges = ∅
  ↔ Forall (λ r, r.2 ≤ r.1) ranges.
Proof.
  split.
  - intros E. apply Forall_forall. intros [s e] Hin. cbn.
    destruct (Z.le_gt_cases e s) as [?|Hlt]; [done|]. exfalso.
    assert ((" ", s + start_id, " ")
              ∈ ChainSuperimposer._get_aligned_res_ids start_id ranges) as Hk.
    { apply elem_of_aligned_res_ids. split; [done|]. split; [done|].
      exists s, e. split; [done|lia]. }
    rewrite E in Hk. by apply elem_of_empty in Hk.
  - intros Hall. apply set_eq. intros [[f i] c]. split.
    + intros Hk. exfalso.
      apply elem_of_aligned_res_ids in Hk as (_ & _ & s & e & Hin & Hi).
      rewrite Forall_forall in Hall. specialize (Hall _ Hin). cbn in Hall. lia.
    + intros Hk. by apply elem_of_empty in Hk.
Qed.

(** X23.  [_get_aligned_res_ids] returns the identifiers with a blank hetero
    flag and a blank insertion code whose number lies in one of the aligned
    ranges shifted by [start_id], the end of a range excluded, and nothing
    else; a range that is empty or reversed contributes nothing. *)
Theorem X23_aligned_res_ids start_id ranges field i icode :
  (field, i, icode) ∈ ChainSuperimposer._get_aligned_res_ids start_id ranges
  ↔ field = " " ∧ icode = " "
    ∧ ∃ s e, (s, e) ∈ ranges ∧ s + start_id ≤ i < e + start_id.
Proof. apply elem_of_aligned_res_ids. Qed.

(** X24.  [_get_present_res_ids_from_sele] on the identifiers of an
    alignment: an empty selection stands for every residue, so an alignment
    none of whose ranges holds a residue selects the whole chain; any other
    alignment is cut down to the identifiers the chain holds.  Either way only
    identifiers of the chain are returned. *)
Theorem X24_present_res_ids chain start_id ranges :
  let sele := ChainSuperimposer._get_aligned_res_ids start_id ranges in
  let present := dom (child_dict (chain_entity chain)) in
  let chosen := ChainSuperimposer._get_present_res_ids_from_sele chain sele in
  (Forall (λ r, r.2 ≤ r.1) ranges → chosen = present)
  ∧ (¬ Forall (λ r, r.2 ≤ r.1) ranges →
     ∀ k, k ∈ chosen ↔ k ∈ sele ∧ is_Some (child_dict (chain_entity chain) !! k))
  ∧ chosen ⊆ present.
Proof.
  intros sele present chosen. subst chosen.
  unfold ChainSuperimposer._get_present_res_ids_from_sele. cbv zeta.
  fold sele present. split; [|split].
  - intros Hall. apply (aligned_res_ids_empty start_id) in Hall. fold sele in Hall.
    by destruct (decide (sele ≠ ∅)).
  - intros Hsome k. destruct (decide (sele ≠ ∅)) as [_|Hn].
    + subst present. by rewrite elem_of_intersection, elem_of_dom.
    + exfalso. apply Hsome, (aligned_res_ids_empty start_id). subst sele.
      by apply dec_stable.
  - destruct (decide (sele ≠ ∅)); [|done]. apply intersection_subseteq_r.
Qed.

Lemma NoDup_range a b : NoDup (ChainSuperimposer.range a b).
Proof.
  unfold ChainSuperimposer.range. apply NoDup_fmap_2; [|apply NoDup_seq].
  intros x y. lia.
Qed.

Lemma length_range a b : length (ChainSuperimposer.range a b) = Z.to_nat (b - a).
Proof. unfold ChainSuperimposer.range. by rewrite length_fmap, length_seq. Qed.

(** X25.  The residue numbers [set_around_gap] selects around a gap from
    [start] to [end_] with a cutoff that is not negative: no number is
    selected twice and none lies in the gap.  When the C terminus is missing
    the numbers are all those below [start - 2 * cutoff], from 0 on, and not
    the [2 * cutoff] numbers before the gap.  In the two other cases
    [2 * cutoff] numbers are selected, each one a residue index of the
    sequence, at most [cutoff] before the gap and less than [2 * cutoff] after
    it. *)
Theorem X25_numbers_around_gap seq_len start end_ cutoff ids :
  0 ≤ cutoff → 0 ≤ start ≤ end_ →
  ChainSuperimposer.set_around_gap_res_ids seq_len start end_ cutoff = Some ids →
  NoDup ids
  ∧ (∀ i, i ∈ ids → ¬ start ≤ i < end_)
  ∧ (seq_len - cutoff < end_ ∧ 2 * cutoff < start →
     ∀ i, i ∈ ids ↔ 0 ≤ i < start - 2 * cutoff)
  ∧ (¬ (seq_len - cutoff < end_ ∧ 2 * cutoff < start) →
     length ids = Z.to_nat (2 * cutoff)
     ∧ ∀ i, i ∈ ids → 0 ≤ i < seq_len ∧ start - cutoff ≤ i < end_ + 2 * cutoff).
Proof.
  intros Hc Hse. unfold ChainSuperimposer.set_around_gap_res_ids.
  destruct (start <? cutoff) eqn:E1, (end_ <? seq_len - 2 * cutoff) eqn:E2,
    (seq_len - cutoff <? end_) eqn:E3, (2 * cutoff <? start) eqn:E4,
    (cutoff <? start) eqn:E5, (end_ <? seq_len - cutoff) eqn:E6;
    cbn [andb]; intros [= <-];
    repeat match goal with
      | H : (_ <? _) = true |- _ => apply Z.ltb_lt in H
      | H : (_ <? _) = false |- _ => apply Z.ltb_ge in H
      end;
    try lia;
    (split; [first [apply NoDup_range
                   |apply NoDup_app; split; [apply NoDup_range|];
                    split; [|apply NoDup_range];
                    intros i Hi1 Hi2; apply elem_of_range in Hi1, Hi2; lia]|]);
    (split; [intros i Hi; rewrite ?elem_of_app, !elem_of_range in Hi; lia|]);
    (split; [intros ? i; rewrite ?elem_of_app, !elem_of_range; lia|]);
    (intros ?; split;
       [rewrite ?length_app, !length_range; lia
       |intros i Hi; rewrite ?elem_of_app, !elem_of_range in Hi; lia]).
Qed.

Lemma X25_witness :
  NoDup [38; 39; 45; 46]
  ∧ (∀ i, i ∈ [38; 39; 45; 46] → ¬ 40 ≤ i < 45)
  ∧ (100 - 2 < 45 ∧ 2 * 2 < 40 → ∀ i, i ∈ [38; 39; 45; 46] ↔ 0 ≤ i < 40 - 2 * 2)
  ∧ (¬ (100 - 2 < 45 ∧ 2 * 2 < 40) →
     length [38; 39; 45; 46] = Z.to_nat (2 * 2)
     ∧ ∀ i, i ∈ [38; 39; 45; 46] → 0 ≤ i < 100 ∧ 40 - 2 ≤ i < 45 + 2 * 2).
Proof. apply (X25_numbers_around_gap 100 40 45 2); [lia|lia|reflexivity]. Defined.

(** X26.  [set_around_gap] compares with strict inequalities only: for a
    cutoff that is not negative, a gap that starts exactly [cutoff] residues
    into the sequence, or ends exactly [cutoff] residues before its end, is
    treated as out of range, and so is a gap at the N terminus that ends less
    than [2 * cutoff] residues before the end of the sequence.  No residue
    numbers are selected then, and all common residues are used. *)
Theorem X26_gap_on_the_cutoff seq_len start end_ cutoff :
  0 ≤ cutoff →
  start = cutoff ∨ end_ = seq_len - cutoff
  ∨ (start < cutoff ∧ seq_len - 2 * cutoff ≤ end_) →
  ChainSuperimposer.set_around_gap_res_ids seq_len start end_ cutoff = None.
Proof.
  intros Hc H. unfold ChainSuperimposer.set_around_gap_res_ids.
  destruct (start <? cutoff) eqn:E1, (end_ <? seq_len - 2 * cutoff) eqn:E2,
    (seq_len - cutoff <? end_) eqn:E3, (2 * cutoff <? start) eqn:E4,
    (cutoff <? start) eqn:E5, (end_ <? seq_len - cutoff) eqn:E6;
    cbn [andb]; try reflexivity; exfalso;
    repeat match goal with
      | H : (_ <? _) = true |- _ => apply Z.ltb_lt in H
      | H : (_ <? _) = false |- _ => apply Z.ltb_ge in H
      end; lia.
Qed.

Lemma X26_witness :
  ChainSuperimposer.set_around_gap_res_ids 100 10 20 10 = None.
Proof. apply X26_gap_on_the_cutoff; [lia|by left]. Defined.
